(** * Analysis jobs and threat records of the security dashboard

    A shallow embedding of the two servers of the repository
    (server/index.js, and server/storage.ts with its router), of the
    selection and quarantine handlers of the threats page, and of the
    polling, the scan buttons and the scan form of the clients, with the
    properties of the job pipeline and of the threat life cycle proved
    about them.

    JavaScript objects are finite maps from field names to values; the
    arrays that hold the records are lists, read and written by index;
    handlers take the store and return the response with the new store.
    Numbers are integers: every number the handlers compute with is an id
    or the counter, far below 2^53; other numbers are only carried. *)

From stdpp Require Import gmap strings list fin_maps pretty.
From Stdlib Require Import ZArith Lia.

Set Warnings "-register-all".
Local Open Scope Z_scope.
Local Open Scope string_scope.

(** ** JavaScript values and objects *)

Inductive val : Type :=
  | VUndef
  | VNull
  | VNaN
  | VBool (b : bool)
  | VNum (n : Z)
  | VStr (s : string)
  | VDate (t : Z)
  | VArr (items : list val)
  | VObj (fields : gmap string val).

Abbreviation obj := (gmap string val).

(** [o.k]: a missing property reads as undefined. *)
Definition field (o : obj) (k : string) : val := default VUndef (o !! k).

(** [{ ...base, ...over }]: the later spread wins. *)
Definition spread (base over : obj) : obj := over ∪ base.

(** Truthiness, as [||], [!] and [if] see it. *)
Definition truthy (v : val) : bool :=
  match v with
  | VUndef | VNull | VNaN => false
  | VBool b => b
  | VNum n => negb (Z.eqb n 0)
  | VStr s => negb (String.eqb s "")
  | VDate _ | VArr _ | VObj _ => true
  end.

(** [a || b] *)
Definition or_else (a b : val) : val := if truthy a then a else b.

(** [a === b]. Dates, arrays and objects compare by reference; the two
    sides always come from different requests or records here, so two of
    them are never the same reference. *)
Definition strict_eq (a b : val) : bool :=
  match a, b with
  | VUndef, VUndef => true
  | VNull, VNull => true
  | VBool x, VBool y => Bool.eqb x y
  | VNum x, VNum y => Z.eqb x y
  | VStr x, VStr y => String.eqb x y
  | _, _ => false
  end.

(** [arr.findIndex(p)]; [None] stands for -1. *)
Fixpoint findIndex {A} (p : A → bool) (l : list A) : option nat :=
  match l with
  | [] => None
  | x :: l' => if p x then Some O else S <$> findIndex p l'
  end.

(** [arr.find(p)]; [None] stands for undefined. *)
Definition find {A} (p : A → bool) (l : list A) : option A := List.find p l.

(** The numeric id of a record, when it has one. *)
Definition id_of (o : obj) : option Z :=
  match o !! "id" with Some (VNum n) => Some n | _ => None end.

Definition has_id (id : val) (o : obj) : bool := strict_eq (field o "id") id.

(** HTTP responses: status code and JSON body. *)
Inductive body : Type :=
  | BError (msg : string)
  | BUser (user : obj)
  | BObj (o : obj)
  | BList (l : list obj)
  | BNull
  | BMessage (message status : string).

Record response : Type := Response { code : Z; json : body }.

(** A result or a thrown [Error]. *)
Inductive outcome (A : Type) : Type :=
  | Ok (a : A)
  | Throw (msg : string).
Arguments Ok {A} a.
Arguments Throw {A} msg.

(** ** server/storage.ts: MemStorage *)

Module Storage.

Record MemStorage : Type := Mem {
  users : list obj;
  threatDetections : list obj;
  mlModels : list obj;
  fileAnalyses : list obj;
  nextId : Z
}.

Definition empty : MemStorage := Mem [] [] [] [] 1.

(** The methods take the clock reading used by [new Date()]. *)
Definition createUser (now : Z) (user : obj) (st : MemStorage) : obj * MemStorage :=
  let newUser := <["createdAt" := VDate now]> (spread {["id" := VNum (nextId st)]} user) in
  (newUser,
   Mem (users st ++ [newUser]) (threatDetections st) (mlModels st) (fileAnalyses st)
       (nextId st + 1)).

Definition getUserByEmail (email : val) (st : MemStorage) : option obj :=
  find (λ u, strict_eq (field u "email") email) (users st).

Definition getUserById (id : val) (st : MemStorage) : option obj :=
  find (has_id id) (users st).

Definition createThreatDetection (now : Z) (detection : obj) (st : MemStorage)
  : obj * MemStorage :=
  let newDetection : obj :=
    list_to_map [
      ("id", VNum (nextId st));
      ("userId", or_else (field detection "userId") VNull);
      ("fileName", field detection "fileName");
      ("filePath", field detection "filePath");
      ("threatLevel", field detection "threatLevel");
      ("threatType", field detection "threatType");
      ("confidence", field detection "confidence");
      ("mlPrediction", field detection "mlPrediction");
      ("fileSize", or_else (field detection "fileSize") VNull);
      ("entropy", or_else (field detection "entropy") VNull);
      ("features", or_else (field detection "features") VNull);
      ("isQuarantined", or_else (field detection "isQuarantined") (VBool false));
      ("detectedAt", VDate now)] in
  (newDetection,
   Mem (users st) (threatDetections st ++ [newDetection]) (mlModels st) (fileAnalyses st)
       (nextId st + 1)).

Definition getThreatDetectionsByUser (userId : val) (st : MemStorage) : list obj :=
  List.filter (λ t, strict_eq (field t "userId") userId) (threatDetections st).

Definition getAllThreatDetections (st : MemStorage) : list obj := threatDetections st.

(** [arr[index] = { ...arr[index], ...updates }; return arr[index]] *)
Definition update_at (index : nat) (updates : obj) (arr : list obj) : option (obj * list obj) :=
  match arr !! index with
  | Some old => let new := spread old updates in Some (new, <[index := new]> arr)
  | None => None
  end.

Definition updateThreatDetection (id : val) (updates : obj) (st : MemStorage)
  : outcome (obj * MemStorage) :=
  match findIndex (has_id id) (threatDetections st) with
  | None => Throw "Threat detection not found"
  | Some index =>
      match update_at index updates (threatDetections st) with
      | Some (t, arr) =>
          Ok (t, Mem (users st) arr (mlModels st) (fileAnalyses st) (nextId st))
      | None => Throw "Threat detection not found"
      end
  end.

Definition createMlModel (now : Z) (model : obj) (st : MemStorage) : obj * MemStorage :=
  let newModel : obj :=
    list_to_map [
      ("id", VNum (nextId st));
      ("modelName", field model "modelName");
      ("algorithm", field model "algorithm");
      ("accuracy", field model "accuracy");
      ("precision", field model "precision");
      ("recall", field model "recall");
      ("f1Score", field model "f1Score");
      ("trainingDataSize", or_else (field model "trainingDataSize") VNull);
      ("features", or_else (field model "features") VNull);
      ("modelPath", or_else (field model "modelPath") VNull);
      ("isActive", or_else (field model "isActive") (VBool false));
      ("trainedAt", VDate now)] in
  (newModel,
   Mem (users st) (threatDetections st) (mlModels st ++ [newModel]) (fileAnalyses st)
       (nextId st + 1)).

Definition getActiveMlModel (st : MemStorage) : option obj :=
  find (λ m, truthy (field m "isActive")) (mlModels st).

Definition getAllMlModels (st : MemStorage) : list obj := mlModels st.

Definition updateMlModel (id : val) (updates : obj) (st : MemStorage)
  : outcome (obj * MemStorage) :=
  match findIndex (has_id id) (mlModels st) with
  | None => Throw "ML model not found"
  | Some index =>
      match update_at index updates (mlModels st) with
      | Some (m, arr) =>
          Ok (m, Mem (users st) (threatDetections st) arr (fileAnalyses st) (nextId st))
      | None => Throw "ML model not found"
      end
  end.

Definition createFileAnalysis (now : Z) (analysis : obj) (st : MemStorage)
  : obj * MemStorage :=
  let newAnalysis : obj :=
    list_to_map [
      ("id", VNum (nextId st));
      ("userId", or_else (field analysis "userId") VNull);
      ("fileName", field analysis "fileName");
      ("filePath", field analysis "filePath");
      ("status", field analysis "status");
      ("analysisResult", or_else (field analysis "analysisResult") VNull);
      ("uploadedAt", VDate now);
      ("completedAt", VNull)] in
  (newAnalysis,
   Mem (users st) (threatDetections st) (mlModels st) (fileAnalyses st ++ [newAnalysis])
       (nextId st + 1)).

Definition getFileAnalysisByUser (userId : val) (st : MemStorage) : list obj :=
  List.filter (λ f, strict_eq (field f "userId") userId) (fileAnalyses st).

Definition updateFileAnalysis (id : val) (updates : obj) (st : MemStorage)
  : outcome (obj * MemStorage) :=
  match findIndex (has_id id) (fileAnalyses st) with
  | None => Throw "File analysis not found"
  | Some index =>
      match update_at index updates (fileAnalyses st) with
      | Some (f, arr) =>
          Ok (f, Mem (users st) (threatDetections st) (mlModels st) arr (nextId st))
      | None => Throw "File analysis not found"
      end
  end.

Definition getFileAnalysisById (id : val) (st : MemStorage) : option obj :=
  find (has_id id) (fileAnalyses st).

(** Calls of the methods that write, and a store driven by a sequence of
    them. [call] gives the record a create method returns ([None] for an
    update) and the store after the call; an update that throws leaves the
    store as it was. *)
Inductive op : Type :=
  | CreateUser (now : Z) (user : obj)
  | CreateThreatDetection (now : Z) (detection : obj)
  | CreateMlModel (now : Z) (model : obj)
  | CreateFileAnalysis (now : Z) (analysis : obj)
  | UpdateThreatDetection (id : val) (updates : obj)
  | UpdateMlModel (id : val) (updates : obj)
  | UpdateFileAnalysis (id : val) (updates : obj).

Definition after {A} (r : outcome (A * MemStorage)) (st : MemStorage) : MemStorage :=
  match r with Ok (_, st') => st' | Throw _ => st end.

Definition call (o : op) (st : MemStorage) : option obj * MemStorage :=
  match o with
  | CreateUser now u => let '(r, st') := createUser now u st in (Some r, st')
  | CreateThreatDetection now d =>
      let '(r, st') := createThreatDetection now d st in (Some r, st')
  | CreateMlModel now m => let '(r, st') := createMlModel now m st in (Some r, st')
  | CreateFileAnalysis now a => let '(r, st') := createFileAnalysis now a st in (Some r, st')
  | UpdateThreatDetection id u => (None, after (updateThreatDetection id u st) st)
  | UpdateMlModel id u => (None, after (updateMlModel id u st) st)
  | UpdateFileAnalysis id u => (None, after (updateFileAnalysis id u st) st)
  end.

(** The records created along the way, in creation order, and the final
    store. *)
Fixpoint calls (os : list op) (st : MemStorage) : list obj * MemStorage :=
  match os with
  | [] => ([], st)
  | o :: os' =>
      let '(r, st') := call o st in
      let '(rs, st'') := calls os' st' in
      ((from_option (λ x, [x]) [] r ++ rs)%list, st'')
  end.

(** Every record the store holds, over its four collections. *)
Definition all_records (st : MemStorage) : list obj :=
  (users st ++ threatDetections st ++ mlModels st ++ fileAnalyses st)%list.

(** The data a call spreads into a record: what [createUser] is given,
    and the patch of an update. *)
Definition spread_data (o : op) : option obj :=
  match o with
  | CreateUser _ u => Some u
  | UpdateThreatDetection _ u | UpdateMlModel _ u | UpdateFileAnalysis _ u => Some u
  | _ => None
  end.

End Storage.


(** [parseInt] of a path parameter: an integer, or NaN ([None]). *)
Definition parsed (p : option Z) : val :=
  match p with Some n => VNum n | None => VNaN end.

(** ** The router over MemStorage

    The routes that write users, threats and analyses, and the reads the
    properties are about. The listing routes and the model routes only
    read the store or call [createMlModel]. *)

Module Router.
Import Storage.

Section Schemas.

(** The request schemas of shared/schema: [parse] gives the validated
    data or throws ([None]). *)
Variable insertUserSchema : obj → option obj.
Variable insertThreatDetectionSchema : obj → option obj.
Variable insertFileAnalysisSchema : obj → option obj.

(** A pending [setTimeout] of the analyze route: the record it closed
    over. All of them wait 2000 ms, so they fire in the order they were
    set. *)
Record state : Type := State {
  storage : MemStorage;
  timers : list obj
}.

Definition init : state := State Storage.empty [].

Definition with_storage (s : state) (m : MemStorage) : state := State m (timers s).

(** POST /auth/signup, served from its first line to its last with no
    other handler running at its two [await]s. *)
Definition signup (now : Z) (req_body : obj) (s : state) : response * state :=
  match insertUserSchema req_body with
  | None => (Response 400 (BError "Invalid user data"), s)
  | Some userData =>
      match getUserByEmail (field userData "email") (storage s) with
      | Some _ => (Response 400 (BError "User already exists with this email"), s)
      | None =>
          let '(user, m) := createUser now userData (storage s) in
          let userWithoutPassword := delete "password" user in
          (Response 201 (BUser userWithoutPassword), with_storage s m)
      end
  end.

(** The same handler in its two parts. Up to the first [await] the data
    is parsed and the user looked up, which settles whether the handler
    refuses (it then answers) or goes on with the data. After the
    [await], and after whatever other handlers ran meanwhile, the user
    is created in the store as it is then. *)
Definition signup_check (req_body : obj) (s : state) : response + obj :=
  match insertUserSchema req_body with
  | None => inl (Response 400 (BError "Invalid user data"))
  | Some userData =>
      match getUserByEmail (field userData "email") (storage s) with
      | Some _ => inl (Response 400 (BError "User already exists with this email"))
      | None => inr userData
      end
  end.

Definition signup_create (now : Z) (userData : obj) (s : state) : response * state :=
  let '(user, m) := createUser now userData (storage s) in
  let userWithoutPassword := delete "password" user in
  (Response 201 (BUser userWithoutPassword), with_storage s m).

(** POST /auth/login *)
Definition login (req_body : obj) (s : state) : response * state :=
  let email := field req_body "email" in
  let password := field req_body "password" in
  match getUserByEmail email (storage s) with
  | None => (Response 401 (BError "Invalid email or password"), s)
  | Some user =>
      if negb (strict_eq (field user "password") password)
      then (Response 401 (BError "Invalid email or password"), s)
      else
        let userWithoutPassword := delete "password" user in
        (Response 200 (BUser userWithoutPassword), s)
  end.

(** GET /threats *)
Definition get_threats (s : state) : response * state :=
  (Response 200 (BList (getAllThreatDetections (storage s))), s).

(** POST /threats *)
Definition post_threat (now : Z) (req_body : obj) (s : state) : response * state :=
  match insertThreatDetectionSchema req_body with
  | None => (Response 400 (BError "Invalid threat data"), s)
  | Some threatData =>
      let '(threat, m) := createThreatDetection now threatData (storage s) in
      (Response 201 (BObj threat), with_storage s m)
  end.

(** PATCH /threats/:id *)
Definition patch_threat (param : option Z) (req_body : obj) (s : state)
  : response * state :=
  match updateThreatDetection (parsed param) req_body (storage s) with
  | Ok (threat, m) => (Response 200 (BObj threat), with_storage s m)
  | Throw _ => (Response 404 (BError "Threat not found"), s)
  end.

(** POST /analyze: creates the record and sets the timer. *)
Definition analyze (now : Z) (req_body : obj) (s : state) : response * state :=
  match insertFileAnalysisSchema req_body with
  | None => (Response 400 (BError "Invalid analysis data"), s)
  | Some analysisData =>
      let '(analysis, m) := createFileAnalysis now analysisData (storage s) in
      (Response 201 (BObj analysis), State m (timers s ++ [analysis]))
  end.

(** The timer callback; [mockResult] is the random verdict it draws. An
    error thrown inside it reaches nobody and the store stays as it is. *)
Definition analyze_timeout (now : Z) (mockResult : val) (s : state) : state :=
  match timers s with
  | [] => s
  | analysis :: rest =>
      let updates : obj :=
        list_to_map [("status", VStr "COMPLETED");
                     ("analysisResult", mockResult);
                     ("completedAt", VDate now)] in
      match updateFileAnalysis (field analysis "id") updates (storage s) with
      | Ok (_, m) => State m rest
      | Throw _ => State (storage s) rest
      end
  end.

(** GET /analyze/:id *)
Definition get_analysis (param : option Z) (s : state) : response * state :=
  match getFileAnalysisById (parsed param) (storage s) with
  | None => (Response 404 (BError "Analysis not found"), s)
  | Some analysis => (Response 200 (BObj analysis), s)
  end.

(** A client that asks [n] times in a row for one analysis: the answers
    in order, and the state after the last one. *)
Fixpoint poll (n : nat) (param : option Z) (s : state) : list response * state :=
  match n with
  | O => ([], s)
  | S n' =>
      let '(r, s') := get_analysis param s in
      let '(rs, s'') := poll n' param s' in
      (r :: rs, s'')
  end.

End Schemas.
End Router.

(** ** server/index.js

    The second server keeps its own four arrays and its own counter, and
    runs the analysis in a child process whose output it listens to. *)

Module Index.

(** [users], [threatDetections], [mlModels], [fileAnalyses], [nextId].
    The callbacks of a spawned analysis process close over the record
    object that sits in [fileAnalyses]; the array only grows, so the
    position of the record stands for that reference. *)
Record state : Type := State {
  users : list obj;
  threatDetections : list obj;
  mlModels : list obj;
  fileAnalyses : list obj;
  nextId : Z
}.

Definition init : state := State [] [] [] [] 1.

(** POST /api/auth/signup *)
Definition signup (now : Z) (req_body : obj) (s : state) : response * state :=
  let email := field req_body "email" in
  let password := field req_body "password" in
  let name := field req_body "name" in
  match find (λ u, strict_eq (field u "email") email) (users s) with
  | Some _ => (Response 400 (BError "User already exists"), s)
  | None =>
      let newUser : obj :=
        list_to_map [("id", VNum (nextId s)); ("email", email); ("password", password);
                     ("name", name); ("createdAt", VDate now)] in
      let userWithoutPassword := delete "password" newUser in
      (Response 201 (BUser userWithoutPassword),
       State (users s ++ [newUser]) (threatDetections s) (mlModels s) (fileAnalyses s)
             (nextId s + 1))
  end.

(** POST /api/auth/login *)
Definition login (req_body : obj) (s : state) : response * state :=
  let email := field req_body "email" in
  let password := field req_body "password" in
  match find (λ u, strict_eq (field u "email") email
                   && strict_eq (field u "password") password) (users s) with
  | None => (Response 401 (BError "Invalid credentials"), s)
  | Some user =>
      let userWithoutPassword := delete "password" user in
      (Response 200 (BUser userWithoutPassword), s)
  end.

(** GET /api/threats *)
Definition get_threats (s : state) : response * state :=
  (Response 200 (BList (threatDetections s)), s).

(** POST /api/threats *)
Definition post_threat (now : Z) (req_body : obj) (s : state) : response * state :=
  let newThreat := <["detectedAt" := VDate now]> (spread {["id" := VNum (nextId s)]} req_body) in
  (Response 201 (BObj newThreat),
   State (users s) (threatDetections s ++ [newThreat]) (mlModels s) (fileAnalyses s)
         (nextId s + 1)).

(** GET /api/models and GET /api/models/active *)
Definition get_models (s : state) : response * state :=
  (Response 200 (BList (mlModels s)), s).

Definition get_active_model (s : state) : response * state :=
  match find (λ m, truthy (field m "isActive")) (mlModels s) with
  | Some activeModel => (Response 200 (BObj activeModel), s)
  | None => (Response 200 BNull, s)
  end.

(** POST /api/analyze: the record is pushed, the process is spawned and
    the record as it is now is sent back. *)
Definition analyze (now : Z) (req_body : obj) (s : state) : response * state :=
  let fileName := field req_body "fileName" in
  let userId := field req_body "userId" in
  let analysis : obj :=
    list_to_map [("id", VNum (nextId s)); ("fileName", fileName); ("userId", userId);
                 ("status", VStr "ANALYZING"); ("uploadedAt", VDate now);
                 ("result", VNull)] in
  (Response 201 (BObj analysis),
   State (users s) (threatDetections s) (mlModels s) (fileAnalyses s ++ [analysis])
         (nextId s + 1)).

(** The record a callback closed over is mutated where it is stored. *)
Definition mutate (ref : nat) (f : obj → obj) (s : state) : state :=
  match fileAnalyses s !! ref with
  | Some analysis =>
      State (users s) (threatDetections s) (mlModels s)
            (<[ref := f analysis]> (fileAnalyses s)) (nextId s)
  | None => s
  end.

(** [pythonProcess.stderr.on('data', ...)] *)
Definition on_stderr_data (data : string) (analysis : obj) : obj :=
  <["error" := VStr data]> (<["status" := VStr "FAILED"]> analysis).

Section Parser.

(** [JSON.parse]: the value, or [None] when it throws. *)
Variable JSON_parse : string → option val.

(** [pythonProcess.stdout.on('data', ...)] *)
Definition on_stdout_data (now : Z) (data : string) (analysis : obj) : obj :=
  match JSON_parse data with
  | Some result =>
      <["completedAt" := VDate now]>
        (<["result" := result]> (<["status" := VStr "COMPLETED"]> analysis))
  | None =>
      <["error" := VStr "Analysis failed"]> (<["status" := VStr "FAILED"]> analysis)
  end.

(** POST /api/train answers at once and spawns the training process; the
    callbacks of the process close over [algorithm] and [datasetSize],
    which the request gives or leaves to their defaults. *)
Definition or_default (v d : val) : val :=
  match v with VUndef => d | _ => v end.

Definition train (req_body : obj) (s : state) : response * state :=
  (Response 200 (BMessage "Training started with large dataset" "TRAINING"), s).

(** [result.k]: undefined on a value that has no such property, a
    TypeError ([None]) on null. *)
Definition property (result : val) (k : string) : option val :=
  match result with
  | VNull | VUndef => None
  | VObj o => Some (field o k)
  | _ => Some VUndef
  end.

(** The template literal that names a model after its algorithm and the
    clock. *)
Variable model_name : val → Z → string.

(** The stdout callback of a training process. The object literal takes
    [nextId++] first, so the counter has moved when reading a property of
    a null result throws; the [catch] then only logs. *)
Definition on_training_stdout (algorithm datasetSize : val) (now : Z) (data : string)
    (s : state) : state :=
  match JSON_parse data with
  | None => s
  | Some result =>
      match property result "accuracy", property result "precision",
            property result "recall", property result "f1_score",
            property result "features" with
      | Some accuracy, Some precision, Some recall, Some f1_score, Some features =>
          let newModel : obj :=
            list_to_map [("id", VNum (nextId s));
                         ("modelName", VStr (model_name algorithm now));
                         ("algorithm", algorithm);
                         ("accuracy", accuracy);
                         ("precision", precision);
                         ("recall", recall);
                         ("f1Score", f1_score);
                         ("trainingDataSize", datasetSize);
                         ("features", features);
                         ("trainedAt", VDate now);
                         ("isActive", VBool true)] in
          State (users s) (threatDetections s)
                ((<["isActive" := VBool false]> <$> mlModels s) ++ [newModel])
                (fileAnalyses s) (nextId s + 1)
      | _, _, _, _, _ =>
          State (users s) (threatDetections s) (mlModels s) (fileAnalyses s) (nextId s + 1)
      end
  end.

(** GET /api/analyze/:id *)
Definition get_analysis (param : option Z) (s : state) : response * state :=
  match find (has_id (parsed param)) (fileAnalyses s) with
  | None => (Response 404 (BError "Analysis not found"), s)
  | Some analysis => (Response 200 (BObj analysis), s)
  end.

(** A client that asks [n] times in a row for one analysis: the answers
    in order, and the state after the last one. *)
Fixpoint poll (n : nat) (param : option Z) (s : state) : list response * state :=
  match n with
  | O => ([], s)
  | S n' =>
      let '(r, s') := get_analysis param s in
      let '(rs, s'') := poll n' param s' in
      (r :: rs, s'')
  end.

(** What the server reacts to: requests, data events of the process
    spawned for the record at position [ref], and output of the training
    process spawned for a training request. *)
Inductive event : Type :=
  | Signup (now : Z) (req_body : obj)
  | Login (req_body : obj)
  | GetThreats
  | PostThreat (now : Z) (req_body : obj)
  | GetModels
  | GetActiveModel
  | Analyze (now : Z) (req_body : obj)
  | StdoutData (ref : nat) (now : Z) (data : string)
  | StderrData (ref : nat) (data : string)
  | GetAnalysis (param : option Z)
  | Train (req_body : obj)
  | TrainingStdout (req_body : obj) (now : Z) (data : string).

Definition step (e : event) (s : state) : option response * state :=
  match e with
  | Signup now b => let '(r, s') := signup now b s in (Some r, s')
  | Login b => let '(r, s') := login b s in (Some r, s')
  | GetThreats => let '(r, s') := get_threats s in (Some r, s')
  | PostThreat now b => let '(r, s') := post_threat now b s in (Some r, s')
  | GetModels => let '(r, s') := get_models s in (Some r, s')
  | GetActiveModel => let '(r, s') := get_active_model s in (Some r, s')
  | Analyze now b => let '(r, s') := analyze now b s in (Some r, s')
  | StdoutData ref now data => (None, mutate ref (on_stdout_data now data) s)
  | StderrData ref data => (None, mutate ref (on_stderr_data data) s)
  | GetAnalysis p => let '(r, s') := get_analysis p s in (Some r, s')
  | Train b => let '(r, s') := train b s in (Some r, s')
  | TrainingStdout b now data =>
      (None,
       on_training_stdout (or_default (field b "algorithm") (VStr "ensemble"))
                          (or_default (field b "datasetSize") (VNum 50000)) now data s)
  end.

Definition run (es : list event) (s : state) : state :=
  foldl (λ s e, (step e s).2) s es.

(** The status of the record at position [ref]. *)
Definition status_at (ref : nat) (s : state) : option val :=
  (λ a : obj, field a "status") <$> (fileAnalyses s !! ref).

End Parser.
End Index.

(** ** The threats page: bulk quarantine *)

Module Threats.

(** A double quote inside a string of the page. *)
Definition dq : string := String (Ascii.ascii_of_nat 34) EmptyString.

Record badge : Type := Badge { className : string; innerHTML : string }.

(** The [style.display] of the two action buttons of a row; [None] when
    the row has no such button. *)
Record buttons : Type := Buttons {
  quarantineBtn : option string;
  restoreBtn : option string
}.

(** A table row [data-threat-id]: its [dataset.status], the badge of its
    fifth cell and the button group of its sixth, when it has them. The
    row of a threat is the first element of the document that carries
    the id of the threat in that attribute. *)
Record row : Type := Row {
  dataset_status : string;
  statusBadge : option badge;
  actionButtons : option buttons
}.

Record bulk_action : Type := BulkAction {
  disabled : bool;
  selection_count : option nat
}.

(** The page: the module variable [selectedThreats] (a Set, listed in
    insertion order) and the parts of the document that the bulk action
    reads or writes, with the log of requests sent, toasts shown and
    console errors (the label, and the message of the error logged with
    it). *)
Record page : Type := Page {
  selectedThreats : list string;
  rows : gmap string row;
  selectAllCheckbox : option bool;
  threat_checkboxes : gmap string bool;
  bulk_actions : list bulk_action;
  loadingOverlay : list string;
  toasts : list (string * string);
  requests : list string;
  console : list (string * string)
}.

Definition set_selected (sel : list string) (p : page) : page :=
  Page sel (rows p) (selectAllCheckbox p) (threat_checkboxes p) (bulk_actions p)
       (loadingOverlay p) (toasts p) (requests p) (console p).

Definition set_rows (r : gmap string row) (p : page) : page :=
  Page (selectedThreats p) r (selectAllCheckbox p) (threat_checkboxes p) (bulk_actions p)
       (loadingOverlay p) (toasts p) (requests p) (console p).

Definition showToast (message type : string) (p : page) : page :=
  Page (selectedThreats p) (rows p) (selectAllCheckbox p) (threat_checkboxes p)
       (bulk_actions p) (loadingOverlay p) (toasts p ++ [(message, type)]) (requests p)
       (console p).

Definition showLoadingState (message : string) (p : page) : page :=
  Page (selectedThreats p) (rows p) (selectAllCheckbox p) (threat_checkboxes p)
       (bulk_actions p) (loadingOverlay p ++ [message]) (toasts p) (requests p) (console p).

(** Removes the first element with id [loadingOverlay], if there is one. *)
Definition hideLoadingState (p : page) : page :=
  Page (selectedThreats p) (rows p) (selectAllCheckbox p) (threat_checkboxes p)
       (bulk_actions p) (tail (loadingOverlay p)) (toasts p) (requests p) (console p).

(** [console.error(label, error)] *)
Definition console_error (label message : string) (p : page) : page :=
  Page (selectedThreats p) (rows p) (selectAllCheckbox p) (threat_checkboxes p)
       (bulk_actions p) (loadingOverlay p) (toasts p) (requests p)
       (console p ++ [(label, message)]).

(** [fetch(url, { method: 'POST', ... })] is logged by its URL. *)
Definition send (url : string) (p : page) : page :=
  Page (selectedThreats p) (rows p) (selectAllCheckbox p) (threat_checkboxes p)
       (bulk_actions p) (loadingOverlay p) (toasts p) (requests p ++ [url]) (console p).

Definition updateBulkActionButtons (p : page) : page :=
  let selectedCount := length (selectedThreats p) in
  let upd (b : bulk_action) :=
    BulkAction (Nat.eqb selectedCount 0) ((λ _, selectedCount) <$> selection_count b) in
  Page (selectedThreats p) (rows p) (selectAllCheckbox p) (threat_checkboxes p)
       (upd <$> bulk_actions p) (loadingOverlay p) (toasts p) (requests p) (console p).

(** The selector [[data-threat-id="<id>"]] is built by pasting the id
    between the quotes. It names the element whose attribute is the id
    when the id can stand there as it is: when it has no double quote, no
    backslash, no line break (line feed, form feed, carriage return) and
    no NUL. These six are ASCII, so it makes no difference here whether
    the characters of an id are read as bytes or as code units. *)
Definition selector_special (a : Ascii.ascii) : bool :=
  existsb (Nat.eqb (Ascii.nat_of_ascii a)) [0; 10; 12; 13; 34; 92]%nat.

Fixpoint plain_id (threatId : string) : bool :=
  match threatId with
  | EmptyString => true
  | String a rest => negb (selector_special a) && plain_id rest
  end.

Section Selector.

(** With any other id the selector is not the one the code means: the
    selector engine may throw a SyntaxError, find nothing, or find the
    row of another threat or an element that is no row.
    [crafted threatId status rows] is what [updateThreatRowStatus] then
    makes of the rows, or the error thrown before anything is written;
    which of them it is, is the browser's business. *)
Variable crafted : string → string → gmap string row → outcome (gmap string row).

Definition updateThreatRowStatus (threatId status : string) (p : page) : outcome page :=
  if plain_id threatId
  then
    match rows p !! threatId with
    | None => Ok p
    | Some r =>
        let quarantined := String.eqb status "quarantined" in
        let new_badge :=
          if quarantined
          then Badge "badge bg-warning"
                     ("<i class=" ++ dq ++ "bi bi-shield" ++ dq ++ "></i> Quarantined")
          else Badge "badge bg-danger"
                     ("<i class=" ++ dq ++ "bi bi-exclamation-triangle" ++ dq ++ "></i> Active") in
        let new_buttons (b : buttons) :=
          if quarantined
          then Buttons ((λ _, "none") <$> quarantineBtn b) ((λ _, "inline-block") <$> restoreBtn b)
          else Buttons ((λ _, "inline-block") <$> quarantineBtn b) ((λ _, "none") <$> restoreBtn b) in
        let r' := Row status ((λ _, new_badge) <$> statusBadge r)
                      (new_buttons <$> actionButtons r) in
        Ok (set_rows (<[threatId := r']> (rows p)) p)
    end
  else
    match crafted threatId status (rows p) with
    | Ok rows' => Ok (set_rows rows' p)
    | Throw message => Throw message
    end.

(** How a request ends: a response (with its [ok] flag), a rejection, or
    never. *)
Inductive fetch_result : Type :=
  | Fulfilled (ok : bool)
  | Rejected (reason : string)
  | Unsettled.

(** An element of the array that [Promise.allSettled] resolves to. *)
Inductive settled : Type :=
  | SFulfilled (ok : bool)
  | SRejected (reason : string).

(** [Promise.allSettled]: resolves once every promise has settled, with
    the outcomes in the order of the promises; [None] when it never does. *)
Fixpoint allSettled (promises : list fetch_result) : option (list settled) :=
  match promises with
  | [] => Some []
  | Unsettled :: _ => None
  | Fulfilled ok :: rest => (λ l, SFulfilled ok :: l) <$> allSettled rest
  | Rejected reason :: rest => (λ l, SRejected reason :: l) <$> allSettled rest
  end.

Definition succeeded (r : settled) : bool :=
  match r with SFulfilled ok => ok | SRejected _ => false end.

Definition url_of (threatId : string) : string := "/quarantine_threat/" ++ threatId.

Definition count (n : nat) : string := pretty (N.of_nat n).

(** The message of the TypeError that writing a property of [null]
    raises (V8's wording). *)
Definition null_checked_message : string :=
  "Cannot set properties of null (setting 'checked')".

(** [bulkQuarantine] up to its [await]: the guard, the confirmation
    dialog ([confirmation] is the user's answer), the overlay and one
    request per selected id. It gives the ids it sent requests for, or
    [None] when it returned before sending any. *)
Definition bulkQuarantine_begin (confirmation : bool) (p : page)
  : page * option (list string) :=
  if Nat.eqb (length (selectedThreats p)) 0
  then (showToast "No threats selected for quarantine." "warning" p, None)
  else if negb confirmation then (p, None)
  else
    let p := showLoadingState
               ("Quarantining " ++ count (length (selectedThreats p)) ++ " threats...") p in
    let ids := selectedThreats p in
    (foldl (λ p threatId, send (url_of threatId) p) p ids, Some ids).

(** How the [forEach] over the results ends: with the two counts, or
    with the error that an update of a row threw, the rows updated before
    staying updated. *)
Inductive tallied : Type :=
  | Counted (successCount failCount : nat) (p : page)
  | Threw (message : string) (p : page).

(** The [forEach] over the results: the row of the id that now sits at
    the position of the result is updated, before the next result is
    looked at. *)
Fixpoint tally (results : list settled) (index : nat) (successCount failCount : nat)
    (p : page) : tallied :=
  match results with
  | [] => Counted successCount failCount p
  | result :: rest =>
      let threatId := default "undefined" (selectedThreats p !! index) in
      if succeeded result
      then
        match updateThreatRowStatus threatId "quarantined" p with
        | Ok p => tally rest (S index) (S successCount) failCount p
        | Throw message => Threw message p
        end
      else tally rest (S index) successCount (S failCount) p
  end.

(** The [catch] of [bulkQuarantine]. *)
Definition bulk_failed (message : string) (p : page) : page :=
  let p := console_error "Bulk quarantine error:" message p in
  showToast ("Bulk quarantine failed: " ++ message) "danger" p.

(** [bulkQuarantine] after its [await], with [catch] and [finally]; [p]
    is the page as it is when the call resumes. *)
Definition bulkQuarantine_resume (results : list settled) (p : page) : page :=
  let p :=
    match tally results 0 0 0 p with
    | Threw message p => bulk_failed message p
    | Counted successCount failCount p =>
        let p := if Nat.ltb 0 successCount
                 then showToast (count successCount ++ " threat(s) quarantined successfully!")
                                "success" p
                 else p in
        let p := if Nat.ltb 0 failCount
                 then showToast (count failCount ++ " threat(s) failed to quarantine.")
                                "warning" p
                 else p in
        let p := set_selected [] p in
        match selectAllCheckbox p with
        | Some _ =>
            let p := Page (selectedThreats p) (rows p) (Some false)
                          ((λ _, false) <$> threat_checkboxes p) (bulk_actions p)
                          (loadingOverlay p) (toasts p) (requests p) (console p) in
            updateBulkActionButtons p
        | None => bulk_failed null_checked_message p
        end
    end in
  hideLoadingState p.

(** The whole call. [server threatId] is how the request for that id
    ends, and [meanwhile] what the handlers that run while the call waits
    for the requests make of the page: the call resumes on the page they
    leave, and reads the selection anew there. [None]: the call never
    gets past its [await]. *)
Definition bulkQuarantine (confirmation : bool) (server : string → fetch_result)
    (meanwhile : page → page) (p : page) : option page :=
  match bulkQuarantine_begin confirmation p with
  | (p, None) => Some p
  | (p, Some ids) =>
      match allSettled (server <$> ids) with
      | Some results => Some (bulkQuarantine_resume results (meanwhile p))
      | None => None
      end
  end.

End Selector.

End Threats.

(** ** Two PATCH /threats/:id calls in flight *)

Module Interleaving.
Import Storage.

(** The handler is an async function with one [await]: the call of
    [updateThreatDetection], whose body has no [await] of its own and so
    runs in one piece; the handler resumes later to send the response. *)
Inductive task : Type :=
  | Called (param : option Z) (req_body : obj)
  | Awaiting (result : outcome obj)
  | Responded (r : response).

Definition advance (t : task) (m : MemStorage) : task * MemStorage :=
  match t with
  | Called param req_body =>
      match updateThreatDetection (parsed param) req_body m with
      | Ok (threat, m') => (Awaiting (Ok threat), m')
      | Throw msg => (Awaiting (Throw msg), m)
      end
  | Awaiting (Ok threat) => (Responded (Response 200 (BObj threat)), m)
  | Awaiting (Throw _) => (Responded (Response 404 (BError "Threat not found")), m)
  | Responded r => (Responded r, m)
  end.

Record config : Type := Config { first : task; second : task; store : MemStorage }.

(** The event loop picks which of the two calls goes on. *)
Definition pick_step (c : config) (pick_first : bool) : config :=
  if pick_first
  then let '(t, m) := advance (first c) (store c) in Config t (second c) m
  else let '(t, m) := advance (second c) (store c) in Config (first c) t m.

Definition schedule (picks : list bool) (c : config) : config := foldl pick_step c picks.

Definition picks_of (b : bool) (picks : list bool) : nat :=
  length (List.filter (Bool.eqb b) picks).

End Interleaving.

(** ** Vocabulary of the properties *)

(** What a successful signup or login sends back: the stored user with
    its [password] property removed. *)
Definition sends_without_password (r : response) (stored : obj) : Prop :=
  json r = BUser (delete "password" stored).

(** The patch with which a client of the router quarantines a threat:
    the record has no state but the flag [isQuarantined]. *)
Definition quarantine_patch : obj := {["isQuarantined" := VBool true]}.

(** The threat as quarantined, and the store that holds it at [i]. *)
Definition quarantined (old : obj) : obj := <["isQuarantined" := VBool true]> old.

Definition with_quarantined (m : Storage.MemStorage) (i : nat) (old : obj)
  : Storage.MemStorage :=
  Storage.Mem (Storage.users m) (<[i := quarantined old]> (Storage.threatDetections m))
              (Storage.mlModels m) (Storage.fileAnalyses m) (Storage.nextId m).

(** A call keeps ids when the data it spreads into a record has no [id]
    property of its own. *)
Definition keeps_ids (o : Storage.op) : Prop :=
  match Storage.spread_data o with
  | Some d => d !! "id" = None
  | None => True
  end.



(** A record that no signal has reached yet. *)
Definition untouched (a : obj) : Prop :=
  field a "status" = VStr "ANALYZING" ∧ field a "result" = VNull
  ∧ a !! "error" = None ∧ a !! "completedAt" = None.

(** What holds of every analysis record of index.js at all times. *)
Definition coherent (a : obj) : Prop :=
  untouched a
  ∨ (field a "status" = VStr "COMPLETED" ∧ is_Some (a !! "completedAt"))
  ∨ (field a "status" = VStr "FAILED" ∧ is_Some (a !! "error")).

(** The event is a signal of the process spawned for the record at
    [ref]. *)
Definition signal_for (ref : nat) (e : Index.event) : Prop :=
  match e with
  | Index.StdoutData r _ _ | Index.StderrData r _ => r = ref
  | _ => False
  end.

(** The record at position [ref]. *)
Definition record_at (ref : nat) (s : Index.state) : option obj :=
  Index.fileAnalyses s !! ref.




(** Two quarantine calls for the threat [n], both just received. *)
Definition two_quarantines (n : Z) (m : Storage.MemStorage) : Interleaving.config :=
  Interleaving.Config (Interleaving.Called (Some n) quarantine_patch)
                      (Interleaving.Called (Some n) quarantine_patch) m.

(** Where a quarantine call stands after [k] of its steps, [q] being the
    threat as quarantined. *)
Definition quarantine_after (n : Z) (q : obj) (k : nat) : Interleaving.task :=
  match k with
  | O => Interleaving.Called (Some n) quarantine_patch
  | S O => Interleaving.Awaiting (Ok q)
  | _ => Interleaving.Responded (Response 200 (BObj q))
  end.

(** The store once the two calls took [k] steps in all. *)
Definition store_after (m : Storage.MemStorage) (i : nat) (old : obj) (k : nat)
  : Storage.MemStorage :=
  match k with O => m | _ => with_quarantined m i old end.

(** The request for an id ended with a response whose [ok] is true. *)
Definition accepted (r : Threats.fetch_result) : bool :=
  match r with Threats.Fulfilled ok => ok | _ => false end.

(** A row as [updateThreatRowStatus] leaves it for the status
    'quarantined'. *)
Definition quarantined_row (r : Threats.row) : Threats.row :=
  Threats.Row "quarantined"
    ((λ _, Threats.Badge "badge bg-warning"
             ("<i class=" ++ Threats.dq ++ "bi bi-shield" ++ Threats.dq
              ++ "></i> Quarantined")%string)
       <$> Threats.statusBadge r)
    ((λ b, Threats.Buttons ((λ _, "none") <$> Threats.quarantineBtn b)
                           ((λ _, "inline-block") <$> Threats.restoreBtn b))
       <$> Threats.actionButtons r).

(** The ids whose result, at the same position, is a success. *)
Fixpoint winners (ids : list string) (results : list Threats.settled) : list string :=
  match ids, results with
  | id :: ids', r :: results' =>
      if Threats.succeeded r then id :: winners ids' results' else winners ids' results'
  | _, _ => []
  end.

(** The ids that sit in the selection [sel] at the positions of the
    results that are successes, from position [index] on: the ids whose
    rows the loop over the results updates. A position past the end of
    the selection reads as 'undefined'. *)
Fixpoint marked (sel : list string) (index : nat) (results : list Threats.settled)
    : list string :=
  match results with
  | [] => []
  | r :: rest =>
      if Threats.succeeded r
      then default "undefined" (sel !! index) :: marked sel (S index) rest
      else marked sel (S index) rest
  end.

(** The number of results that are successes. *)
Definition successes (results : list Threats.settled) : nat :=
  length (List.filter Threats.succeeded results).

(** The toasts that report the two counts. *)
Definition report (successCount failCount : nat) : list (string * string) :=
  ((if Nat.ltb 0 successCount
    then [((Threats.count successCount ++ " threat(s) quarantined successfully!")%string,
           "success")]
    else [])
   ++ (if Nat.ltb 0 failCount
       then [((Threats.count failCount ++ " threat(s) failed to quarantine.")%string,
              "warning")]
       else []))%list.

(** The toast of the [catch], shown when the page has no select-all box. *)
Definition closing (p : Threats.page) : list (string * string) :=
  match Threats.selectAllCheckbox p with
  | Some _ => []
  | None => [(("Bulk quarantine failed: " ++ Threats.null_checked_message)%string, "danger")]
  end.

(** ** Sample data *)

(** [JSON.parse] on the two texts the examples below feed it: the empty
    object, and a text that is not JSON. *)
Definition sample_parse (data : string) : option val :=
  if String.eqb data "{}" then Some (VObj ∅) else None.

(** A name for the models of the examples. *)
Definition sample_name (algorithm : val) (now : Z) : string := "ensemble_large_dataset_0".

(** The signup data of the examples. *)
Definition ada : obj :=
  list_to_map [("email", VStr "ada@example.org"); ("password", VStr "s3cret");
               ("name", VStr "Ada")].

(** The request of the examples. *)
Definition invoice : obj := {["fileName" := VStr "invoice.exe"]}.

(** One job of index.js: the request, then output that parses. *)
Definition one_job : list Index.event :=
  [Index.Analyze 5 invoice; Index.StdoutData 0 9 "{}"].

(** Error output that arrives after the job was completed, and output
    that arrives after an error. *)
Definition late_error : list Index.event := one_job ++ [Index.StderrData 0 "Traceback"].

Definition late_output : list Index.event :=
  [Index.Analyze 5 invoice; Index.StderrData 0 "DeprecationWarning";
   Index.StdoutData 0 9 "{}"].

(** A store whose only threat, of id 1, is quarantined already. *)
Definition quarantined_already : Router.state :=
  Router.State
    (Storage.createThreatDetection 3
       (list_to_map [("fileName", VStr "invoice.exe"); ("isQuarantined", VBool true)])
       Storage.empty).2
    [].

(** A store whose only threat, of id 1, is active. *)
Definition one_active_threat : Storage.MemStorage :=
  (Storage.createThreatDetection 3 {["fileName" := VStr "invoice.exe"]} Storage.empty).2.

(** Two threats, then a patch of the first that carries an id. *)
Definition renumbering : list Storage.op :=
  [Storage.CreateThreatDetection 1 ∅;
   Storage.CreateThreatDetection 2 ∅;
   Storage.UpdateThreatDetection (VNum 1) {["id" := VNum 2]}].

(** A user, a threat and an analysis, with a threat quarantined in
    between. *)
Definition busy_day : list Storage.op :=
  [Storage.CreateUser 1 ada;
   Storage.CreateThreatDetection 2 {["fileName" := VStr "invoice.exe"]};
   Storage.UpdateThreatDetection (VNum 2) {["isQuarantined" := VBool true]};
   Storage.CreateFileAnalysis 3 {["status" := VStr "PENDING"]}].

(** A row of an active threat, and a page that lists three of them with
    the given selection. *)
Definition plain_row : Threats.row :=
  Threats.Row "active" (Some (Threats.Badge "badge bg-danger" "Active"))
              (Some (Threats.Buttons (Some "inline-block") (Some "none"))).

Definition threats_page (selected : list string) : Threats.page :=
  Threats.Page selected
    (list_to_map [("11", plain_row); ("12", plain_row); ("13", plain_row)])
    (Some true)
    (list_to_map [("11", true); ("12", true); ("13", false)])
    [Threats.BulkAction false (Some 2%nat)]
    [] [] [] [].

(** A selector engine that throws on every selector it is asked about,
    and handlers that leave the page alone while a call waits. *)
Definition rejects_selector (threatId status : string) (rows : gmap string Threats.row)
    : outcome (gmap string Threats.row) :=
  Throw "Failed to execute 'querySelector' on 'Document'".

Definition nothing_meanwhile (p : Threats.page) : Threats.page := p.



(** A server that refuses the threat 12 and accepts the others. *)
Definition refuses_12 (threatId : string) : Threats.fetch_result :=
  Threats.Fulfilled (negb (String.eqb threatId "12")).

(** ** The router, request after request *)

Module RouterRun.
Import Storage Router.

Section Schemas.

Variable insertUserSchema : obj → option obj.
Variable insertThreatDetectionSchema : obj → option obj.
Variable insertFileAnalysisSchema : obj → option obj.

(** What the router reacts to: its requests, and the timer of the
    analyze route going off. [Signup] is a signup served whole;
    [SignupCreate] is the second part of a signup whose check was made
    earlier, other requests having been served since. *)
Inductive event : Type :=
  | Signup (now : Z) (req_body : obj)
  | SignupCreate (now : Z) (userData : obj)
  | Login (req_body : obj)
  | GetThreats
  | PostThreat (now : Z) (req_body : obj)
  | PatchThreat (param : option Z) (req_body : obj)
  | Analyze (now : Z) (req_body : obj)
  | AnalyzeTimeout (now : Z) (mockResult : val)
  | GetAnalysis (param : option Z).

Definition step (e : event) (s : Router.state) : option response * Router.state :=
  match e with
  | Signup now b => let '(r, s') := signup insertUserSchema now b s in (Some r, s')
  | SignupCreate now userData => let '(r, s') := signup_create now userData s in (Some r, s')
  | Login b => let '(r, s') := login b s in (Some r, s')
  | GetThreats => let '(r, s') := get_threats s in (Some r, s')
  | PostThreat now b =>
      let '(r, s') := post_threat insertThreatDetectionSchema now b s in (Some r, s')
  | PatchThreat p b => let '(r, s') := patch_threat p b s in (Some r, s')
  | Analyze now b => let '(r, s') := analyze insertFileAnalysisSchema now b s in (Some r, s')
  | AnalyzeTimeout now mock => (None, analyze_timeout now mock s)
  | GetAnalysis p => let '(r, s') := get_analysis p s in (Some r, s')
  end.

Definition run (es : list event) (s : Router.state) : Router.state :=
  foldl (λ s e, (step e s).2) s es.

End Schemas.
End RouterRun.

(** ** The threats page: selecting, and quarantining one threat *)

Module ThreatActions.
Import Threats.

(** [selectedThreats.add] and [selectedThreats.delete]: a Set keeps the
    order of insertion and holds a value once. *)
Definition set_add (x : string) (l : list string) : list string :=
  if bool_decide (x ∈ l) then l else (l ++ [x])%list.

Definition set_delete (x : string) (l : list string) : list string :=
  List.filter (λ y, negb (String.eqb y x)) l.

Definition set_checkbox (threatId : string) (checked : bool) (p : page) : page :=
  Page (selectedThreats p) (rows p) (selectAllCheckbox p)
       (<[threatId := checked]> (threat_checkboxes p)) (bulk_actions p)
       (loadingOverlay p) (toasts p) (requests p) (console p).

Definition set_select_all (checked : bool) (p : page) : page :=
  Page (selectedThreats p) (rows p) (Some checked) (threat_checkboxes p) (bulk_actions p)
       (loadingOverlay p) (toasts p) (requests p) (console p).

(** The change handler of the checkbox of a threat, after the browser
    has set the box to [checked]. Unchecking also unchecks the select-all
    box; on a page without that box the handler stops there, on a
    TypeError, before the bulk buttons are brought up to date. *)
Definition checkbox_changed (threatId : string) (checked : bool) (p : page) : page :=
  let p := set_checkbox threatId checked p in
  if checked
  then updateBulkActionButtons (set_selected (set_add threatId (selectedThreats p)) p)
  else
    let p := set_selected (set_delete threatId (selectedThreats p)) p in
    match selectAllCheckbox p with
    | Some _ => updateBulkActionButtons (set_select_all false p)
    | None => p
    end.

(** The change handler of the select-all box, after the browser has set
    it to [isChecked]; [visible] lists the values of the threat
    checkboxes that the selector matches, in document order. A page
    without the box has no such handler. *)
Definition select_all_changed (isChecked : bool) (visible : list string) (p : page)
  : page :=
  match selectAllCheckbox p with
  | None => p
  | Some _ =>
      let each (p : page) (threatId : string) : page :=
        let p := set_checkbox threatId isChecked p in
        if isChecked
        then set_selected (set_add threatId (selectedThreats p)) p
        else set_selected (set_delete threatId (selectedThreats p)) p in
      updateBulkActionButtons (foldl each (set_select_all isChecked p) visible)
  end.

Section Selector.

Variable crafted : string → string → gmap string row → outcome (gmap string row).

(** The [catch] of [handleQuarantineAction]. *)
Definition quarantine_failed (message : string) (p : page) : page :=
  let p := console_error "Quarantine error:" message p in
  showToast ("Quarantine failed: " ++ message) "danger" p.

(** [handleQuarantineAction]: [confirmation] is the answer to the
    dialog, [answer] how the request ends, [modal] whether the details
    modal has an instance and whether it is shown, and [meanwhile] what
    the handlers that run while the call waits make of the page and the
    modal. [None]: the call never gets past its [await]. *)
Definition handleQuarantineAction (confirmation : bool) (answer : fetch_result)
    (meanwhile : page * option bool → page * option bool)
    (threatId : string) (st : page * option bool) : option (page * option bool) :=
  let '(p, modal) := st in
  if negb confirmation then Some (p, modal)
  else
    let p := showLoadingState "Quarantining threat..." p in
    let p := send (url_of threatId) p in
    match answer with
    | Unsettled => None
    | Fulfilled true =>
        let '(p, modal) := meanwhile (p, modal) in
        let p := showToast "Threat quarantined successfully!" "success" p in
        match updateThreatRowStatus crafted threatId "quarantined" p with
        | Ok p => Some (hideLoadingState p, (λ _, false) <$> modal)
        | Throw message => Some (hideLoadingState (quarantine_failed message p), modal)
        end
    | Fulfilled false =>
        let '(p, modal) := meanwhile (p, modal) in
        Some (hideLoadingState (quarantine_failed "Quarantine request failed" p), modal)
    | Rejected reason =>
        let '(p, modal) := meanwhile (p, modal) in
        Some (hideLoadingState (quarantine_failed reason p), modal)
    end.

End Selector.

End ThreatActions.

(** ** Escaping text for HTML *)

Module Html.

(** [s.replace(/c/g, by)]: every occurrence of the character, left to
    right. *)
Fixpoint replace_all (c : Ascii.ascii) (by_ : string) (s : string) : string :=
  match s with
  | EmptyString => EmptyString
  | String a s' =>
      if Ascii.eqb a c then by_ ++ replace_all c by_ s'
      else String a (replace_all c by_ s')
  end.

Definition amp : Ascii.ascii := Ascii.ascii_of_nat 38.
Definition lt : Ascii.ascii := Ascii.ascii_of_nat 60.
Definition gt : Ascii.ascii := Ascii.ascii_of_nat 62.
Definition quot : Ascii.ascii := Ascii.ascii_of_nat 34.
Definition apos : Ascii.ascii := Ascii.ascii_of_nat 39.

Definition escapeHtml (unsafe : string) : string :=
  replace_all apos "&#039;"
    (replace_all quot "&quot;"
       (replace_all gt "&gt;"
          (replace_all lt "&lt;"
             (replace_all amp "&amp;" unsafe)))).

End Html.

(** ** The client of index.js: polling, and the scan buttons *)

Module Client.

(** What a request for the analysis comes to: the JSON body of the
    response, a rejection ([fetch] failed or the body is not JSON), or
    nothing ever. The status code is not looked at. *)
Inductive fetched : Type :=
  | Json (analysis : val)
  | NoJson
  | NoAnswer.

(** What [displayAnalysisResult] leaves on the page when it returns:
    the text 'No analysis result available', or the rendered result with
    one notification (its message and type) and, for a HIGH or CRITICAL
    threat, a reload of the dashboard. The markup it renders is not part
    of this model. *)
Inductive shown : Type :=
  | NoResultAvailable
  | ResultShown (message type : string) (reloads_dashboard : bool).

Definition is_string (v : val) : bool :=
  match v with VStr _ => true | _ => false end.

Definition is_number (v : val) : bool :=
  match v with VNum _ | VNaN => true | _ => false end.

(** [displayAnalysisResult(analysis)]; [resultsDiv] tells whether the
    page has the element 'analysis-results'. [None]: it throws a
    TypeError, for a threat level that is no string ([toLowerCase]), an
    entropy that is no number ([toFixed]) or a missing element. *)
Definition displayAnalysisResult (resultsDiv : bool) (analysis : val) : option shown :=
  match Index.property analysis "result", Index.property analysis "analysisResult" with
  | Some first, Some second =>
      let result := or_else first second in
      if negb (truthy result)
      then if resultsDiv then Some NoResultAvailable else None
      else
        match Index.property result "threatLevel", Index.property result "entropy" with
        | Some threatLevel, Some entropy =>
            if truthy threatLevel && negb (is_string threatLevel) then None
            else if truthy entropy && negb (is_number entropy) then None
            else if negb resultsDiv then None
            else
              match threatLevel with
              | VStr level =>
                  if String.eqb level "HIGH" || String.eqb level "CRITICAL"
                  then Some (ResultShown (level ++ " threat detected!") "warning" true)
                  else Some (ResultShown "File analysis complete" "success" false)
              | _ => Some (ResultShown "File analysis complete" "success" false)
              end
        | _, _ => None
        end
  | _, _ => None
  end.

(** How [pollAnalysisResult] ends: with what [displayAnalysisResult]
    shows, with a notification, or waiting for an answer that never
    comes. [OutOfFuel] is the model running out of steps. *)
Inductive poll_end : Type :=
  | Displays (result : shown)
  | Notifies (message type : string)
  | Waits
  | OutOfFuel.

Definition maxAttempts : nat := 30.

(** The closure [poll]: [attempts] is its counter, [server k] what the
    request number [k] comes to. It gives how the polling ends and the
    number of requests made. An error thrown by [displayAnalysisResult]
    is caught with the others. *)
Fixpoint poll (resultsDiv : bool) (server : nat → fetched) (attempts fuel : nat)
    : poll_end * nat :=
  match fuel with
  | O => (OutOfFuel, attempts)
  | S fuel' =>
      match server attempts with
      | NoAnswer => (Waits, S attempts)
      | NoJson => (Notifies "Failed to get analysis result" "error", S attempts)
      | Json analysis =>
          match Index.property analysis "status" with
          | None => (Notifies "Failed to get analysis result" "error", S attempts)
          | Some status =>
              if strict_eq status (VStr "COMPLETED")
              then
                match displayAnalysisResult resultsDiv analysis with
                | Some result => (Displays result, S attempts)
                | None => (Notifies "Failed to get analysis result" "error", S attempts)
                end
              else if strict_eq status (VStr "FAILED")
              then (Notifies "Analysis failed" "error", S attempts)
              else
                let attempts := S attempts in
                if Nat.ltb attempts maxAttempts then poll resultsDiv server attempts fuel'
                else (Notifies "Analysis timed out" "error", attempts)
          end
      end
  end.

Definition pollAnalysisResult (resultsDiv : bool) (server : nat → fetched)
    : poll_end * nat :=
  poll resultsDiv server 0 maxAttempts.

(** The flag [scanInProgress], the timers of the scans under way, the
    notifications shown and the number of times the dashboard was
    reloaded. *)
Inductive scan : Type := Quick | Full.

Record scans : Type := Scans {
  scanInProgress : bool;
  scan_timers : list scan;
  notifications : list (string * string);
  dashboard_loads : nat
}.

Definition no_scan : scans := Scans false [] [] 0.

Definition showNotification (message type : string) (s : scans) : scans :=
  Scans (scanInProgress s) (scan_timers s) (notifications s ++ [(message, type)])
        (dashboard_loads s).

Definition startQuickScan (s : scans) : scans :=
  if scanInProgress s then showNotification "Scan already in progress" "warning" s
  else
    let s := Scans true (scan_timers s) (notifications s) (dashboard_loads s) in
    let s := showNotification "Starting quick system scan..." "info" s in
    Scans (scanInProgress s) (scan_timers s ++ [Quick]) (notifications s) (dashboard_loads s).

(** [confirmation] is the answer to the dialog, asked only when no scan
    is under way. *)
Definition startFullScan (confirmation : bool) (s : scans) : scans :=
  if scanInProgress s then showNotification "Scan already in progress" "warning" s
  else if negb confirmation then s
  else
    let s := Scans true (scan_timers s) (notifications s) (dashboard_loads s) in
    let s := showNotification "Starting comprehensive system scan..." "info" s in
    Scans (scanInProgress s) (scan_timers s ++ [Full]) (notifications s) (dashboard_loads s).

(** The timer at position [i] goes off. *)
Definition scan_timer_fires (i : nat) (s : scans) : scans :=
  match scan_timers s !! i with
  | None => s
  | Some kind =>
      let s := Scans false (delete i (scan_timers s)) (notifications s) (dashboard_loads s) in
      let s :=
        match kind with
        | Quick => showNotification "Quick scan completed - No threats found" "success" s
        | Full => showNotification "Full system scan completed" "success" s
        end in
      Scans (scanInProgress s) (scan_timers s) (notifications s) (S (dashboard_loads s))
  end.

Inductive scan_event : Type :=
  | ClickQuick
  | ClickFull (confirmation : bool)
  | TimerFires (i : nat).

Definition scan_step (s : scans) (e : scan_event) : scans :=
  match e with
  | ClickQuick => startQuickScan s
  | ClickFull c => startFullScan c s
  | TimerFires i => scan_timer_fires i s
  end.

Definition scan_run (es : list scan_event) (s : scans) : scans := foldl scan_step s es.

End Client.

(** ** The scan form of the scanner page *)

Module Scanner.

(** A string of the form is the list of its UTF-16 code units, which is
    what [length], [trim] and [includes] work on. *)
Definition jsstring : Type := list N.

(** The code units of a text of the program, all of them ASCII. *)
Fixpoint units (s : string) : jsstring :=
  match s with
  | EmptyString => []
  | String a rest => (Ascii.N_of_ascii a :: units rest)%list
  end.

(** The white space and the line terminators that [trim] removes: tab,
    line feed, vertical tab, form feed, carriage return, space, no-break
    space, U+1680, U+2000 to U+200A, U+2028, U+2029, U+202F, U+205F,
    U+3000 and U+FEFF. *)
Definition whitespace (c : N) : bool :=
  existsb (N.eqb c)
          [9; 10; 11; 12; 13; 32; 160; 5760; 8232; 8233; 8239; 8287; 12288; 65279]%N
  || (N.leb 8192 c && N.leb c 8202).

Fixpoint trimStart (s : jsstring) : jsstring :=
  match s with
  | [] => []
  | (c :: rest)%list => if whitespace c then trimStart rest else s
  end.

Fixpoint trimEnd (s : jsstring) : jsstring :=
  match s with
  | [] => []
  | (c :: rest)%list =>
      match trimEnd rest with
      | [] => if whitespace c then [] else [c]
      | kept => (c :: kept)%list
      end
  end.

Definition trim (s : jsstring) : jsstring := trimEnd (trimStart s).

(** [path.includes(char)] for a string [char] of one code unit. *)
Definition includes (path : jsstring) (char : N) : bool := existsb (N.eqb char) path.

(** The characters less-than, greater-than, bar, star, question mark
    and double quote. *)
Definition dangerousChars : list N := [60; 62; 124; 42; 63; 34]%N.

Definition isValidPath (path : jsstring) : bool :=
  if Nat.ltb (length path) 1 || Nat.ltb 500 (length path) then false
  else if existsb (includes path) dangerousChars then false
  else true.

(** The two fields are text fields: [formData.get] gives a string, or
    null ([None]) for a field the form does not have. The result comes
    with the toasts shown, message and type. *)
Definition validateScanForm (scan_type target_path : option jsstring)
    : bool * list (string * string) :=
  match scan_type with
  | None | Some [] => (false, [("Please select a scan type.", "warning")])
  | Some scanType =>
      match target_path with
      | None | Some [] => (false, [("Please specify a target path.", "warning")])
      | Some targetPath =>
          if bool_decide (trim targetPath = [])
          then (false, [("Please specify a target path.", "warning")])
          else if bool_decide (scanType = units "custom") && negb (isValidPath targetPath)
          then (false, [("Please enter a valid file path.", "warning")])
          else (true, [])
      end
  end.

End Scanner.

(** ** Vocabulary of the further properties *)

(** A value that [===] finds equal to itself: undefined, null, a
    boolean, a number or a string, as opposed to NaN and to objects of
    different requests. *)
Definition self_equal (v : val) : Prop := strict_eq v v = true.

(** No two users of the list have emails that [===] finds equal. *)
Definition distinct_emails (us : list obj) : Prop :=
  ∀ i j u v, (i < j)%nat → us !! i = Some u → us !! j = Some v →
             strict_eq (field u "email") (field v "email") = false.


(** The records carry numeric ids that grow along the list and stay
    below [bound]. *)
Definition ids_grow_below (bound : Z) (l : list obj) : Prop :=
  ∀ j o, (id_of <$> l) !! j = Some o →
    ∃ m, o = Some m ∧ m < bound
         ∧ ∀ i n, (i < j)%nat → (id_of <$> l) !! i = Some (Some n) → n < m.

(** Every model but the last is inactive, and the last is active. *)
Definition last_is_active (models : list obj) : Prop :=
  models = []
  ∨ ∃ l m, models = (l ++ [m])%list
           ∧ Forall (λ x : obj, field x "isActive" = VBool false) l
           ∧ field m "isActive" = VBool true.


(** A row as [updateThreatRowStatus] leaves it for a status: only
    'quarantined' shows as quarantined, every other status as active. *)
Definition row_with_status (status : string) (r : Threats.row) : Threats.row :=
  if String.eqb status "quarantined" then quarantined_row r
  else
    Threats.Row status
      ((λ _, Threats.Badge "badge bg-danger"
               ("<i class=" ++ Threats.dq ++ "bi bi-exclamation-triangle" ++ Threats.dq
                ++ "></i> Active")%string)
         <$> Threats.statusBadge r)
      ((λ b, Threats.Buttons ((λ _, "inline-block") <$> Threats.quarantineBtn b)
                             ((λ _, "none") <$> Threats.restoreBtn b))
         <$> Threats.actionButtons r).

(** The bulk buttons show the selection: disabled exactly when it is
    empty, and counting its size where they have a counter. *)
Definition buttons_show (selected : nat) (bs : list Threats.bulk_action) : Prop :=
  Forall (λ b, Threats.disabled b = Nat.eqb selected 0
               ∧ ∀ n, Threats.selection_count b = Some n → n = selected) bs.

(** What [escapeHtml] makes of one character. *)
Definition entity (a : Ascii.ascii) : string :=
  if Ascii.eqb a Html.amp then "&amp;"
  else if Ascii.eqb a Html.lt then "&lt;"
  else if Ascii.eqb a Html.gt then "&gt;"
  else if Ascii.eqb a Html.quot then "&quot;"
  else if Ascii.eqb a Html.apos then "&#039;"
  else String a EmptyString.

(** The characters that open or close markup and attribute values. *)
Definition markup (a : Ascii.ascii) : bool :=
  Ascii.eqb a Html.lt || Ascii.eqb a Html.gt || Ascii.eqb a Html.quot
  || Ascii.eqb a Html.apos.

(** The character occurs in the string. *)
Fixpoint occurs (a : Ascii.ascii) (s : string) : bool :=
  match s with
  | EmptyString => false
  | String b s' => Ascii.eqb a b || occurs a s'
  end.

(** The answer keeps the polling going: a body that has a status
    property, or none, other than COMPLETED and FAILED. *)
Definition keeps_polling (f : Client.fetched) : bool :=
  match f with
  | Client.Json analysis =>
      match Index.property analysis "status" with
      | Some status =>
          negb (strict_eq status (VStr "COMPLETED"))
          && negb (strict_eq status (VStr "FAILED"))
      | None => false
      end
  | _ => false
  end.


(** The flag is up exactly when one timer is pending, and never more
    than one is. *)
Definition one_scan_at_most (s : Client.scans) : Prop :=
  (Client.scanInProgress s = true ∧ length (Client.scan_timers s) = 1%nat)
  ∨ (Client.scanInProgress s = false ∧ Client.scan_timers s = []).

(** The string has nothing but white space. *)
Definition blank (s : Scanner.jsstring) : bool := forallb Scanner.whitespace s.

(** * Properties *)

Local Open Scope list_scope.

(** ** Objects and arrays *)

Lemma spread_lookup (base over : obj) (k : string) :
  spread base over !! k = match over !! k with Some v => Some v | None => base !! k end.
Proof.
  unfold spread. rewrite lookup_union. destruct (over !! k), (base !! k); done.
Qed.

Lemma spread_keeps (base over : obj) (k : string) :
  over !! k = None → spread base over !! k = base !! k.
Proof. intros H. by rewrite spread_lookup, H. Qed.

Lemma field_insert_eq (o : obj) (k : string) (v : val) : field (<[k := v]> o) k = v.
Proof. unfold field. by rewrite lookup_insert_eq. Qed.

Lemma field_insert_ne (o : obj) (k k' : string) (v : val) :
  k ≠ k' → field (<[k := v]> o) k' = field o k'.
Proof. intros H. unfold field. by rewrite lookup_insert_ne. Qed.

Lemma find_elem {A} (p : A → bool) (l : list A) (x : A) :
  find p l = Some x → x ∈ l ∧ p x = true.
Proof.
  intros H. apply find_some in H as [H1 H2]. split; [by apply list_elem_of_In | done].
Qed.

Lemma last_snoc_eq {A} (l : list A) (x : A) : last (l ++ [x]) = Some x.
Proof. apply last_snoc. Qed.

(** ** Passwords stay in the store *)

Lemma without_password_hidden (r : response) (stored : obj) :
  sends_without_password r stored →
  ∃ u, json r = BUser u ∧ u !! "password" = None.
Proof. intros H. exists (delete "password" stored). split; [done | apply lookup_delete_eq]. Qed.

Lemma index_signup_password (now : Z) (b : obj) (s s' : Index.state) (r : response) :
  Index.signup now b s = (r, s') → code r = 201 →
  ∃ stored, last (Index.users s') = Some stored
            ∧ stored !! "password" = Some (field b "password")
            ∧ sends_without_password r stored.
Proof.
  unfold Index.signup. intros H Hc.
  destruct (find _ (Index.users s)); simplify_eq/=.
  eexists. split; [apply last_snoc_eq |]. split; [| done].
  by simplify_map_eq.
Qed.

Lemma index_login_password (b : obj) (s s' : Index.state) (r : response) :
  Index.login b s = (r, s') → code r = 200 →
  ∃ stored, stored ∈ Index.users s
            ∧ strict_eq (field stored "password") (field b "password") = true
            ∧ sends_without_password r stored ∧ s' = s.
Proof.
  unfold Index.login. intros H Hc.
  destruct (find _ (Index.users s)) as [user|] eqn:Hf; simplify_eq/=.
  apply find_elem in Hf as [Hin Hp]. apply andb_true_iff in Hp as [_ Hp].
  exists user. done.
Qed.

Lemma router_signup_password (schema : obj → option obj) (now : Z) (b : obj)
    (s s' : Router.state) (r : response) :
  Router.signup schema now b s = (r, s') → code r = 201 →
  ∃ userData stored, schema b = Some userData
            ∧ last (Storage.users (Router.storage s')) = Some stored
            ∧ stored !! "password" = userData !! "password"
            ∧ sends_without_password r stored.
Proof.
  unfold Router.signup. intros H Hc.
  destruct (schema b) as [userData|]; simplify_eq/=.
  destruct (Storage.getUserByEmail _ _); simplify_eq/=.
  eexists _, _. split; [done |]. split; [apply last_snoc_eq |]. split; [| done].
  rewrite lookup_insert_ne by done. rewrite spread_lookup.
  destruct (userData !! "password"); [done |]. by rewrite lookup_singleton_ne.
Qed.

Lemma router_login_password (b : obj) (s s' : Router.state) (r : response) :
  Router.login b s = (r, s') → code r = 200 →
  ∃ stored, stored ∈ Storage.users (Router.storage s)
            ∧ strict_eq (field stored "password") (field b "password") = true
            ∧ sends_without_password r stored ∧ s' = s.
Proof.
  unfold Router.login, Storage.getUserByEmail. intros H Hc.
  destruct (find _ _) as [user|] eqn:Hf; simplify_eq/=.
  destruct (strict_eq (field user "password") (field b "password")) eqn:Hp; simplify_eq/=.
  apply find_elem in Hf as [Hin _]. exists user. done.
Qed.

(** C10. On both servers, a successful signup (201) and a successful
    login (200) answer with a user object that has no [password]
    property; it is the stored user record minus that property, and the
    stored record keeps the password: the one the signup data carried,
    the one the login was checked against. *)
Theorem password_not_in_response :
  (∀ now b s r s',
     Index.signup now b s = (r, s') → code r = 201 →
     ∃ u stored, json r = BUser u ∧ u !! "password" = None
       ∧ last (Index.users s') = Some stored
       ∧ stored !! "password" = Some (field b "password")
       ∧ u = delete "password" stored)
  ∧ (∀ b s r s',
     Index.login b s = (r, s') → code r = 200 →
     ∃ u stored, json r = BUser u ∧ u !! "password" = None
       ∧ stored ∈ Index.users s' ∧ s' = s
       ∧ strict_eq (field stored "password") (field b "password") = true
       ∧ u = delete "password" stored)
  ∧ (∀ schema now b s r s',
     Router.signup schema now b s = (r, s') → code r = 201 →
     ∃ userData u stored, schema b = Some userData
       ∧ json r = BUser u ∧ u !! "password" = None
       ∧ last (Storage.users (Router.storage s')) = Some stored
       ∧ stored !! "password" = userData !! "password"
       ∧ u = delete "password" stored)
  ∧ (∀ b s r s',
     Router.login b s = (r, s') → code r = 200 →
     ∃ u stored, json r = BUser u ∧ u !! "password" = None
       ∧ stored ∈ Storage.users (Router.storage s') ∧ s' = s
       ∧ strict_eq (field stored "password") (field b "password") = true
       ∧ u = delete "password" stored).
Proof.
  repeat split.
  - intros now b s r s' H Hc.
    destruct (index_signup_password _ _ _ _ _ H Hc) as (stored & Hl & Hp & Hr).
    exists (delete "password" stored), stored.
    repeat split; try done. apply lookup_delete_eq.
  - intros b s r s' H Hc.
    destruct (index_login_password _ _ _ _ H Hc) as (stored & Hin & Hp & Hr & ->).
    exists (delete "password" stored), stored.
    repeat split; try done. apply lookup_delete_eq.
  - intros schema now b s r s' H Hc.
    destruct (router_signup_password _ _ _ _ _ _ H Hc) as (ud & stored & Hs & Hl & Hp & Hr).
    exists ud, (delete "password" stored), stored.
    repeat split; try done. apply lookup_delete_eq.
  - intros b s r s' H Hc.
    destruct (router_login_password _ _ _ _ H Hc) as (stored & Hin & Hp & Hr & ->).
    exists (delete "password" stored), stored.
    repeat split; try done. apply lookup_delete_eq.
Qed.

Lemma password_not_in_response_witness :
  (∃ u, json (Index.signup 7 ada Index.init).1 = BUser u ∧ u !! "password" = None)
  ∧ (∃ u, json (Index.login ada (Index.signup 7 ada Index.init).2).1 = BUser u
          ∧ u !! "password" = None)
  ∧ (∃ u, json (Router.signup Some 7 ada Router.init).1 = BUser u
          ∧ u !! "password" = None)
  ∧ (∃ u, json (Router.login ada (Router.signup Some 7 ada Router.init).2).1 = BUser u
          ∧ u !! "password" = None).
Proof.
  destruct password_not_in_response as (H1 & H2 & H3 & H4).
  repeat split.
  - destruct (H1 7 ada Index.init _ _ eq_refl eq_refl) as (u & _ & Hj & Hp & _).
    exists u. split; [exact Hj | exact Hp].
  - destruct (H2 ada (Index.signup 7 ada Index.init).2 _ _ eq_refl eq_refl)
      as (u & _ & Hj & Hp & _).
    exists u. split; [exact Hj | exact Hp].
  - destruct (H3 Some 7 ada Router.init _ _ eq_refl eq_refl) as (_ & u & _ & _ & Hj & Hp & _).
    exists u. split; [exact Hj | exact Hp].
  - destruct (H4 ada (Router.signup Some 7 ada Router.init).2 _ _ eq_refl eq_refl)
      as (u & _ & Hj & Hp & _).
    exists u. split; [exact Hj | exact Hp].
Defined.

(** ** Reading a job *)



Lemma index_get_found (param : option Z) (s : Index.state) (a : obj) :
  find (has_id (parsed param)) (Index.fileAnalyses s) = Some a →
  (Index.get_analysis param s).1 = Response 200 (BObj a).
Proof. unfold Index.get_analysis. by intros ->. Qed.


(** ** Updating a threat *)

Lemma findIndex_Some {A} (p : A → bool) (l : list A) (i : nat) :
  findIndex p l = Some i →
  ∃ x, l !! i = Some x ∧ p x = true ∧ ∀ j y, (j < i)%nat → l !! j = Some y → p y = false.
Proof.
  revert i. induction l as [|a l IH]; intros i H; simpl in H; [done |].
  destruct (p a) eqn:Hp.
  - simplify_eq. exists a. repeat split; try done. intros j y Hj. lia.
  - destruct (findIndex p l) as [k|] eqn:Hk; simplify_eq/=.
    destruct (IH k eq_refl) as (x & Hx & Hpx & Hlt).
    exists x. repeat split; try done.
    intros [|j] y Hj Hy; simplify_eq/=; [done |]. apply (Hlt j); [lia | done].
Qed.

Lemma findIndex_None {A} (p : A → bool) (l : list A) :
  findIndex p l = None → ∀ x, x ∈ l → p x = false.
Proof.
  induction l as [|a l IH]; intros H x Hx; simpl in H; [by apply elem_of_nil in Hx |].
  destruct (p a) eqn:Hp; [done |].
  destruct (findIndex p l) eqn:Hk; simplify_eq/=.
  apply elem_of_cons in Hx as [-> | Hx]; [done | by apply IH].
Qed.

Lemma updateThreatDetection_found (id : val) (updates : obj) (st : Storage.MemStorage)
    (i : nat) :
  findIndex (has_id id) (Storage.threatDetections st) = Some i →
  ∃ old, Storage.threatDetections st !! i = Some old ∧ has_id id old = true
    ∧ Storage.updateThreatDetection id updates st
      = Ok (spread old updates,
            Storage.Mem (Storage.users st)
              (<[i := spread old updates]> (Storage.threatDetections st))
              (Storage.mlModels st) (Storage.fileAnalyses st) (Storage.nextId st)).
Proof.
  intros H. destruct (findIndex_Some _ _ _ H) as (old & Hi & Hp & _).
  exists old. repeat split; try done.
  unfold Storage.updateThreatDetection, Storage.update_at. by rewrite H, Hi.
Qed.

Lemma updateThreatDetection_missing (id : val) (updates : obj) (st : Storage.MemStorage) :
  findIndex (has_id id) (Storage.threatDetections st) = None →
  Storage.updateThreatDetection id updates st = Throw "Threat detection not found".
Proof. intros H. unfold Storage.updateThreatDetection. by rewrite H. Qed.

Lemma spread_quarantine (old : obj) :
  spread old quarantine_patch = <["isQuarantined" := VBool true]> old.
Proof. unfold spread, quarantine_patch. by rewrite insert_union_singleton_l. Qed.

(** C3, as the code has it. Quarantining a threat through PATCH
    /threats/:id fails in one case only, when no stored threat has the
    id: the answer is 404 and the store is untouched. In every other case
    it succeeds, whatever the flag of the threat was, quarantined ones
    included: the answer is 200 with the threat updated, and the store
    holds that threat with [isQuarantined] true at the same position. *)
Theorem quarantine_only_fails_when_missing (param : option Z) (s : Router.state) :
  match findIndex (has_id (parsed param)) (Storage.threatDetections (Router.storage s)) with
  | None =>
      Router.patch_threat param quarantine_patch s
      = (Response 404 (BError "Threat not found"), s)
  | Some i =>
      ∃ old, Storage.threatDetections (Router.storage s) !! i = Some old
        ∧ has_id (parsed param) old = true
        ∧ (Router.patch_threat param quarantine_patch s).1
          = Response 200 (BObj (<["isQuarantined" := VBool true]> old))
        ∧ Storage.threatDetections
            (Router.storage (Router.patch_threat param quarantine_patch s).2)
          = <[i := <["isQuarantined" := VBool true]> old]>
              (Storage.threatDetections (Router.storage s))
  end.
Proof.
  destruct (findIndex _ _) as [i|] eqn:Hf.
  - destruct (updateThreatDetection_found _ quarantine_patch _ _ Hf) as (old & Hi & Hp & Hu).
    exists old. unfold Router.patch_threat. rewrite Hu, spread_quarantine. done.
  - unfold Router.patch_threat. by rewrite (updateThreatDetection_missing _ _ _ Hf).
Qed.

(** C3 fails as stated: quarantining the threat that is quarantined
    already is answered 200 with the threat, not with an error. *)
Lemma quarantine_twice_succeeds :
  ((λ t : obj, field t "isQuarantined")
     <$> Storage.threatDetections (Router.storage quarantined_already) !! 0%nat)
  = Some (VBool true)
  ∧ code (Router.patch_threat (Some 1) quarantine_patch quarantined_already).1 = 200
  ∧ (Router.patch_threat (Some 1) quarantine_patch quarantined_already).2
    = quarantined_already.
Proof. vm_compute. done. Qed.

(** ** Ids *)

Lemma id_of_spread (old updates : obj) :
  updates !! "id" = None → id_of (spread old updates) = id_of old.
Proof. intros H. unfold id_of. by rewrite spread_keeps. Qed.

Lemma update_at_ids (i : nat) (updates : obj) (arr arr' : list obj) (new : obj) :
  updates !! "id" = None →
  Storage.update_at i updates arr = Some (new, arr') →
  id_of <$> arr' = id_of <$> arr.
Proof.
  unfold Storage.update_at. intros Hu H.
  destruct (arr !! i) as [old|] eqn:Hi; simplify_eq/=.
  rewrite list_fmap_insert. apply list_insert_id.
  rewrite list_lookup_fmap, Hi. simpl. by rewrite id_of_spread.
Qed.

Section Created.
Import Storage.

Lemma createUser_id (now : Z) (user : obj) (st : MemStorage) :
  user !! "id" = None → id_of (createUser now user st).1 = Some (nextId st).
Proof.
  intros H. unfold id_of, createUser. simpl.
  rewrite lookup_insert_ne by done. rewrite spread_keeps by done.
  by rewrite lookup_singleton_eq.
Qed.

Lemma createThreatDetection_id (now : Z) (d : obj) (st : MemStorage) :
  id_of (createThreatDetection now d st).1 = Some (nextId st).
Proof. unfold id_of, createThreatDetection. simpl. by simplify_map_eq. Qed.

Lemma createMlModel_id (now : Z) (m : obj) (st : MemStorage) :
  id_of (createMlModel now m st).1 = Some (nextId st).
Proof. unfold id_of, createMlModel. simpl. by simplify_map_eq. Qed.

Lemma createFileAnalysis_id (now : Z) (a : obj) (st : MemStorage) :
  id_of (createFileAnalysis now a st).1 = Some (nextId st).
Proof. unfold id_of, createFileAnalysis. simpl. by simplify_map_eq. Qed.

(** What one call does to the counter and to the ids in the store. *)
Lemma call_ids (o : op) (st : MemStorage) :
  keeps_ids o →
  match (call o st).1 with
  | Some r =>
      id_of r = Some (nextId st)
      ∧ nextId (call o st).2 = nextId st + 1
      ∧ all_records (call o st).2 ≡ₚ r :: all_records st
  | None =>
      nextId (call o st).2 = nextId st
      ∧ id_of <$> all_records (call o st).2 = id_of <$> all_records st
  end.
Proof.
  intros Hk. destruct o as [now u|now d|now m|now a|id u|id u|id u];
    unfold keeps_ids in Hk; simpl in Hk.
  - split; [by apply createUser_id |]. split; [done |].
    unfold all_records. simpl. solve_Permutation.
  - split; [by apply createThreatDetection_id |]. split; [done |].
    unfold all_records. simpl. solve_Permutation.
  - split; [by apply createMlModel_id |]. split; [done |].
    unfold all_records. simpl. solve_Permutation.
  - split; [by apply createFileAnalysis_id |]. split; [done |].
    unfold all_records. simpl. solve_Permutation.
  - simpl. unfold updateThreatDetection.
    destruct (findIndex _ _) as [i|]; [| done].
    destruct (update_at i u _) as [[new arr]|] eqn:Hu; [| done].
    simpl. split; [done |]. unfold all_records. simpl.
    rewrite !fmap_app. by rewrite (update_at_ids _ _ _ _ _ Hk Hu).
  - simpl. unfold updateMlModel.
    destruct (findIndex _ _) as [i|]; [| done].
    destruct (update_at i u _) as [[new arr]|] eqn:Hu; [| done].
    simpl. split; [done |]. unfold all_records. simpl.
    rewrite !fmap_app. by rewrite (update_at_ids _ _ _ _ _ Hk Hu).
  - simpl. unfold updateFileAnalysis.
    destruct (findIndex _ _) as [i|]; [| done].
    destruct (update_at i u _) as [[new arr]|] eqn:Hu; [| done].
    simpl. split; [done |]. unfold all_records. simpl.
    rewrite !fmap_app. by rewrite (update_at_ids _ _ _ _ _ Hk Hu).
Qed.

(** From any store: the records created get the successive values of
    the counter, and the ids in the store are the old ones and theirs. *)
Lemma calls_ids (os : list op) (st : MemStorage) :
  Forall keeps_ids os →
  id_of <$> (calls os st).1 = Some <$> seqZ (nextId st) (Z.of_nat (length (calls os st).1))
  ∧ nextId (calls os st).2 = nextId st + Z.of_nat (length (calls os st).1)
  ∧ id_of <$> all_records (calls os st).2
    ≡ₚ (id_of <$> (calls os st).1) ++ (id_of <$> all_records st).
Proof.
  revert st. induction os as [|o os IH]; intros st Hk.
  - simpl. split; [done |]. split; [lia | done].
  - apply Forall_cons in Hk as [Ho Hk]. simpl.
    pose proof (call_ids o st Ho) as Hc.
    destruct (call o st) as [r st'] eqn:Hcall. simpl in Hc.
    specialize (IH st' Hk). destruct (calls os st') as [rs st''] eqn:Hcalls.
    simpl in IH. destruct IH as (IH1 & IH2 & IH3). simpl.
    destruct r as [r|]; cbn [from_option app fst snd].
    + destruct Hc as (Hid & Hn & Hp).
      rewrite Hn in IH1, IH2. split; [| split].
      * cbn [length]. rewrite seqZ_cons by lia. rewrite !fmap_cons, Hid. f_equal.
        rewrite IH1. do 2 f_equal; lia.
      * cbn [length]. lia.
      * rewrite IH3, Hp, !fmap_cons. by rewrite <- Permutation_middle.
    + destruct Hc as (Hn & Hids). rewrite Hn in IH1, IH2. rewrite Hids in IH3. done.
Qed.

End Created.

(** C9, as the code has it. Over any sequence of calls of the storage
    layer that keep ids (the data given to [createUser] and the patches
    of the updates have no [id] property), starting from the empty store:
    the records created receive, in creation order, the ids 1, 2, 3, ...
    off the one counter, whichever of the four collections they go to;
    the counter is one past the last id given; and the ids found in the
    four collections together are exactly those, no two the same. *)
Theorem ids_from_one_counter (os : list Storage.op) :
  Forall keeps_ids os →
  let created := (Storage.calls os Storage.empty).1 in
  let st := (Storage.calls os Storage.empty).2 in
  id_of <$> created = Some <$> seqZ 1 (Z.of_nat (length created))
  ∧ Storage.nextId st = 1 + Z.of_nat (length created)
  ∧ id_of <$> Storage.all_records st ≡ₚ id_of <$> created
  ∧ NoDup (id_of <$> Storage.all_records st).
Proof.
  intros Hk created st.
  destruct (calls_ids os Storage.empty Hk) as (H1 & H2 & H3).
  fold created in H1, H2, H3. fold st in H2, H3.
  simpl in H3. rewrite app_nil_r in H3.
  split; [done |]. split; [done |]. split; [done |].
  rewrite H3, H1. apply NoDup_fmap; [| apply NoDup_seqZ].
  intros x y Hxy. by simplify_eq.
Qed.

Lemma ids_from_one_counter_witness :
  id_of <$> (Storage.calls busy_day Storage.empty).1 = [Some 1; Some 2; Some 3]
  ∧ NoDup (id_of <$> Storage.all_records (Storage.calls busy_day Storage.empty).2).
Proof.
  assert (Hk : Forall keeps_ids busy_day).
  { unfold busy_day. repeat constructor; vm_compute; reflexivity. }
  destruct (ids_from_one_counter busy_day Hk) as (H1 & _ & _ & H4).
  split; [exact H1 | exact H4].
Defined.

(** C9 fails as stated. In the storage layer, a patch that carries an id
    gives the first threat the id of the second. In index.js, a threat
    posted with an id in its body takes the id of the user created before
    it. *)
Lemma two_records_one_id :
  id_of <$> Storage.all_records (Storage.calls renumbering Storage.empty).2
  = [Some 2; Some 2]
  ∧ (let s := (Index.post_threat 2 {["id" := VNum 1]}
                 (Index.signup 1 ada Index.init).2).2 in
     id_of <$> Index.users s = [Some 1] ∧ id_of <$> Index.threatDetections s = [Some 1]).
Proof. vm_compute. done. Qed.

(** ** Analysis records of index.js *)

Section IndexRecords.
Import Index.
Variable JSON_parse : string → option val.
Variable model_name : val → Z → string.

Lemma stderr_fields (data : string) (a : obj) :
  field (on_stderr_data data a) "status" = VStr "FAILED"
  ∧ on_stderr_data data a !! "error" = Some (VStr data)
  ∧ field (on_stderr_data data a) "result" = field a "result"
  ∧ on_stderr_data data a !! "completedAt" = a !! "completedAt".
Proof. unfold on_stderr_data, field. by simplify_map_eq. Qed.

Lemma stdout_parsed_fields (now : Z) (data : string) (a : obj) (v : val) :
  JSON_parse data = Some v →
  field (on_stdout_data JSON_parse now data a) "status" = VStr "COMPLETED"
  ∧ field (on_stdout_data JSON_parse now data a) "result" = v
  ∧ on_stdout_data JSON_parse now data a !! "completedAt" = Some (VDate now)
  ∧ on_stdout_data JSON_parse now data a !! "error" = a !! "error".
Proof. intros H. unfold on_stdout_data, field. rewrite H. by simplify_map_eq. Qed.

Lemma stdout_unparsed_fields (now : Z) (data : string) (a : obj) :
  JSON_parse data = None →
  field (on_stdout_data JSON_parse now data a) "status" = VStr "FAILED"
  ∧ on_stdout_data JSON_parse now data a !! "error" = Some (VStr "Analysis failed")
  ∧ field (on_stdout_data JSON_parse now data a) "result" = field a "result"
  ∧ on_stdout_data JSON_parse now data a !! "completedAt" = a !! "completedAt".
Proof. intros H. unfold on_stdout_data, field. rewrite H. by simplify_map_eq. Qed.

Lemma analyze_records (now : Z) (b : obj) (s : state) :
  ∃ a, fileAnalyses (analyze now b s).2 = fileAnalyses s ++ [a] ∧ untouched a
       ∧ id_of a = Some (nextId s).
Proof.
  eexists. split; [reflexivity |]. split; [| by unfold id_of; simplify_map_eq].
  unfold untouched, field. by simplify_map_eq.
Qed.

Lemma mutate_records (ref : nat) (f : obj → obj) (s : state) :
  fileAnalyses (mutate ref f s)
  = match fileAnalyses s !! ref with
    | Some a => <[ref := f a]> (fileAnalyses s)
    | None => fileAnalyses s
    end.
Proof. unfold mutate. by destruct (fileAnalyses s !! ref). Qed.

Lemma mutate_lookup (ref ref' : nat) (f : obj → obj) (s : state) :
  fileAnalyses (mutate ref f s) !! ref'
  = if decide (ref = ref') then f <$> fileAnalyses s !! ref' else fileAnalyses s !! ref'.
Proof.
  rewrite mutate_records. destruct (fileAnalyses s !! ref) as [a|] eqn:Ha.
  - case_decide as Hd.
    + subst. rewrite list_lookup_insert_eq by (by eapply lookup_lt_Some).
      by rewrite Ha.
    + by rewrite list_lookup_insert_ne.
  - case_decide; [subst; by rewrite Ha | done].
Qed.

(** The events that leave the analyses as they are. *)
Lemma step_records (e : event) (s : state) :
  match e with
  | Analyze now b => fileAnalyses (step JSON_parse model_name e s).2 = fileAnalyses (analyze now b s).2
  | StdoutData ref now data =>
      fileAnalyses (step JSON_parse model_name e s).2
      = fileAnalyses (mutate ref (on_stdout_data JSON_parse now data) s)
  | StderrData ref data =>
      fileAnalyses (step JSON_parse model_name e s).2 = fileAnalyses (mutate ref (on_stderr_data data) s)
  | _ => fileAnalyses (step JSON_parse model_name e s).2 = fileAnalyses s
  end.
Proof.
  destruct e; simpl; try done.
  - unfold signup. by destruct (find _ _).
  - unfold login. by destruct (find _ _).
  - unfold get_active_model. by destruct (find _ _).
  - unfold get_analysis. by destruct (find _ _).
  - unfold on_training_stdout. destruct (JSON_parse data); [| done].
    by repeat destruct (property _ _).
Qed.

Lemma stdout_coherent (now : Z) (data : string) (a : obj) :
  coherent (on_stdout_data JSON_parse now data a).
Proof.
  destruct (JSON_parse data) as [v|] eqn:Hp.
  - destruct (stdout_parsed_fields now data a v Hp) as (H1 & _ & H3 & _).
    right; left. by rewrite H1, H3.
  - destruct (stdout_unparsed_fields now data a Hp) as (H1 & H2 & _).
    right; right. by rewrite H1, H2.
Qed.

Lemma stderr_coherent (data : string) (a : obj) : coherent (on_stderr_data data a).
Proof.
  destruct (stderr_fields data a) as (H1 & H2 & _). right; right. by rewrite H1, H2.
Qed.

Lemma step_coherent (e : event) (s : state) :
  Forall coherent (fileAnalyses s) → Forall coherent (fileAnalyses (step JSON_parse model_name e s).2).
Proof.
  intros H. pose proof (step_records e s) as Hr.
  destruct e; try (by rewrite Hr); rewrite Hr.
  - destruct (analyze_records now req_body s) as (a & -> & Ha & _).
    apply Forall_app. split; [done |]. apply Forall_singleton. by left.
  - rewrite mutate_records. destruct (fileAnalyses s !! ref); [| done].
    apply Forall_insert; [done | apply stdout_coherent].
  - rewrite mutate_records. destruct (fileAnalyses s !! ref); [| done].
    apply Forall_insert; [done | apply stderr_coherent].
Qed.

Lemma run_coherent (es : list event) (s : state) :
  Forall coherent (fileAnalyses s) → Forall coherent (fileAnalyses (run JSON_parse model_name es s)).
Proof.
  revert s. induction es as [|e es IH]; intros s H; [done |].
  simpl. apply IH. by apply step_coherent.
Qed.


End IndexRecords.

Section StatusPath.
Import Index.
Variable JSON_parse : string → option val.
Variable model_name : val → Z → string.



End StatusPath.

Section RouterStatus.
Import Storage Router.


End RouterStatus.

(** ** Signals of the analysis process *)

(** C2, as the code has it. No signal is discarded: whatever the status
    of the record, terminal or not, error output sets its status to
    FAILED and its error to the data; output that parses sets its status
    to COMPLETED, its result to the parsed value and its completedAt;
    output that does not parse sets its status to FAILED and its error to
    'Analysis failed'. A signal changes the record of its own job only. *)
Theorem every_signal_applies (JSON_parse : string → option val)
    (model_name : val → Z → string) (s : Index.state) (ref : nat) (a : obj) :
  record_at ref s = Some a →
  (∀ data, ∃ a',
      record_at ref (Index.step JSON_parse model_name (Index.StderrData ref data) s).2 = Some a'
      ∧ field a' "status" = VStr "FAILED" ∧ a' !! "error" = Some (VStr data))
  ∧ (∀ now data v, JSON_parse data = Some v → ∃ a',
      record_at ref (Index.step JSON_parse model_name (Index.StdoutData ref now data) s).2 = Some a'
      ∧ field a' "status" = VStr "COMPLETED" ∧ field a' "result" = v
      ∧ a' !! "completedAt" = Some (VDate now))
  ∧ (∀ now data, JSON_parse data = None → ∃ a',
      record_at ref (Index.step JSON_parse model_name (Index.StdoutData ref now data) s).2 = Some a'
      ∧ field a' "status" = VStr "FAILED" ∧ a' !! "error" = Some (VStr "Analysis failed"))
  ∧ (∀ e ref', signal_for ref e → ref' ≠ ref →
      record_at ref' (Index.step JSON_parse model_name e s).2 = record_at ref' s).
Proof.
  unfold record_at. intros Ha. repeat split.
  - intros data. simpl. rewrite mutate_lookup, decide_True by done. rewrite Ha.
    eexists. split; [done |]. by destruct (stderr_fields data a) as (? & ? & _).
  - intros now data v Hp. simpl. rewrite mutate_lookup, decide_True by done. rewrite Ha.
    eexists. split; [done |].
    by destruct (stdout_parsed_fields JSON_parse now data a v Hp) as (? & ? & ? & _).
  - intros now data Hp. simpl. rewrite mutate_lookup, decide_True by done. rewrite Ha.
    eexists. split; [done |].
    by destruct (stdout_unparsed_fields JSON_parse now data a Hp) as (? & ? & _).
  - intros e ref' He Hne. destruct e; simpl in He; try done; subst; simpl;
      rewrite mutate_lookup; by rewrite decide_False.
Qed.

Lemma every_signal_applies_witness :
  ∃ a', record_at 0 (Index.run sample_parse sample_name late_error Index.init) = Some a'
        ∧ field a' "status" = VStr "FAILED" ∧ a' !! "error" = Some (VStr "Traceback").
Proof.
  refine (proj1 (every_signal_applies sample_parse sample_name
                   (Index.run sample_parse sample_name one_job Index.init) 0%nat _ _) "Traceback").
  vm_compute. reflexivity.
Defined.

(** C2 fails as stated: the job is COMPLETED by its output, and the
    error output that follows makes it FAILED and sets its error. *)
Lemma completed_then_failed :
  Index.status_at 0 (Index.run sample_parse sample_name one_job Index.init) = Some (VStr "COMPLETED")
  ∧ (λ a : obj, a !! "error") <$> record_at 0 (Index.run sample_parse sample_name one_job Index.init)
    = Some None
  ∧ Index.status_at 0 (Index.run sample_parse sample_name late_error Index.init) = Some (VStr "FAILED")
  ∧ (λ a : obj, a !! "error") <$> record_at 0 (Index.run sample_parse sample_name late_error Index.init)
    = Some (Some (VStr "Traceback")).
Proof. vm_compute. done. Qed.

(** The fields of a record at all times, and after its first signal. *)
Lemma first_signal_fields (JSON_parse : string → option val)
    (model_name : val → Z → string) (es : list Index.event) (a : obj) :
  a ∈ Index.fileAnalyses (Index.run JSON_parse model_name es Index.init) →
  (field a "status" = VStr "ANALYZING" → field a "result" = VNull ∧ a !! "error" = None)
  ∧ (field a "status" = VStr "FAILED" → is_Some (a !! "error"))
  ∧ (field a "status" = VStr "COMPLETED" → is_Some (a !! "completedAt"))
  ∧ (field a "status" = VStr "ANALYZING" →
     ∀ now data,
       let a' := Index.on_stdout_data JSON_parse now data a in
       (is_Some (a' !! "error") ↔ field a' "status" = VStr "FAILED")
       ∧ (field a' "result" ≠ VNull → field a' "status" = VStr "COMPLETED"))
  ∧ (field a "status" = VStr "ANALYZING" →
     ∀ data,
       let a' := Index.on_stderr_data data a in
       (is_Some (a' !! "error") ↔ field a' "status" = VStr "FAILED")
       ∧ field a' "result" = VNull).
Proof.
  intros Hin.
  assert (Hc : coherent a).
  { assert (H : Forall coherent (Index.fileAnalyses (Index.run JSON_parse model_name es Index.init))).
    { apply run_coherent. simpl. constructor. }
    rewrite Forall_forall in H. by apply H. }
  assert (Hu : field a "status" = VStr "ANALYZING" → untouched a).
  { intros Hs. destruct Hc as [H | [(H & _) | (H & _)]]; [done | |]; congruence. }
  repeat split.
  - by destruct (Hu H) as (_ & ? & _).
  - by destruct (Hu H) as (_ & _ & ? & _).
  - intros Hs. destruct Hc as [(H & _) | [(H & _) | (_ & H)]]; [congruence.. | done].
  - intros Hs. destruct Hc as [(H & _) | [(_ & H) | (H & _)]]; [congruence | done | congruence].
  - destruct (Hu H) as (_ & Hr & He & _).
    destruct (JSON_parse data) as [v|] eqn:Hp.
    + destruct (stdout_parsed_fields JSON_parse now data a v Hp) as (_ & _ & _ & H4).
      rewrite H4, He. by intros [? ?].
    + by destruct (stdout_unparsed_fields JSON_parse now data a Hp) as (? & _).
  - destruct (Hu H) as (_ & Hr & He & _).
    destruct (JSON_parse data) as [v|] eqn:Hp.
    + destruct (stdout_parsed_fields JSON_parse now data a v Hp) as (H1 & _). rewrite H1.
      congruence.
    + destruct (stdout_unparsed_fields JSON_parse now data a Hp) as (_ & H2 & _).
      by rewrite H2.
  - destruct (Hu H) as (_ & Hr & He & _).
    destruct (JSON_parse data) as [v|] eqn:Hp.
    + by destruct (stdout_parsed_fields JSON_parse now data a v Hp) as (? & _).
    + destruct (stdout_unparsed_fields JSON_parse now data a Hp) as (_ & _ & H3 & _).
      rewrite H3, Hr. done.
  - by destruct (stderr_fields data a) as (? & _).
  - destruct (stderr_fields data a) as (_ & H2 & _). by rewrite H2.
  - destruct (Hu H) as (_ & Hr & _).
    destruct (stderr_fields data a) as (_ & _ & H3 & _). by rewrite H3.
Qed.

(** C5, as the code has it. For every analysis record of index.js, at
    all times: while its status is ANALYZING its result is null and it
    has no error; if its status is FAILED it has an error; if its status
    is COMPLETED it has a completedAt. The first signal that reaches a
    record leaves it with an error exactly when it leaves it FAILED, and
    with a result other than null only when it leaves it COMPLETED. And a
    signal, whatever the status of the record it reaches, clears nothing:
    it removes neither an error nor a completedAt; error output and
    output that does not parse leave the result as it is, and output that
    parses puts the value parsed in its place. *)
Theorem result_and_error_fields (JSON_parse : string → option val)
    (model_name : val → Z → string) (es : list Index.event) (a : obj) :
  a ∈ Index.fileAnalyses (Index.run JSON_parse model_name es Index.init) →
  (field a "status" = VStr "ANALYZING" → field a "result" = VNull ∧ a !! "error" = None)
  ∧ (field a "status" = VStr "FAILED" → is_Some (a !! "error"))
  ∧ (field a "status" = VStr "COMPLETED" → is_Some (a !! "completedAt"))
  ∧ (field a "status" = VStr "ANALYZING" →
     ∀ now data,
       let a' := Index.on_stdout_data JSON_parse now data a in
       (is_Some (a' !! "error") ↔ field a' "status" = VStr "FAILED")
       ∧ (field a' "result" ≠ VNull → field a' "status" = VStr "COMPLETED"))
  ∧ (field a "status" = VStr "ANALYZING" →
     ∀ data,
       let a' := Index.on_stderr_data data a in
       (is_Some (a' !! "error") ↔ field a' "status" = VStr "FAILED")
       ∧ field a' "result" = VNull)
  ∧ (∀ data,
       let a' := Index.on_stderr_data data a in
       a' !! "error" = Some (VStr data)
       ∧ field a' "result" = field a "result"
       ∧ a' !! "completedAt" = a !! "completedAt")
  ∧ (∀ now data,
       let a' := Index.on_stdout_data JSON_parse now data a in
       match JSON_parse data with
       | Some v =>
           field a' "result" = v
           ∧ a' !! "completedAt" = Some (VDate now)
           ∧ a' !! "error" = a !! "error"
       | None =>
           a' !! "error" = Some (VStr "Analysis failed")
           ∧ field a' "result" = field a "result"
           ∧ a' !! "completedAt" = a !! "completedAt"
       end).
Proof.
  intros Hin.
  destruct (first_signal_fields JSON_parse model_name es a Hin) as (H1 & H2 & H3 & H4 & H5).
  split; [exact H1 |]. split; [exact H2 |]. split; [exact H3 |].
  split; [exact H4 |]. split; [exact H5 |]. split.
  - intros data a'. subst a'. by destruct (stderr_fields data a) as (_ & ? & ? & ?).
  - intros now data a'. subst a'. destruct (JSON_parse data) as [v|] eqn:Hp.
    + by destruct (stdout_parsed_fields JSON_parse now data a v Hp) as (_ & ? & ? & ?).
    + by destruct (stdout_unparsed_fields JSON_parse now data a Hp) as (_ & ? & ? & ?).
Qed.

Lemma result_and_error_fields_witness :
  ∃ a, record_at 0 (Index.run sample_parse sample_name (take 1 one_job) Index.init) = Some a
       ∧ field a "result" = VNull ∧ a !! "error" = None.
Proof.
  pose (a := default ∅ (record_at 0 (Index.run sample_parse sample_name (take 1 one_job) Index.init))).
  assert (Hin : a ∈ Index.fileAnalyses (Index.run sample_parse sample_name (take 1 one_job) Index.init)).
  { apply list_elem_of_lookup. exists 0%nat. vm_compute. reflexivity. }
  exists a. split; [vm_compute; reflexivity |].
  apply (proj1 (result_and_error_fields sample_parse sample_name (take 1 one_job) a Hin)).
  vm_compute. reflexivity.
Defined.

(** C5 fails as stated: after output and then error output the job is
    FAILED and still has its result; after error output and then output
    it is COMPLETED and still has its error. *)
Lemma stale_result_and_error :
  Index.status_at 0 (Index.run sample_parse sample_name late_error Index.init) = Some (VStr "FAILED")
  ∧ (λ a : obj, field a "result") <$> record_at 0 (Index.run sample_parse sample_name late_error Index.init)
    = Some (VObj ∅)
  ∧ Index.status_at 0 (Index.run sample_parse sample_name late_output Index.init)
    = Some (VStr "COMPLETED")
  ∧ (λ a : obj, a !! "error") <$> record_at 0 (Index.run sample_parse sample_name late_output Index.init)
    = Some (Some (VStr "DeprecationWarning")).
Proof. vm_compute. done. Qed.

(** ** Two quarantine calls at once *)

Lemma findIndex_insert {A} (p : A → bool) (l : list A) (i : nat) (x : A) :
  findIndex p l = Some i → p x = true → findIndex p (<[i := x]> l) = Some i.
Proof.
  revert i. induction l as [|a l IH]; intros i H Hx; simpl in H; [done |].
  destruct (p a) eqn:Hp.
  - simplify_eq. simpl. by rewrite Hx.
  - destruct (findIndex p l) as [k|] eqn:Hk; simplify_eq/=.
    rewrite Hp. by rewrite (IH k).
Qed.

Lemma schedule_cons (b : bool) (picks : list bool) (c : Interleaving.config) :
  Interleaving.schedule (b :: picks) c
  = Interleaving.schedule picks (Interleaving.pick_step c b).
Proof. done. Qed.

Lemma picks_of_same (b : bool) (picks : list bool) :
  Interleaving.picks_of b (b :: picks) = S (Interleaving.picks_of b picks).
Proof. unfold Interleaving.picks_of. simpl. by destruct b. Qed.

Lemma picks_of_other (b b' : bool) (picks : list bool) :
  b ≠ b' → Interleaving.picks_of b (b' :: picks) = Interleaving.picks_of b picks.
Proof. unfold Interleaving.picks_of. simpl. by destruct b, b'. Qed.

Section TwoCalls.
Import Storage Interleaving.

Variable m : MemStorage.
Variable n : Z.
Variable i : nat.
Variable old : obj.
Hypothesis Hfound : findIndex (has_id (VNum n)) (threatDetections m) = Some i.
Hypothesis Hold : threatDetections m !! i = Some old.

Lemma has_id_old : has_id (VNum n) old = true.
Proof.
  destruct (findIndex_Some _ _ _ Hfound) as (x & Hx & Hp & _). by simplify_eq.
Qed.

Lemma has_id_quarantined : has_id (VNum n) (quarantined old) = true.
Proof.
  unfold has_id, quarantined. rewrite field_insert_ne by done. apply has_id_old.
Qed.

Lemma first_quarantine :
  updateThreatDetection (VNum n) quarantine_patch m
  = Ok (quarantined old, with_quarantined m i old).
Proof.
  destruct (updateThreatDetection_found _ quarantine_patch _ _ Hfound) as (o & Ho & _ & ->).
  rewrite Hold in Ho. injection Ho as <-. by rewrite spread_quarantine.
Qed.

Lemma next_quarantine :
  updateThreatDetection (VNum n) quarantine_patch (with_quarantined m i old)
  = Ok (quarantined old, with_quarantined m i old).
Proof.
  assert (Hf : findIndex (has_id (VNum n)) (threatDetections (with_quarantined m i old))
               = Some i).
  { simpl. apply findIndex_insert; [done | apply has_id_quarantined]. }
  destruct (updateThreatDetection_found _ quarantine_patch _ _ Hf) as (o & Ho & _ & ->).
  simpl in Ho. rewrite list_lookup_insert_eq in Ho by (by eapply lookup_lt_Some).
  injection Ho as <-. rewrite spread_quarantine.
  assert (Hq : <["isQuarantined" := VBool true]> (quarantined old) = quarantined old).
  { unfold quarantined. apply insert_insert_eq. }
  rewrite Hq. unfold with_quarantined. simpl. by rewrite list_insert_insert_eq.
Qed.

Lemma advance_quarantine (k1 k2 : nat) :
  advance (quarantine_after n (quarantined old) k1) (store_after m i old (k1 + k2))
  = (quarantine_after n (quarantined old) (S k1), store_after m i old (S k1 + k2)).
Proof.
  destruct k1 as [|[|k1]]; simpl; try done.
  destruct k2; simpl; [by rewrite first_quarantine | by rewrite next_quarantine].
Qed.

Lemma schedule_quarantines (picks : list bool) (k1 k2 : nat) :
  schedule picks (Config (quarantine_after n (quarantined old) k1)
                         (quarantine_after n (quarantined old) k2)
                         (store_after m i old (k1 + k2)))
  = Config (quarantine_after n (quarantined old) (k1 + picks_of true picks))
           (quarantine_after n (quarantined old) (k2 + picks_of false picks))
           (store_after m i old (k1 + k2 + length picks)).
Proof.
  revert k1 k2. induction picks as [|[] picks IH]; intros k1 k2.
  - unfold picks_of. simpl. by rewrite !Nat.add_0_r.
  - rewrite schedule_cons. unfold pick_step. cbn [first second store].
    rewrite advance_quarantine. rewrite (IH (S k1) k2).
    rewrite picks_of_same, (picks_of_other false true) by done. cbn [length].
    f_equal; f_equal; lia.
  - rewrite schedule_cons. unfold pick_step. cbn [first second store].
    replace (k1 + k2)%nat with (k2 + k1)%nat by lia.
    rewrite advance_quarantine.
    replace (S k2 + k1)%nat with (k1 + S k2)%nat by lia. rewrite (IH k1 (S k2)).
    rewrite picks_of_same, (picks_of_other true false) by done. cbn [length].
    f_equal; f_equal; lia.
Qed.

Lemma both_respond (picks : list bool) :
  (2 ≤ picks_of true picks)%nat → (2 ≤ picks_of false picks)%nat →
  schedule picks (two_quarantines n m)
  = Config (Responded (Response 200 (BObj (quarantined old))))
           (Responded (Response 200 (BObj (quarantined old))))
           (with_quarantined m i old).
Proof.
  intros H1 H2. pose proof (schedule_quarantines picks 0 0) as H. simpl in H.
  unfold two_quarantines. rewrite H.
  assert (Hl : store_after m i old (length picks) = with_quarantined m i old).
  { destruct picks; [unfold picks_of in H1; simpl in H1; lia | done]. }
  rewrite Hl.
  destruct (picks_of true picks) as [|[|?]]; [lia.. |].
  destruct (picks_of false picks) as [|[|?]]; [lia.. |].
  done.
Qed.

End TwoCalls.

(** One call that runs alone takes its two steps and answers as the
    handler does. *)
Lemma advance_twice_is_patch (param : option Z) (b : obj) (s : Router.state) :
  let '(t1, m1) := Interleaving.advance (Interleaving.Called param b) (Router.storage s) in
  let '(t2, m2) := Interleaving.advance t1 m1 in
  (t2, Router.with_storage s m2)
  = (Interleaving.Responded (Router.patch_threat param b s).1,
     (Router.patch_threat param b s).2).
Proof.
  unfold Router.patch_threat. simpl.
  destruct (Storage.updateThreatDetection (parsed param) b (Router.storage s))
    as [[t m']|msg]; simpl; [done |]. by destruct s.
Qed.

(** C8, as the code has it. Two quarantine calls for one stored threat,
    in flight together: however the event loop interleaves their steps,
    once each has taken its two steps both have answered 200 with the
    threat quarantined, neither has failed, and the store holds the
    threat with [isQuarantined] true. Each call looks the threat up and
    writes it in one step of its own. *)
Theorem both_quarantines_succeed (m : Storage.MemStorage) (n : Z) (i : nat)
    (picks : list bool) :
  findIndex (has_id (VNum n)) (Storage.threatDetections m) = Some i →
  (2 ≤ Interleaving.picks_of true picks)%nat →
  (2 ≤ Interleaving.picks_of false picks)%nat →
  ∃ old, Storage.threatDetections m !! i = Some old
    ∧ Interleaving.schedule picks (two_quarantines n m)
      = Interleaving.Config
          (Interleaving.Responded (Response 200 (BObj (quarantined old))))
          (Interleaving.Responded (Response 200 (BObj (quarantined old))))
          (with_quarantined m i old)
    ∧ field (quarantined old) "isQuarantined" = VBool true
    ∧ Storage.threatDetections (with_quarantined m i old) !! i = Some (quarantined old).
Proof.
  intros Hf H1 H2. destruct (findIndex_Some _ _ _ Hf) as (old & Hold & _).
  exists old. split; [done |]. split; [by apply both_respond |].
  split; [apply field_insert_eq |].
  simpl. apply list_lookup_insert_eq. by eapply lookup_lt_Some.
Qed.

Lemma both_quarantines_succeed_witness :
  ∃ old, Storage.threatDetections one_active_threat !! 0%nat = Some old
    ∧ Interleaving.schedule [true; true; false; false] (two_quarantines 1 one_active_threat)
      = Interleaving.Config
          (Interleaving.Responded (Response 200 (BObj (quarantined old))))
          (Interleaving.Responded (Response 200 (BObj (quarantined old))))
          (with_quarantined one_active_threat 0 old).
Proof.
  destruct (both_quarantines_succeed one_active_threat 1 0 [true; true; false; false])
    as (old & H1 & H2 & _).
  - vm_compute. reflexivity.
  - vm_compute. lia.
  - vm_compute. lia.
  - exists old. split; [exact H1 | exact H2].
Defined.

(** C8 fails as stated: with the two calls interleaved step by step on
    an active threat, both are answered 200; none fails. *)
Lemma interleaved_quarantines_both_200 :
  let c := Interleaving.schedule [true; false; true; false]
             (two_quarantines 1 one_active_threat) in
  (λ t : obj, field t "isQuarantined") <$> Storage.threatDetections one_active_threat !! 0%nat
  = Some (VBool false)
  ∧ (∃ t, Interleaving.first c = Interleaving.Responded (Response 200 (BObj t)))
  ∧ (∃ t, Interleaving.second c = Interleaving.Responded (Response 200 (BObj t)))
  ∧ (λ t : obj, field t "isQuarantined")
      <$> Storage.threatDetections (Interleaving.store c) !! 0%nat
    = Some (VBool true).
Proof. vm_compute. repeat split; eexists; reflexivity. Qed.

(** ** Bulk quarantine *)

Section Bulk.
Import Threats.
Variable crafted : string → string → gmap string row → outcome (gmap string row).

Lemma update_row_alter (threatId : string) (p : page) :
  plain_id threatId = true →
  updateThreatRowStatus crafted threatId "quarantined" p
  = Ok (set_rows (alter quarantined_row threatId (rows p)) p).
Proof.
  intros Hp. unfold updateThreatRowStatus. rewrite Hp.
  destruct (rows p !! threatId) as [r|] eqn:Hr.
  - do 2 f_equal. apply map_eq. intros k. destruct (decide (threatId = k)) as [<-|Hne].
    + rewrite lookup_insert_eq, lookup_alter_eq, Hr. done.
    + by rewrite lookup_insert_ne, lookup_alter_ne.
  - f_equal. destruct p. unfold set_rows. simpl in *. f_equal.
    apply map_eq. intros k. destruct (decide (threatId = k)) as [<-|Hne].
    + by rewrite lookup_alter_eq, Hr.
    + by rewrite lookup_alter_ne.
Qed.

Lemma quarantined_row_twice (r : row) : quarantined_row (quarantined_row r) = quarantined_row r.
Proof.
  destruct r as [st [bg|] [[[qb|] [rb|]]|]]; reflexivity.
Qed.

(** Marking the rows of a list of ids, one after the other. *)
Lemma mark_all_lookup (ids : list string) (m : gmap string row) (k : string) :
  foldl (λ m id, alter quarantined_row id m) m ids !! k
  = if decide (k ∈ ids) then quarantined_row <$> m !! k else m !! k.
Proof.
  revert m. induction ids as [|id ids IH]; intros m.
  - done.
  - cbn [foldl]. rewrite IH. destruct (decide (id = k)) as [->|Hne].
    + rewrite lookup_alter_eq. rewrite (decide_True (P := k ∈ k :: ids)) by apply list_elem_of_here.
      case_decide; [| done]. destruct (m !! k); simpl; [| done].
      by rewrite quarantined_row_twice.
    + rewrite lookup_alter_ne by done.
      destruct (decide (k ∈ ids)) as [Hin|Hin].
      * rewrite decide_True; [done | by apply list_elem_of_further].
      * rewrite decide_False; [done |]. intros [?|?]%elem_of_cons; by simplify_eq.
Qed.

Lemma winners_length (ids : list string) (results : list settled) :
  (length (winners ids results) ≤ length results)%nat.
Proof.
  revert results. induction ids as [|id ids IH]; intros [|r results]; simpl; try lia.
  specialize (IH results). destruct (succeeded r); simpl; lia.
Qed.

Lemma successes_le (results : list settled) : (successes results ≤ length results)%nat.
Proof.
  unfold successes. induction results as [|r results IH]; simpl; [lia |].
  destruct (succeeded r); simpl; lia.
Qed.

Lemma marked_length (sel : list string) (k : nat) (results : list settled) :
  length (marked sel k results) = successes results.
Proof.
  unfold successes. revert k. induction results as [|r results IH]; intros k; simpl; [done |].
  destruct (succeeded r); simpl; by rewrite IH.
Qed.

(** While the selection is as long as the results, the ids marked are
    those of the successes. *)
Lemma marked_winners (sel : list string) (k : nat) (results : list settled) :
  (k + length results ≤ length sel)%nat →
  marked sel k results = winners (drop k sel) results.
Proof.
  revert k. induction results as [|r results IH]; intros k Hk.
  - simpl. by destruct (drop k sel).
  - simpl in Hk. destruct (sel !! k) as [id|] eqn:Hid;
      [| apply lookup_ge_None in Hid; lia].
    rewrite (drop_S _ _ _ Hid). cbn [marked winners]. rewrite Hid. cbn [default].
    rewrite IH by lia. done.
Qed.

Lemma tally_spec (results : list settled) (k successCount failCount : nat) (p : page) :
  (∀ id, id ∈ marked (selectedThreats p) k results → plain_id id = true) →
  tally crafted results k successCount failCount p
  = Counted (successCount + successes results)
            (failCount + (length results - successes results))
            (set_rows (foldl (λ m id, alter quarantined_row id m) (rows p)
                             (marked (selectedThreats p) k results)) p).
Proof.
  revert k successCount failCount p.
  induction results as [|r results IH]; intros k sc fc p Hplain.
  - cbn. rewrite !Nat.add_0_r. by destruct p.
  - cbn [tally marked] in *. pose proof (successes_le results) as Hle.
    unfold successes in *. cbn [List.filter]. destruct (succeeded r) eqn:Hr.
    + rewrite update_row_alter by (apply Hplain, list_elem_of_here).
      rewrite IH.
      * cbn [length foldl selectedThreats set_rows rows]. f_equal; lia.
      * intros id Hid. apply Hplain. by apply list_elem_of_further.
    + rewrite IH by done. cbn [length]. f_equal; lia.
Qed.

Lemma foldl_send (ids : list string) (p : page) :
  foldl (λ p threatId, send (url_of threatId) p) p ids
  = Page (selectedThreats p) (rows p) (selectAllCheckbox p) (threat_checkboxes p)
         (bulk_actions p) (loadingOverlay p) (toasts p)
         (requests p ++ (url_of <$> ids)) (console p).
Proof.
  revert p. induction ids as [|id ids IH]; intros p; simpl.
  - rewrite app_nil_r. by destruct p.
  - rewrite IH. simpl. by rewrite <- app_assoc.
Qed.

Lemma allSettled_Some (server : string → fetch_result) (ids : list string)
    (results : list settled) :
  allSettled (server <$> ids) = Some results →
  length results = length ids
  ∧ winners ids results = List.filter (λ id, accepted (server id)) ids.
Proof.
  revert results. induction ids as [|id ids IH]; intros results H.
  - simpl in H. by simplify_eq.
  - rewrite fmap_cons in H. cbn [allSettled] in H.
    destruct (server id) as [ok|reason|] eqn:Hs; [| | done].
    + destruct (allSettled (server <$> ids)) as [rs|]; simpl in H; [| done].
      destruct (IH rs eq_refl) as [Hl Hw]. injection H as <-. simpl.
      split; [lia |]. rewrite Hs. simpl. destruct ok; by rewrite Hw.
    + destruct (allSettled (server <$> ids)) as [rs|]; simpl in H; [| done].
      destruct (IH rs eq_refl) as [Hl Hw]. injection H as <-. simpl.
      split; [lia |]. by rewrite Hs.
Qed.

Lemma allSettled_successes (server : string → fetch_result) (ids : list string)
    (results : list settled) :
  allSettled (server <$> ids) = Some results →
  successes results = length (List.filter (λ id, accepted (server id)) ids).
Proof.
  intros H. destruct (allSettled_Some server ids results H) as [Hl Hw].
  rewrite <- Hw, <- (marked_length ids 0 results), marked_winners by (simpl; lia).
  by rewrite drop_0.
Qed.

Lemma allSettled_None (server : string → fetch_result) (ids : list string) :
  allSettled (server <$> ids) = None ↔ ∃ id, id ∈ ids ∧ server id = Unsettled.
Proof.
  induction ids as [|id ids IH].
  - simpl. split; [done |]. intros (? & H & _). by apply elem_of_nil in H.
  - rewrite fmap_cons. cbn [allSettled].
    destruct (server id) as [ok|reason|] eqn:Hs.
    + destruct (allSettled (server <$> ids)) eqn:Hrs; simpl.
      * split; [done |]. intros (x & [->|Hx]%elem_of_cons & Hu); [congruence |].
        assert (H : Some l = None) by (apply IH; eauto). done.
      * split; [| done]. intros _. destruct (proj1 IH eq_refl) as (x & Hx & Hu).
        exists x. split; [by apply list_elem_of_further | done].
    + destruct (allSettled (server <$> ids)) eqn:Hrs; simpl.
      * split; [done |]. intros (x & [->|Hx]%elem_of_cons & Hu); [congruence |].
        assert (H : Some l = None) by (apply IH; eauto). done.
      * split; [| done]. intros _. destruct (proj1 IH eq_refl) as (x & Hx & Hu).
        exists x. split; [by apply list_elem_of_further | done].
    + split; [| done]. intros _. exists id. split; [apply list_elem_of_here | done].
Qed.

(** The ids marked are ids of the selection, or 'undefined'. *)
Lemma marked_plain (sel : list string) (k : nat) (results : list settled) :
  (∀ id, id ∈ sel → plain_id id = true) →
  ∀ id, id ∈ marked sel k results → plain_id id = true.
Proof.
  intros Hsel. revert k. induction results as [|r results IH]; intros k id Hid.
  - by apply elem_of_nil in Hid.
  - cbn [marked] in Hid. destruct (succeeded r); [| by eapply IH].
    apply elem_of_cons in Hid as [->|Hid]; [| by eapply IH].
    destruct (sel !! k) as [x|] eqn:Hx; simpl; [| reflexivity].
    apply Hsel. by eapply list_elem_of_lookup_2.
Qed.

Lemma resume_spec (results : list settled) (p : page) :
  (∀ id, id ∈ selectedThreats p → plain_id id = true) →
  let ids := marked (selectedThreats p) 0 results in
  let p' := bulkQuarantine_resume crafted results p in
  rows p' = foldl (λ m id, alter quarantined_row id m) (rows p) ids
  ∧ requests p' = requests p
  ∧ toasts p'
    = toasts p ++ report (successes results) (length results - successes results)
               ++ closing p
  ∧ selectedThreats p' = [].
Proof.
  intros Hplain ids p'. subst p'. unfold bulkQuarantine_resume.
  rewrite tally_spec by (by apply marked_plain). fold ids.
  unfold report, closing, bulk_failed.
  destruct (Nat.ltb 0 (0 + successes results)) eqn:H1;
    destruct (Nat.ltb 0 (0 + (length results - successes results))) eqn:H2;
    simpl in H1, H2; rewrite H1, H2;
    destruct (selectAllCheckbox p) eqn:Hc; simpl; rewrite ?Hc; simpl;
    rewrite ?app_nil_r, <- ?app_assoc; done.
Qed.

Lemma begin_spec (p : page) :
  selectedThreats p ≠ [] →
  ∃ p1, bulkQuarantine_begin true p = (p1, Some (selectedThreats p))
    ∧ selectedThreats p1 = selectedThreats p ∧ rows p1 = rows p ∧ toasts p1 = toasts p
    ∧ selectAllCheckbox p1 = selectAllCheckbox p
    ∧ requests p1 = requests p ++ (url_of <$> selectedThreats p).
Proof.
  intros Hne. unfold bulkQuarantine_begin.
  destruct (Nat.eqb (length (selectedThreats p)) 0) eqn:He.
  { apply Nat.eqb_eq in He. by apply nil_length_inv in He. }
  cbn [negb]. eexists. split; [reflexivity |].
  by rewrite foldl_send.
Qed.

End Bulk.

(** C4, as the code has it. A bulk quarantine that the user confirms
    sends one request per selected id, whatever becomes of the others. It
    goes on only when every request has settled: it never returns exactly
    when some request never settles. It resumes on the page as the
    handlers that ran meanwhile have left it, and reads the selection
    anew there. When every id then selected can stand in a selector as it
    is, the call returns, and the rows marked quarantined, for good, are
    those of the ids that then sit at the positions of the accepted
    requests: the ids whose request was accepted when the selection is
    still the one the requests were sent for. The other rows are as they
    were, and what is reported is the number of accepted requests and the
    number of the others, which add up to the number of ids requested; no
    reason of a failure is kept. *)
Theorem bulk_quarantine_settles_all
    (crafted : string → string → gmap string Threats.row → outcome (gmap string Threats.row))
    (server : string → Threats.fetch_result) (meanwhile : Threats.page → Threats.page)
    (p : Threats.page) :
  Threats.selectedThreats p ≠ [] →
  let sel := Threats.selectedThreats p in
  let waiting := (Threats.bulkQuarantine_begin true p).1 in
  let resumed := meanwhile waiting in
  let won := List.filter (λ id, accepted (server id)) sel in
  (∀ id, id ∈ Threats.selectedThreats resumed → Threats.plain_id id = true) →
  Threats.requests waiting = Threats.requests p ++ (Threats.url_of <$> sel)
  ∧ (Threats.bulkQuarantine crafted true server meanwhile p = None
     ↔ ∃ id, id ∈ sel ∧ server id = Threats.Unsettled)
  ∧ (∀ p', Threats.bulkQuarantine crafted true server meanwhile p = Some p' →
       ∃ results,
         Threats.allSettled (server <$> sel) = Some results
         ∧ (∀ id, id ∈ marked (Threats.selectedThreats resumed) 0 results →
                  Threats.rows p' !! id = quarantined_row <$> Threats.rows resumed !! id)
         ∧ (∀ id, id ∉ marked (Threats.selectedThreats resumed) 0 results →
                  Threats.rows p' !! id = Threats.rows resumed !! id)
         ∧ (Threats.selectedThreats resumed = sel →
            marked (Threats.selectedThreats resumed) 0 results = won)
         ∧ Threats.requests p' = Threats.requests resumed
         ∧ Threats.toasts p'
           = Threats.toasts resumed
             ++ report (length won) (length sel - length won) ++ closing resumed
         ∧ (length won + (length sel - length won) = length sel)%nat).
Proof.
  intros Hne sel waiting resumed won. subst waiting resumed.
  destruct (begin_spec p Hne) as (p1 & Hb & Hsel & Hrows & Htoasts & Hbox & Hreq).
  rewrite Hb. cbn [fst]. intros Hplain.
  split; [done |].
  unfold Threats.bulkQuarantine. rewrite Hb. fold sel. split.
  - rewrite <- (allSettled_None server sel).
    destruct (Threats.allSettled (server <$> sel)); split; done.
  - intros p' H.
    destruct (Threats.allSettled (server <$> sel)) as [results|] eqn:Hr; [| done].
    injection H as <-. exists results. split; [done |].
    destruct (allSettled_Some server sel results Hr) as [Hlen Hwon].
    pose proof (allSettled_successes server sel results Hr) as Hsucc. fold won in Hsucc.
    destruct (resume_spec crafted results (meanwhile p1) Hplain) as (R1 & R2 & R3 & _).
    rewrite Hsucc, Hlen in R3.
    split; [| split; [| split; [| split; [done | split; [done |]]]]].
    + intros id Hid. by rewrite R1, mark_all_lookup, decide_True.
    + intros id Hid. by rewrite R1, mark_all_lookup, decide_False.
    + intros ->. rewrite marked_winners by (simpl; lia). by rewrite drop_0.
    + assert (length won ≤ length sel)%nat; [| lia].
      rewrite <- Hsucc, <- Hlen. apply successes_le.
Qed.

Lemma bulk_quarantine_settles_all_witness :
  ∃ p', Threats.bulkQuarantine rejects_selector true refuses_12 nothing_meanwhile
          (threats_page ["11"; "12"]) = Some p'
    ∧ Threats.toasts p'
      = [("1 threat(s) quarantined successfully!", "success");
         ("1 threat(s) failed to quarantine.", "warning")]
    ∧ Threats.dataset_status <$> Threats.rows p' !! "11" = Some "quarantined"
    ∧ Threats.dataset_status <$> Threats.rows p' !! "12" = Some "active".
Proof.
  pose (p' := default (threats_page [])
                (Threats.bulkQuarantine rejects_selector true refuses_12 nothing_meanwhile
                   (threats_page ["11"; "12"]))).
  assert (Hne : Threats.selectedThreats (threats_page ["11"; "12"]) ≠ []) by discriminate.
  assert (Hplain : ∀ id,
             id ∈ Threats.selectedThreats
                    (nothing_meanwhile
                       (Threats.bulkQuarantine_begin true (threats_page ["11"; "12"])).1) →
             Threats.plain_id id = true).
  { intros id Hid. vm_compute in Hid.
    apply elem_of_cons in Hid as [->|Hid]; [reflexivity |].
    apply list_elem_of_singleton in Hid as ->. reflexivity. }
  destruct (bulk_quarantine_settles_all rejects_selector refuses_12 nothing_meanwhile
              (threats_page ["11"; "12"]) Hne Hplain) as (_ & _ & H).
  destruct (H p') as (results & Hr & H2 & H3 & _ & _ & H4 & _); [vm_compute; reflexivity |].
  assert (results = [Threats.SFulfilled true; Threats.SFulfilled false]) as ->.
  { vm_compute in Hr. by injection Hr. }
  exists p'. split; [vm_compute; reflexivity |].
  split; [exact H4 |]. split.
  - rewrite (H2 "11"); [vm_compute; reflexivity |]. vm_compute. apply list_elem_of_here.
  - rewrite (H3 "12"); [vm_compute; reflexivity |].
    vm_compute. intros Hin. apply list_elem_of_singleton in Hin. discriminate.
Defined.

(** C4 fails as stated: a request that is rejected and a request that is
    answered with an error status leave the page in the same state, and
    all that is reported of the failure is a count. *)
Lemma failure_reason_not_kept :
  Threats.bulkQuarantine rejects_selector true (λ _, Threats.Rejected "Failed to fetch")
    nothing_meanwhile (threats_page ["12"])
  = Threats.bulkQuarantine rejects_selector true (λ _, Threats.Fulfilled false)
      nothing_meanwhile (threats_page ["12"])
  ∧ Threats.toasts
      <$> Threats.bulkQuarantine rejects_selector true (λ _, Threats.Rejected "Failed to fetch")
            nothing_meanwhile (threats_page ["12"])
    = Some [("1 threat(s) failed to quarantine.", "warning")].
Proof. vm_compute. done. Qed.

(** C6, as the code has it. With nothing selected the bulk quarantine
    does not fail: it stops at its guard, shows the warning 'No threats
    selected for quarantine.' and returns as any call that ends well
    does, whatever the user or the server would have answered. It asks
    for no confirmation, sends no request, logs no error, and leaves
    every row and every other part of the page as it was. *)
Theorem empty_selection_refused
    (crafted : string → string → gmap string Threats.row → outcome (gmap string Threats.row))
    (confirmation : bool) (server : string → Threats.fetch_result)
    (meanwhile : Threats.page → Threats.page) (p : Threats.page) :
  Threats.selectedThreats p = [] →
  let refused := Threats.showToast "No threats selected for quarantine." "warning" p in
  Threats.bulkQuarantine crafted confirmation server meanwhile p = Some refused
  ∧ Threats.bulkQuarantine_begin confirmation p = (refused, None)
  ∧ Threats.toasts refused
    = Threats.toasts p ++ [("No threats selected for quarantine.", "warning")]
  ∧ Threats.requests refused = Threats.requests p
  ∧ Threats.console refused = Threats.console p
  ∧ Threats.rows refused = Threats.rows p
  ∧ Threats.loadingOverlay refused = Threats.loadingOverlay p
  ∧ Threats.selectedThreats refused = [].
Proof.
  intros Hsel refused. unfold Threats.bulkQuarantine, Threats.bulkQuarantine_begin.
  rewrite Hsel. simpl. done.
Qed.

Lemma empty_selection_refused_witness :
  Threats.bulkQuarantine rejects_selector true refuses_12 nothing_meanwhile (threats_page [])
  = Some (Threats.showToast "No threats selected for quarantine." "warning" (threats_page []))
  ∧ Threats.requests
      (Threats.showToast "No threats selected for quarantine." "warning" (threats_page []))
    = [].
Proof.
  destruct (empty_selection_refused rejects_selector true refuses_12 nothing_meanwhile
              (threats_page []) eq_refl)
    as (H1 & _ & _ & H4 & _).
  split; [exact H1 | exact H4].
Defined.

(** C6 fails as stated: the call on an empty selection ends as a call
    that the user declines at the dialog does, by returning; the only
    trace of the empty selection is a toast of type warning, and no error
    is thrown, logged or handed to the caller. *)
Lemma empty_selection_is_no_error :
  Threats.bulkQuarantine rejects_selector true refuses_12 nothing_meanwhile (threats_page [])
  = Some (Threats.showToast "No threats selected for quarantine." "warning" (threats_page []))
  ∧ Threats.bulkQuarantine rejects_selector false refuses_12 nothing_meanwhile
      (threats_page ["11"])
    = Some (threats_page ["11"])
  ∧ Threats.console
      <$> Threats.bulkQuarantine rejects_selector true refuses_12 nothing_meanwhile
            (threats_page [])
    = Some []
  ∧ Threats.toasts
      <$> Threats.bulkQuarantine rejects_selector true refuses_12 nothing_meanwhile
            (threats_page [])
    = Some [("No threats selected for quarantine.", "warning")].
Proof. vm_compute. done. Qed.

(** * Further properties *)

(** ** Users of index.js *)

Lemma strict_eq_sym (a b : val) : strict_eq a b = strict_eq b a.
Proof.
  destruct a, b; simpl; try done.
  - by destruct b, b0.
  - apply Z.eqb_sym.
  - apply String.eqb_sym.
Qed.

Lemma find_none_elem {A} (p : A → bool) (l : list A) (x : A) :
  find p l = None → x ∈ l → p x = false.
Proof. intros H Hx. eapply find_none; [done | by apply list_elem_of_In]. Qed.

(** [find] gives the first element that passes, whatever follows it. *)
Lemma find_first {A} (p : A → bool) (l k : list A) (x : A) :
  (∀ y, y ∈ l → p y = false) → p x = true → find p (l ++ x :: k) = Some x.
Proof.
  intros Hl Hx. induction l as [|a l IH]; simpl.
  - unfold find. simpl. by rewrite Hx.
  - unfold find in *. simpl. rewrite (Hl a) by apply list_elem_of_here.
    apply IH. intros y Hy. apply Hl. by apply list_elem_of_further.
Qed.

Section IndexUsers.
Import Index.
Variable JSON_parse : string → option val.
Variable model_name : val → Z → string.

(** What an event does to the users: nothing, or one more at the end,
    of an email that no earlier user has. *)
Lemma step_users (e : event) (s : state) :
  users (step JSON_parse model_name e s).2 = users s
  ∨ ∃ u, users (step JSON_parse model_name e s).2 = users s ++ [u]
         ∧ ∀ v, v ∈ users s → strict_eq (field v "email") (field u "email") = false.
Proof.
  destruct e; simpl; try (by left).
  - unfold signup. destruct (find _ (users s)) eqn:Hf; simpl; [by left |].
    right. eexists. split; [done |]. intros v Hv.
    pose proof (find_none_elem _ _ v Hf Hv) as H. simpl in H.
    match goal with |- strict_eq _ ?x = _ =>
      assert (He : x = field req_body "email") by (unfold field at 1; by simplify_map_eq)
    end.
    by rewrite He.
  - unfold login. destruct (find _ _); by left.
  - unfold get_active_model. destruct (find _ _); by left.
  - unfold mutate. destruct (fileAnalyses s !! ref); by left.
  - unfold mutate. destruct (fileAnalyses s !! ref); by left.
  - unfold get_analysis. destruct (find _ _); by left.
  - unfold on_training_stdout. destruct (JSON_parse data); [| by left].
    repeat destruct (property _ _); by left.
Qed.

Lemma run_cons (e : event) (es : list event) (s : state) :
  run JSON_parse model_name (e :: es) s
  = run JSON_parse model_name es (step JSON_parse model_name e s).2.
Proof. done. Qed.

Lemma run_app (es es' : list event) (s : state) :
  run JSON_parse model_name (es ++ es') s
  = run JSON_parse model_name es' (run JSON_parse model_name es s).
Proof. unfold run. apply foldl_app. Qed.

Lemma run_users_prefix (es : list event) (s : state) :
  ∃ more, users (run JSON_parse model_name es s) = users s ++ more.
Proof.
  revert s. induction es as [|e es IH]; intros s.
  - exists []. simpl. by rewrite app_nil_r.
  - rewrite run_cons. destruct (IH (step JSON_parse model_name e s).2) as [more Hm].
    rewrite Hm.
    destruct (step_users e s) as [-> | (u & -> & _)]; [by eauto |].
    exists (u :: more). by rewrite <- app_assoc.
Qed.

Lemma distinct_emails_snoc (us : list obj) (u : obj) :
  distinct_emails us →
  (∀ v, v ∈ us → strict_eq (field v "email") (field u "email") = false) →
  distinct_emails (us ++ [u]).
Proof.
  intros Hd Hu i j a b Hij Ha Hb.
  destruct (decide (j < length us)%nat) as [Hj|Hj].
  - rewrite lookup_app_l in Ha by lia. rewrite lookup_app_l in Hb by lia.
    exact (Hd i j a b Hij Ha Hb).
  - assert (j = length us) as ->.
    { apply lookup_lt_Some in Hb. rewrite length_app in Hb. simpl in Hb. lia. }
    rewrite lookup_app_l in Ha by lia.
    rewrite lookup_app_r, Nat.sub_diag in Hb by lia. simplify_eq/=.
    apply Hu. by eapply list_elem_of_lookup_2.
Qed.

Lemma run_distinct_emails (es : list event) (s : state) :
  distinct_emails (users s) → distinct_emails (users (run JSON_parse model_name es s)).
Proof.
  revert s. induction es as [|e es IH]; intros s H; [done |].
  rewrite run_cons. apply IH.
  destruct (step_users e s) as [-> | (u & -> & Hu)]; [done |].
  by apply distinct_emails_snoc.
Qed.

End IndexUsers.

Lemma strict_eq_self (a b : val) : strict_eq a b = true → strict_eq b b = true.
Proof.
  destruct a as [| | |x|x|x|x|x|x], b as [| | |y|y|y|y|y|y]; simpl; try done; intros _.
  - by destruct y.
  - apply Z.eqb_refl.
  - apply String.eqb_refl.
Qed.

(** X1. Whatever requests and process events index.js has served, no
    two of its users have emails that [===] finds equal: a signup with
    such an email is refused, and nothing else adds a user. So no two
    users have the same email when it is a string, a number, a boolean,
    null or undefined. An email that [===] does not find equal to itself
    (an array or an object of the request body) is never refused: such a
    signup always succeeds, and two users can carry the same one. *)
Theorem index_emails_stay_distinct (JSON_parse : string → option val)
    (model_name : val → Z → string) (es : list Index.event) :
  let s := Index.run JSON_parse model_name es Index.init in
  distinct_emails (Index.users s)
  ∧ (∀ i j u v, i ≠ j → Index.users s !! i = Some u → Index.users s !! j = Some v →
       self_equal (field u "email") → field u "email" ≠ field v "email")
  ∧ (∀ now b,
       (∃ u, u ∈ Index.users s ∧ strict_eq (field u "email") (field b "email") = true) →
       Index.signup now b s = (Response 400 (BError "User already exists"), s))
  ∧ (∀ now b,
       strict_eq (field b "email") (field b "email") = false →
       code (Index.signup now b s).1 = 201
       ∧ ∃ u, Index.users (Index.signup now b s).2 = Index.users s ++ [u]
              ∧ field u "email" = field b "email").
Proof.
  intros s.
  assert (Hd : distinct_emails (Index.users s)).
  { apply run_distinct_emails. intros i j u v _ H. by destruct i. }
  split; [done |]. split; [| split].
  - intros i j u v Hij Hu Hv Hself Heq. unfold self_equal in Hself.
    destruct (decide (i < j)%nat) as [Hlt|Hge].
    + pose proof (Hd i j u v Hlt Hu Hv) as H. rewrite <- Heq in H. congruence.
    + assert (Hlt : (j < i)%nat) by lia.
      pose proof (Hd j i v u Hlt Hv Hu) as H. rewrite <- Heq in H. congruence.
  - intros now b (u & Hu & He). unfold Index.signup.
    destruct (find _ (Index.users s)) eqn:Hf; [done |].
    pose proof (find_none_elem _ _ u Hf Hu) as H. simpl in H. congruence.
  - intros now b Hb. unfold Index.signup.
    destruct (find _ (Index.users s)) as [u|] eqn:Hf.
    + apply find_some in Hf as [_ Hf]. apply strict_eq_self in Hf. congruence.
    + simpl. split; [done |]. eexists. split; [done |].
      unfold field at 1. by simplify_map_eq.
Qed.

Lemma index_emails_stay_distinct_witness :
  Index.signup 8 ada (Index.run sample_parse sample_name [Index.Signup 7 ada] Index.init)
  = (Response 400 (BError "User already exists"),
     Index.run sample_parse sample_name [Index.Signup 7 ada] Index.init).
Proof.
  destruct (index_emails_stay_distinct sample_parse sample_name [Index.Signup 7 ada])
    as (_ & _ & H & _).
  apply H.
  exists (default ∅ (Index.users
                      (Index.run sample_parse sample_name [Index.Signup 7 ada] Index.init)
                    !! 0%nat)).
  split; [apply list_elem_of_here | vm_compute; reflexivity].
Defined.

Lemma index_signup_created (now : Z) (b : obj) (s s1 : Index.state) (r : response) :
  Index.signup now b s = (r, s1) → code r = 201 →
  ∃ u, Index.users s1 = Index.users s ++ [u]
       ∧ json r = BUser (delete "password" u)
       ∧ field u "email" = field b "email"
       ∧ field u "password" = field b "password"
       ∧ ∀ v, v ∈ Index.users s → strict_eq (field v "email") (field b "email") = false.
Proof.
  unfold Index.signup. intros H Hc.
  destruct (find _ (Index.users s)) eqn:Hf; simplify_eq/=.
  eexists. split; [done |]. split; [done |].
  split; [unfold field at 1; by simplify_map_eq |].
  split; [unfold field at 1; by simplify_map_eq |].
  intros v Hv. apply (find_none_elem _ _ v Hf Hv).
Qed.

(** X2. In index.js, once a signup has succeeded, a login with the same
    email and password succeeds for ever after, whatever the server has
    done in between, and answers with the very user object the signup
    answered with. (The email and the password must be values that are
    equal to themselves, as strings are.) *)
Theorem index_login_after_signup (JSON_parse : string → option val)
    (model_name : val → Z → string) (es es' : list Index.event) (now : Z) (b : obj)
    (r : response) (s1 : Index.state) :
  Index.signup now b (Index.run JSON_parse model_name es Index.init) = (r, s1) →
  code r = 201 →
  self_equal (field b "email") → self_equal (field b "password") →
  let s2 := Index.run JSON_parse model_name es' s1 in
  Index.login b s2 = (Response 200 (json r), s2).
Proof.
  intros Hs Hc He Hp s2.
  destruct (index_signup_created _ _ _ _ _ Hs Hc) as (u & Hu & Hj & Hue & Hup & Hold).
  destruct (run_users_prefix JSON_parse model_name es' s1) as [more Hm].
  fold s2 in Hm. rewrite Hu, <- app_assoc in Hm. simpl in Hm.
  unfold Index.login. rewrite Hm, Hj.
  erewrite find_first; [done | |].
  - intros y Hy. simpl. by rewrite (Hold y Hy).
  - simpl. rewrite Hue, Hup. apply andb_true_iff. by split.
Qed.

Lemma index_login_after_signup_witness :
  let s1 := (Index.signup 7 ada Index.init).2 in
  let s2 := Index.run sample_parse sample_name one_job s1 in
  Index.login ada s2 = (Response 200 (json (Index.signup 7 ada Index.init).1), s2).
Proof.
  apply (index_login_after_signup sample_parse sample_name [] one_job 7 ada
           (Index.signup 7 ada Index.init).1 (Index.signup 7 ada Index.init).2);
    reflexivity.
Defined.

(** ** Analyses of index.js, by id *)

Lemma has_id_of (a : obj) (m n : Z) :
  id_of a = Some m → has_id (VNum n) a = Z.eqb m n.
Proof.
  unfold id_of, has_id, field. intros H.
  destruct (a !! "id") as [[]|]; by simplify_eq/=.
Qed.

(** Where ids grow, [find] by id gives the record that carries the id. *)
Lemma find_by_id (bound : Z) (l : list obj) (j : nat) (a : obj) (n : Z) :
  ids_grow_below bound l → l !! j = Some a → id_of a = Some n →
  find (has_id (VNum n)) l = Some a.
Proof.
  intros Hg Hj Hn.
  rewrite <- (take_drop_middle l j a Hj).
  apply find_first.
  - intros y Hy. apply list_elem_of_lookup_1 in Hy as [i Hi].
    assert (Hij : (i < j)%nat).
    { apply lookup_lt_Some in Hi. rewrite length_take in Hi. lia. }
    rewrite lookup_take_lt in Hi by done.
    destruct (Hg j (Some n)) as (m & Hm & _ & Hlt).
    { by rewrite list_lookup_fmap, Hj, <- Hn. }
    simplify_eq.
    destruct (Hg i (id_of y)) as (k & Hk & _); [by rewrite list_lookup_fmap, Hi |].
    rewrite (has_id_of y k m Hk). apply Z.eqb_neq.
    assert (k < m); [| lia]. apply (Hlt i); [done |].
    rewrite list_lookup_fmap, Hi. simpl. by rewrite Hk.
  - rewrite (has_id_of a n n Hn). apply Z.eqb_refl.
Qed.

Lemma ids_grow_below_more (bound bound' : Z) (l l' : list obj) :
  id_of <$> l' = id_of <$> l → (bound ≤ bound')%Z →
  ids_grow_below bound l → ids_grow_below bound' l'.
Proof.
  intros He Hb Hg j o Hj. rewrite He in Hj.
  destruct (Hg j o Hj) as (m & Hm & Hlt & Hi).
  exists m. split; [done |]. split; [lia |]. intros i n Hij Hn. rewrite He in Hn. eauto.
Qed.

Lemma ids_grow_below_snoc (bound : Z) (l : list obj) (a : obj) :
  id_of a = Some bound → ids_grow_below bound l → ids_grow_below (bound + 1) (l ++ [a]).
Proof.
  intros Ha Hg j o Hj. rewrite fmap_app in Hj. simpl in Hj.
  destruct (decide (j < length (id_of <$> l))%nat) as [Hlt|Hge].
  - rewrite lookup_app_l in Hj by done.
    destruct (Hg j o Hj) as (m & Hm & Hb & Hi).
    exists m. split; [done |]. split; [lia |]. intros i n Hij Hn.
    rewrite fmap_app, lookup_app_l in Hn by lia. eauto.
  - rewrite lookup_app_r in Hj by lia.
    destruct (j - length (id_of <$> l))%nat as [|k] eqn:Hk; simpl in Hj; [| done].
    simplify_eq. exists bound. split; [done |]. split; [lia |].
    intros i n Hij Hn. rewrite fmap_app, lookup_app_l in Hn by lia.
    destruct (Hg i (Some n) Hn) as (m & Hm & Hb & _). by simplify_eq.
Qed.

Section IndexAnalyses.
Import Index.
Variable JSON_parse : string → option val.
Variable model_name : val → Z → string.

Lemma stdout_id (now : Z) (data : string) (a : obj) :
  id_of (on_stdout_data JSON_parse now data a) = id_of a.
Proof.
  unfold on_stdout_data, id_of. destruct (JSON_parse data); by simplify_map_eq.
Qed.

Lemma stderr_id (data : string) (a : obj) : id_of (on_stderr_data data a) = id_of a.
Proof. unfold on_stderr_data, id_of. by simplify_map_eq. Qed.

Lemma mutate_ids (ref : nat) (f : obj → obj) (s : state) :
  (∀ a, id_of (f a) = id_of a) →
  id_of <$> fileAnalyses (mutate ref f s) = id_of <$> fileAnalyses s.
Proof.
  intros Hf. rewrite mutate_records.
  destruct (fileAnalyses s !! ref) as [a|] eqn:Ha; [| done].
  rewrite list_fmap_insert. apply list_insert_id.
  by rewrite list_lookup_fmap, Ha, Hf.
Qed.

Lemma step_counter (e : event) (s : state) :
  (nextId s ≤ nextId (step JSON_parse model_name e s).2)%Z.
Proof.
  destruct e; simpl; try lia.
  - unfold signup. destruct (find _ _); simpl; lia.
  - unfold login. destruct (find _ _); simpl; lia.
  - unfold get_active_model. destruct (find _ _); simpl; lia.
  - unfold mutate. destruct (fileAnalyses s !! ref); simpl; lia.
  - unfold mutate. destruct (fileAnalyses s !! ref); simpl; lia.
  - unfold get_analysis. destruct (find _ _); simpl; lia.
  - unfold on_training_stdout. destruct (JSON_parse data); [| lia].
    repeat destruct (property _ _); simpl; lia.
Qed.

(** What an event does to the ids of the analyses: nothing, or one more
    at the end, which is the counter. *)
Lemma step_analysis_ids (e : event) (s : state) :
  id_of <$> fileAnalyses (step JSON_parse model_name e s).2 = id_of <$> fileAnalyses s
  ∨ ∃ a, fileAnalyses (step JSON_parse model_name e s).2 = fileAnalyses s ++ [a]
         ∧ id_of a = Some (nextId s)
         ∧ nextId (step JSON_parse model_name e s).2 = nextId s + 1.
Proof.
  pose proof (step_records JSON_parse model_name e s) as Hr.
  destruct e; try (left; by rewrite Hr).
  - right. rewrite Hr. destruct (analyze_records now req_body s) as (a & Ha & _ & Hid).
    exists a. done.
  - left. rewrite Hr. apply mutate_ids. intros a. apply stdout_id.
  - left. rewrite Hr. apply mutate_ids. intros a. apply stderr_id.
Qed.

Lemma step_ids_grow (e : event) (s : state) :
  ids_grow_below (nextId s) (fileAnalyses s) →
  ids_grow_below (nextId (step JSON_parse model_name e s).2)
                 (fileAnalyses (step JSON_parse model_name e s).2).
Proof.
  intros H. destruct (step_analysis_ids e s) as [He | (a & -> & Ha & ->)].
  - eapply ids_grow_below_more; [done | apply step_counter | done].
  - by apply ids_grow_below_snoc.
Qed.

Lemma run_ids_grow (es : list event) (s : state) :
  ids_grow_below (nextId s) (fileAnalyses s) →
  ids_grow_below (nextId (run JSON_parse model_name es s))
                 (fileAnalyses (run JSON_parse model_name es s)).
Proof.
  revert s. induction es as [|e es IH]; intros s H; [done |].
  rewrite run_cons. apply IH. by apply step_ids_grow.
Qed.

Lemma run_analysis_ids_prefix (es : list event) (s : state) :
  ∃ more, id_of <$> fileAnalyses (run JSON_parse model_name es s)
          = (id_of <$> fileAnalyses s) ++ more.
Proof.
  revert s. induction es as [|e es IH]; intros s.
  - exists []. simpl. by rewrite app_nil_r.
  - rewrite run_cons. destruct (IH (step JSON_parse model_name e s).2) as [more Hm].
    rewrite Hm. destruct (step_analysis_ids e s) as [-> | (a & -> & Ha & _)]; [by eauto |].
    exists (id_of a :: more). rewrite fmap_app, <- app_assoc. done.
Qed.

End IndexAnalyses.

Lemma analyze_answer (now : Z) (b : obj) (s : Index.state) :
  ∃ a, (Index.analyze now b s).1 = Response 201 (BObj a)
       ∧ Index.fileAnalyses (Index.analyze now b s).2 = Index.fileAnalyses s ++ [a]
       ∧ id_of a = Some (Index.nextId s).
Proof.
  eexists. split; [reflexivity |]. split; [reflexivity |].
  unfold id_of. by simplify_map_eq.
Qed.

(** X3. In index.js, the id that POST /api/analyze answers with finds
    that job for ever after: whatever the server does next, GET
    /api/analyze/:id with that id answers 200 with the record of that
    very job as it is then, never with another job's and never 404. *)
Theorem index_analysis_found_by_id (JSON_parse : string → option val)
    (model_name : val → Z → string) (es es' : list Index.event) (now : Z) (b : obj) :
  let s0 := Index.run JSON_parse model_name es Index.init in
  let s2 := Index.run JSON_parse model_name es' (Index.analyze now b s0).2 in
  ∃ a0 a, (Index.analyze now b s0).1 = Response 201 (BObj a0)
    ∧ id_of a0 = Some (Index.nextId s0)
    ∧ record_at (length (Index.fileAnalyses s0)) s2 = Some a
    ∧ id_of a = Some (Index.nextId s0)
    ∧ Index.get_analysis (Some (Index.nextId s0)) s2 = (Response 200 (BObj a), s2).
Proof.
  intros s0 s2.
  destruct (analyze_answer now b s0) as (a0 & Hr & Hfa & Hid0).
  exists a0.
  assert (Hg0 : ids_grow_below (Index.nextId s0) (Index.fileAnalyses s0)).
  { apply run_ids_grow. intros j o Hj. by destruct j. }
  assert (Hg2 : ids_grow_below (Index.nextId s2) (Index.fileAnalyses s2)).
  { apply run_ids_grow. rewrite Hfa.
    change (Index.nextId (Index.analyze now b s0).2) with (Index.nextId s0 + 1).
    by apply ids_grow_below_snoc. }
  destruct (run_analysis_ids_prefix JSON_parse model_name es' (Index.analyze now b s0).2)
    as [more Hm].
  fold s2 in Hm. rewrite Hfa, fmap_app, <- app_assoc in Hm. simpl in Hm.
  assert (Hl : (id_of <$> Index.fileAnalyses s2) !! length (Index.fileAnalyses s0)
               = Some (Some (Index.nextId s0))).
  { rewrite Hm, lookup_app_r by (rewrite length_fmap; lia).
    rewrite length_fmap, Nat.sub_diag. simpl. by rewrite Hid0. }
  rewrite list_lookup_fmap in Hl. unfold record_at.
  destruct (Index.fileAnalyses s2 !! length (Index.fileAnalyses s0)) as [a|] eqn:Ha;
    [| done].
  simpl in Hl. exists a. split; [done |]. split; [done |]. split; [done |].
  split; [congruence |].
  unfold Index.get_analysis. simpl.
  erewrite find_by_id; [done | exact Hg2 | exact Ha | congruence].
Qed.

(** ** The active model of index.js *)

Section IndexModels.
Import Index.
Variable JSON_parse : string → option val.
Variable model_name : val → Z → string.

Lemma step_models (e : event) (s : state) :
  mlModels (step JSON_parse model_name e s).2 = mlModels s
  ∨ ∃ m, mlModels (step JSON_parse model_name e s).2
         = (<["isActive" := VBool false]> <$> mlModels s) ++ [m]
         ∧ field m "isActive" = VBool true.
Proof.
  destruct e; simpl; try (by left).
  - unfold signup. destruct (find _ _); by left.
  - unfold login. destruct (find _ _); by left.
  - unfold get_active_model. destruct (find _ _); by left.
  - unfold mutate. destruct (fileAnalyses s !! ref); by left.
  - unfold mutate. destruct (fileAnalyses s !! ref); by left.
  - unfold get_analysis. destruct (find _ _); by left.
  - unfold on_training_stdout. destruct (JSON_parse data); [| by left].
    repeat (destruct (property _ _); [| by left]).
    right. eexists. split; [done |]. unfold field. by simplify_map_eq.
Qed.

Lemma step_last_is_active (e : event) (s : state) :
  last_is_active (mlModels s) → last_is_active (mlModels (step JSON_parse model_name e s).2).
Proof.
  intros H. destruct (step_models e s) as [-> | (m & -> & Hm)]; [done |].
  right. eexists _, m. split; [done |]. split; [| done].
  apply Forall_fmap, Forall_forall. intros x _. simpl. apply field_insert_eq.
Qed.

Lemma run_last_is_active (es : list event) (s : state) :
  last_is_active (mlModels s) → last_is_active (mlModels (run JSON_parse model_name es s)).
Proof.
  revert s. induction es as [|e es IH]; intros s H; [done |].
  rewrite run_cons. apply IH. by apply step_last_is_active.
Qed.

End IndexModels.

(** X4. Whatever index.js has served, at most one model is active and it
    is the one trained last: every other model has been set inactive. So
    GET /api/models/active answers with the model trained last, and with
    null exactly when no model has been trained. *)
Theorem index_active_model_is_latest (JSON_parse : string → option val)
    (model_name : val → Z → string) (es : list Index.event) :
  let s := Index.run JSON_parse model_name es Index.init in
  last_is_active (Index.mlModels s)
  ∧ (Index.get_active_model s).1
    = Response 200 (from_option BObj BNull (last (Index.mlModels s))).
Proof.
  intros s.
  assert (H : last_is_active (Index.mlModels s)) by (apply run_last_is_active; by left).
  split; [done |]. unfold Index.get_active_model.
  destruct H as [-> | (l & m & -> & Hl & Hm)]; [done |].
  rewrite last_snoc. simpl. erewrite (find_first _ l []); [done | |].
  - intros y Hy. rewrite Forall_forall in Hl. by rewrite (Hl y Hy).
  - by rewrite Hm.
Qed.

(** ** Ids that are not numbers *)

Lemma strict_eq_NaN (v : val) : strict_eq v VNaN = false.
Proof. by destruct v. Qed.

Lemma find_never {A} (p : A → bool) (l : list A) : (∀ x, p x = false) → find p l = None.
Proof. intros H. unfold find. induction l as [|a l IH]; simpl; [done |]. by rewrite H. Qed.

Lemma findIndex_never {A} (p : A → bool) (l : list A) :
  (∀ x, p x = false) → findIndex p l = None.
Proof. intros H. induction l as [|a l IH]; simpl; [done |]. by rewrite H, IH. Qed.

(** X5. A path parameter that is not a number never finds anything:
    GET /api/analyze/:id and GET /analyze/:id answer 404, and PATCH
    /threats/:id answers 404 and leaves the store as it was, whatever the
    store holds and whatever the patch. *)
Theorem non_numeric_id_not_found (si : Index.state) (sr : Router.state) (b : obj) :
  Index.get_analysis None si = (Response 404 (BError "Analysis not found"), si)
  ∧ Router.get_analysis None sr = (Response 404 (BError "Analysis not found"), sr)
  ∧ Router.patch_threat None b sr = (Response 404 (BError "Threat not found"), sr).
Proof.
  assert (H : ∀ x : obj, has_id (parsed None) x = false).
  { intros x. apply strict_eq_NaN. }
  repeat split.
  - unfold Index.get_analysis. by rewrite find_never.
  - unfold Router.get_analysis, Storage.getFileAnalysisById. by rewrite find_never.
  - unfold Router.patch_threat, Storage.updateThreatDetection. by rewrite findIndex_never.
Qed.

(** ** Users of the router *)



Lemma createUser_fields (now : Z) (userData : obj) (st : Storage.MemStorage) (k : string) :
  k ≠ "id" → k ≠ "createdAt" →
  field (Storage.createUser now userData st).1 k = field userData k.
Proof.
  intros H1 H2. unfold Storage.createUser, field. simpl.
  rewrite lookup_insert_ne by done. rewrite spread_lookup.
  destruct (userData !! k); [done |]. by rewrite lookup_singleton_ne.
Qed.

Section RouterUsers.
Import Storage Router RouterRun.
Variables us ts fs : obj → option obj.



Lemma signup_whole (now : Z) (b : obj) (s : Router.state) :
  signup us now b s
  = match signup_check us b s with
    | inl r => (r, s)
    | inr userData => signup_create now userData s
    end.
Proof.
  unfold signup, signup_check, signup_create.
  destruct (us b); [| done]. by destruct (getUserByEmail _ _).
Qed.





End RouterUsers.



(** X22. Two signups in flight. The checks of two signups with the same
    email both pass, neither handler having gone on to create its user;
    then both go on. Both are answered 201 and the store holds two users
    of that email. A login with the email and the password of the one
    created first succeeds; a login with those of the one created second
    finds the other user, and is refused with 401 when the two passwords
    differ. *)
Theorem signups_in_flight (us : obj → option obj) (now1 now2 : Z)
    (b1 b2 login1 login2 userData1 userData2 : obj) (s : Router.state) :
  Router.signup_check us b1 s = inr userData1 →
  Router.signup_check us b2 s = inr userData2 →
  field userData2 "email" = field userData1 "email" →
  self_equal (field userData1 "email") →
  self_equal (field userData1 "password") →
  field login1 "email" = field userData1 "email" →
  field login1 "password" = field userData1 "password" →
  field login2 "email" = field userData2 "email" →
  field login2 "password" = field userData2 "password" →
  strict_eq (field userData1 "password") (field userData2 "password") = false →
  let first := Router.signup_create now1 userData1 s in
  let second := Router.signup_create now2 userData2 first.2 in
  (∃ u1 u2,
     Storage.users (Router.storage second.2)
     = Storage.users (Router.storage s) ++ [u1; u2]
     ∧ field u1 "email" = field u2 "email"
     ∧ first.1 = Response 201 (BUser (delete "password" u1))
     ∧ second.1 = Response 201 (BUser (delete "password" u2))
     ∧ Router.login login1 second.2 = (Response 200 (BUser (delete "password" u1)), second.2))
  ∧ Router.login login2 second.2
    = (Response 401 (BError "Invalid email or password"), second.2).
Proof.
  intros Hcheck1 Hcheck2 Hemail Hself Hselfp Hl1e Hl1p Hl2e Hl2p Hpw first second.
  unfold Router.signup_check in Hcheck1.
  destruct (us b1) as [d1|] eqn:Hud1; [| done].
  destruct (Storage.getUserByEmail (field d1 "email") (Router.storage s)) eqn:Hnone;
    [done |].
  injection Hcheck1 as ->.
  set (u1 := (Storage.createUser now1 userData1 (Router.storage s)).1).
  set (u2 := (Storage.createUser now2 userData2 (Router.storage first.2)).1).
  assert (Husers : Storage.users (Router.storage second.2)
                   = Storage.users (Router.storage s) ++ [u1; u2]).
  { subst second first u1 u2. cbn. by rewrite <- app_assoc. }
  assert (H1 : first.1 = Response 201 (BUser (delete "password" u1))) by done.
  assert (H2 : second.1 = Response 201 (BUser (delete "password" u2))) by done.
  assert (He1 : field u1 "email" = field userData1 "email").
  { subst u1. by rewrite createUser_fields. }
  assert (He2 : field u2 "email" = field userData1 "email").
  { subst u2. by rewrite createUser_fields, Hemail. }
  assert (Hp1 : field u1 "password" = field userData1 "password").
  { subst u1. by rewrite createUser_fields. }
  assert (Hfind : ∀ email, email = field userData1 "email" →
            Storage.getUserByEmail email (Router.storage second.2) = Some u1).
  { intros email ->. unfold Storage.getUserByEmail. rewrite Husers.
    apply (find_first _ _ [u2]).
    - intros y Hy. apply (find_none_elem _ _ y Hnone Hy).
    - change (strict_eq (field u1 "email") (field userData1 "email") = true).
      rewrite He1. exact Hself. }
  clearbody u1 u2 second first.
  split.
  - exists u1, u2. split; [done |].
    split; [by rewrite He1, He2 |]. split; [done |]. split; [done |].
    unfold Router.login. rewrite (Hfind _ Hl1e), Hp1, Hl1p.
    unfold self_equal in Hselfp. by rewrite Hselfp.
  - unfold Router.login.
    rewrite (Hfind (field login2 "email")) by (by rewrite Hl2e, Hemail).
    by rewrite Hp1, Hl2p, Hpw.
Qed.

Lemma signups_in_flight_witness :
  Router.login (<["password" := VStr "0ther"]> ada)
    (Router.signup_create 9 (<["password" := VStr "0ther"]> ada)
       (Router.signup_create 8 ada Router.init).2).2
  = (Response 401 (BError "Invalid email or password"),
     (Router.signup_create 9 (<["password" := VStr "0ther"]> ada)
        (Router.signup_create 8 ada Router.init).2).2).
Proof.
  apply (signups_in_flight Some 8 9 ada (<["password" := VStr "0ther"]> ada)
           ada (<["password" := VStr "0ther"]> ada) ada
           (<["password" := VStr "0ther"]> ada) Router.init);
    reflexivity.
Defined.

(** ** Analyses of the router and their timers *)




Section RouterAnalyses.
Import Storage Router RouterRun.
Variables us ts fs : obj → option obj.








End RouterAnalyses.

(** ** The path of a status *)




(** ** Reading a job, whatever happens in between *)

Section IndexReads.
Import Index.
Variable JSON_parse : string → option val.
Variable model_name : val → Z → string.



End IndexReads.






(** ** Patches of a threat *)

Lemma has_id_spread (id : val) (old u : obj) :
  u !! "id" = None → has_id id (spread old u) = has_id id old.
Proof. intros H. unfold has_id, field. by rewrite spread_keeps. Qed.

Lemma spread_spread (old u1 u2 : obj) :
  spread (spread old u1) u2 = spread old (spread u1 u2).
Proof. unfold spread. by rewrite (assoc_L (∪)). Qed.

(** X8. Two patches of a threat, one after the other, amount to one
    patch with the two merged, the second winning where both name a
    property, as long as the first leaves the id alone; and a patch
    changes nothing but the threat found: the other threats, the other
    collections and the counter stay as they were. *)
Theorem patches_compose (id : val) (u1 u2 t1 : obj) (st st1 : Storage.MemStorage) :
  u1 !! "id" = None →
  Storage.updateThreatDetection id u1 st = Ok (t1, st1) →
  Storage.updateThreatDetection id u2 st1
  = Storage.updateThreatDetection id (spread u1 u2) st
  ∧ ∃ i old, Storage.threatDetections st !! i = Some old
      ∧ t1 = spread old u1
      ∧ Storage.threatDetections st1 = <[i := t1]> (Storage.threatDetections st)
      ∧ Storage.users st1 = Storage.users st
      ∧ Storage.mlModels st1 = Storage.mlModels st
      ∧ Storage.fileAnalyses st1 = Storage.fileAnalyses st
      ∧ Storage.nextId st1 = Storage.nextId st.
Proof.
  intros Hid H1.
  destruct (findIndex (has_id id) (Storage.threatDetections st)) as [i|] eqn:Hf;
    [| by rewrite (updateThreatDetection_missing _ _ _ Hf) in H1].
  destruct (updateThreatDetection_found id u1 st i Hf) as (old & Hi & Hp & Hu1).
  rewrite Hu1 in H1. simplify_eq. split.
  - destruct (updateThreatDetection_found id (spread u1 u2) st i Hf) as (old' & Hi' & _ & ->).
    simplify_eq.
    assert (Hf1 : findIndex (has_id id)
                    (Storage.threatDetections
                       (Storage.Mem (Storage.users st)
                          (<[i := spread old u1]> (Storage.threatDetections st))
                          (Storage.mlModels st) (Storage.fileAnalyses st)
                          (Storage.nextId st))) = Some i).
    { simpl. apply findIndex_insert; [done |]. by rewrite has_id_spread. }
    destruct (updateThreatDetection_found id u2 _ i Hf1) as (o & Ho & _ & ->).
    simpl in Ho. rewrite list_lookup_insert_eq in Ho by (by eapply lookup_lt_Some).
    simplify_eq. simpl. by rewrite spread_spread, list_insert_insert_eq.
  - exists i, old. done.
Qed.

Lemma patches_compose_witness :
  Storage.updateThreatDetection (VNum 1) {["fileName" := VStr "renamed.exe"]}
    (with_quarantined one_active_threat 0
       (default ∅ (Storage.threatDetections one_active_threat !! 0%nat)))
  = Storage.updateThreatDetection (VNum 1)
      (spread quarantine_patch {["fileName" := VStr "renamed.exe"]}) one_active_threat.
Proof.
  refine (proj1 (patches_compose (VNum 1) quarantine_patch
                   {["fileName" := VStr "renamed.exe"]} _ one_active_threat _ _ _)).
  - reflexivity.
  - vm_compute. reflexivity.
Defined.

(** ** Records of the storage layer, by id *)

Lemma has_id_true (y : obj) (n : Z) : has_id (VNum n) y = true → id_of y = Some n.
Proof.
  unfold has_id, id_of, field. destruct (y !! "id") as [[]|]; simpl; try done.
  intros H. apply Z.eqb_eq in H. by subst.
Qed.

Lemma find_by_unique_id (l : list obj) (j : nat) (a : obj) (n : Z) :
  NoDup (id_of <$> l) → l !! j = Some a → id_of a = Some n →
  find (has_id (VNum n)) l = Some a.
Proof.
  intros Hnd Hj Hn. rewrite <- (take_drop_middle l j a Hj). apply find_first.
  - intros y Hy. apply list_elem_of_lookup_1 in Hy as [i Hi].
    assert (Hij : (i < j)%nat).
    { apply lookup_lt_Some in Hi. rewrite length_take in Hi. lia. }
    rewrite lookup_take_lt in Hi by done.
    destruct (has_id (VNum n) y) eqn:Hy; [| done].
    apply has_id_true in Hy.
    assert (i = j); [| lia].
    apply (NoDup_lookup (id_of <$> l) i j (Some n)); [done | |];
      rewrite list_lookup_fmap; [rewrite Hi | rewrite Hj]; simpl; congruence.
  - rewrite (has_id_of a n n Hn). apply Z.eqb_refl.
Qed.

(** X9. After any sequence of calls of the storage layer that keep ids,
    every stored user and every stored analysis is found by its own id:
    [getUserById] and [getFileAnalysisById] give back that very record,
    as it is stored. *)
Theorem stored_records_found_by_id (os : list Storage.op) :
  Forall keeps_ids os →
  let st := (Storage.calls os Storage.empty).2 in
  (∀ u, u ∈ Storage.users st →
        ∃ n, id_of u = Some n ∧ Storage.getUserById (VNum n) st = Some u)
  ∧ (∀ a, a ∈ Storage.fileAnalyses st →
        ∃ n, id_of a = Some n ∧ Storage.getFileAnalysisById (VNum n) st = Some a).
Proof.
  intros Hk st. destruct (calls_ids os Storage.empty Hk) as (H1 & _ & H3).
  fold st in H3. simpl in H3. rewrite app_nil_r, H1 in H3.
  assert (Hnd : NoDup (id_of <$> Storage.all_records st)).
  { rewrite H3. apply NoDup_fmap; [| apply NoDup_seqZ]. intros x y Hxy. by simplify_eq. }
  assert (Hsome : ∀ r, r ∈ Storage.all_records st → ∃ n, id_of r = Some n).
  { intros r Hr. apply (list_elem_of_fmap_2 id_of) in Hr. rewrite H3 in Hr.
    apply list_elem_of_fmap in Hr as (n & -> & _). by exists n. }
  unfold Storage.all_records in Hnd, Hsome. rewrite !fmap_app in Hnd.
  apply NoDup_app in Hnd as (Hu & _ & Hnd). apply NoDup_app in Hnd as (_ & _ & Hnd).
  apply NoDup_app in Hnd as (_ & _ & Hf).
  split.
  - intros u Hin. destruct (Hsome u) as [n Hn]; [set_solver |].
    exists n. split; [done |]. apply list_elem_of_lookup_1 in Hin as [j Hj].
    unfold Storage.getUserById. by eapply find_by_unique_id.
  - intros a Hin. destruct (Hsome a) as [n Hn]; [set_solver |].
    exists n. split; [done |]. apply list_elem_of_lookup_1 in Hin as [j Hj].
    unfold Storage.getFileAnalysisById. by eapply find_by_unique_id.
Qed.

Lemma stored_records_found_by_id_witness :
  ∃ n, id_of (Storage.createFileAnalysis 3 {["status" := VStr "PENDING"]}
                (Storage.calls (take 3 busy_day) Storage.empty).2).1 = Some n
       ∧ Storage.getFileAnalysisById (VNum n) (Storage.calls busy_day Storage.empty).2
         = Some (Storage.createFileAnalysis 3 {["status" := VStr "PENDING"]}
                   (Storage.calls (take 3 busy_day) Storage.empty).2).1.
Proof.
  assert (Hk : Forall keeps_ids busy_day).
  { unfold busy_day. repeat constructor; vm_compute; reflexivity. }
  apply (proj2 (stored_records_found_by_id busy_day Hk)).
  vm_compute. apply list_elem_of_here.
Defined.

(** ** Rows of the threats page *)

Section Rows.
Variable crafted : string → string → gmap string Threats.row → outcome (gmap string Threats.row).

Lemma update_row_with_status (threatId status : string) (p : Threats.page) :
  Threats.plain_id threatId = true →
  Threats.updateThreatRowStatus crafted threatId status p
  = Ok (Threats.set_rows (alter (row_with_status status) threatId (Threats.rows p)) p).
Proof.
  intros Hp. unfold Threats.updateThreatRowStatus, row_with_status, quarantined_row.
  rewrite Hp.
  destruct (Threats.rows p !! threatId) as [r|] eqn:Hr.
  - do 2 f_equal. apply map_eq. intros k. destruct (decide (threatId = k)) as [<-|Hne].
    + rewrite lookup_insert_eq, lookup_alter_eq, Hr.
      destruct (String.eqb status "quarantined") eqn:He; [| reflexivity].
      apply String.eqb_eq in He. by subst.
    + by rewrite lookup_insert_ne, lookup_alter_ne.
  - f_equal. destruct p. unfold Threats.set_rows. simpl in *. f_equal.
    apply map_eq. intros k. destruct (decide (threatId = k)) as [<-|Hne].
    + by rewrite lookup_alter_eq, Hr.
    + by rewrite lookup_alter_ne.
Qed.

Lemma row_with_status_twice (s1 s2 : string) (r : Threats.row) :
  row_with_status s2 (row_with_status s1 r) = row_with_status s2 r.
Proof.
  unfold row_with_status, quarantined_row.
  destruct (String.eqb s1 "quarantined"), (String.eqb s2 "quarantined");
    destruct r as [st [bg|] [[[qb|] [rb|]]|]]; reflexivity.
Qed.

End Rows.

(** X10. For a threat id that the selector carries as it is (an id
    without double quote, backslash, line break or NUL),
    [updateThreatRowStatus] does not throw, and the row of the threat
    shows the status it was given last: an update of its status wipes out
    the one before; a status other than 'quarantined' shows the threat as
    active, with the quarantine button and without the restore button;
    and the rows of the other threats and the rest of the page are left
    as they were. *)
Theorem row_shows_last_status
    (crafted : string → string → gmap string Threats.row → outcome (gmap string Threats.row))
    (threatId s1 s2 : string) (p : Threats.page) :
  Threats.plain_id threatId = true →
  ∃ p1, Threats.updateThreatRowStatus crafted threatId s1 p = Ok p1
    ∧ Threats.updateThreatRowStatus crafted threatId s2 p1
      = Threats.updateThreatRowStatus crafted threatId s2 p
    ∧ Threats.rows p1 !! threatId = row_with_status s1 <$> Threats.rows p !! threatId
    ∧ (∀ other, other ≠ threatId → Threats.rows p1 !! other = Threats.rows p !! other)
    ∧ Threats.set_rows (Threats.rows p) p1 = p.
Proof.
  intros Hp. eexists. split; [by apply update_row_with_status |].
  rewrite !update_row_with_status by done. repeat split.
  - unfold Threats.set_rows. simpl. do 2 f_equal. apply map_eq. intros k.
    destruct (decide (threatId = k)) as [<-|Hne].
    + rewrite !lookup_alter_eq. destruct (Threats.rows p !! threatId); simpl; [| done].
      by rewrite row_with_status_twice.
    + by rewrite !lookup_alter_ne.
  - simpl. apply lookup_alter_eq.
  - intros other Hne. simpl. by apply lookup_alter_ne.
  - by destruct p.
Qed.

Lemma row_shows_last_status_witness :
  ∃ p1, Threats.updateThreatRowStatus rejects_selector "11" "quarantined" (threats_page [])
        = Ok p1
    ∧ Threats.dataset_status <$> Threats.rows p1 !! "11" = Some "quarantined"
    ∧ Threats.rows p1 !! "12" = Some plain_row.
Proof.
  destruct (row_shows_last_status rejects_selector "11" "quarantined" "active"
              (threats_page []) eq_refl) as (p1 & H1 & _ & H3 & H4 & _).
  exists p1. split; [exact H1 |]. split.
  - rewrite H3. vm_compute. reflexivity.
  - rewrite (H4 "12"); [vm_compute; reflexivity | discriminate].
Defined.

(** ** After a bulk quarantine *)

Section BulkEpilogue.
Import Threats.
Variable crafted : string → string → gmap string row → outcome (gmap string row).

Lemma begin_page (p : page) :
  selectedThreats p ≠ [] →
  bulkQuarantine_begin true p
  = (Page (selectedThreats p) (rows p) (selectAllCheckbox p) (threat_checkboxes p)
          (bulk_actions p)
          (loadingOverlay p
           ++ [("Quarantining " ++ count (length (selectedThreats p)) ++ " threats...")%string])
          (toasts p) (requests p ++ (url_of <$> selectedThreats p)) (console p),
     Some (selectedThreats p)).
Proof.
  intros Hne. unfold bulkQuarantine_begin.
  destruct (Nat.eqb (length (selectedThreats p)) 0) eqn:He.
  { apply Nat.eqb_eq in He. by apply nil_length_inv in He. }
  cbn [negb]. by rewrite foldl_send.
Qed.

Lemma resume_page (results : list settled) (p : page) :
  (∀ id, id ∈ selectedThreats p → plain_id id = true) →
  let p' := bulkQuarantine_resume crafted results p in
  selectedThreats p' = []
  ∧ loadingOverlay p' = tail (loadingOverlay p)
  ∧ match selectAllCheckbox p with
    | Some _ =>
        selectAllCheckbox p' = Some false
        ∧ threat_checkboxes p' = (λ _, false) <$> threat_checkboxes p
        ∧ bulk_actions p'
          = (λ b, BulkAction true ((λ _, 0%nat) <$> selection_count b)) <$> bulk_actions p
        ∧ console p' = console p
    | None =>
        selectAllCheckbox p' = None
        ∧ threat_checkboxes p' = threat_checkboxes p
        ∧ bulk_actions p' = bulk_actions p
    end.
Proof.
  intros Hplain p'. subst p'. unfold bulkQuarantine_resume.
  rewrite tally_spec by (by apply marked_plain).
  destruct (Nat.ltb 0 _); destruct (Nat.ltb 0 _);
    destruct (selectAllCheckbox p) eqn:Hc; simpl; rewrite ?Hc; simpl; done.
Qed.

(** The loop over the results up to an update that throws. *)
Lemma tally_throws (before after : list settled) (ok : settled) (k sc fc : nat)
    (p : page) (message : string) :
  (∀ id, id ∈ marked (selectedThreats p) k before → plain_id id = true) →
  succeeded ok = true →
  let threatId := default "undefined" (selectedThreats p !! (k + length before)%nat) in
  let q := set_rows (foldl (λ m id, alter quarantined_row id m) (rows p)
                           (marked (selectedThreats p) k before)) p in
  updateThreatRowStatus crafted threatId "quarantined" q = Throw message →
  tally crafted (before ++ ok :: after) k sc fc p = Threw message q.
Proof.
  revert k sc fc p. induction before as [|r before IH]; intros k sc fc p Hplain Hok.
  - cbn. rewrite Nat.add_0_r, Hok. intros H.
    replace (set_rows (rows p) p) with p in H by (by destruct p). rewrite H.
    by destruct p.
  - cbn [marked app tally length] in *. intros H. destruct (succeeded r) eqn:Hr.
    + rewrite update_row_alter by (apply Hplain, list_elem_of_here).
      rewrite IH.
      * cbn [foldl selectedThreats set_rows rows]. by destruct p.
      * intros id Hid. apply Hplain. by apply list_elem_of_further.
      * done.
      * cbn [foldl selectedThreats set_rows rows] in *.
        rewrite <- H, Nat.add_succ_r. f_equal; by destruct p.
    + apply IH; [done | done |]. rewrite <- H. by rewrite Nat.add_succ_r.
Qed.

End BulkEpilogue.

(** X11. A confirmed bulk quarantine resumes on the page as the handlers
    that ran meanwhile left it. When every id then selected can stand in
    a selector as it is, the call that returns leaves nothing selected,
    so that a second one right after it is refused at the guard, and it
    takes one overlay down, so that there are as many as before the call
    when nothing else put one up or took one down meanwhile. On a page
    with a select-all box it also unchecks that box and every threat
    checkbox and disables the bulk buttons with a count of 0; on a page
    without one it stops at the missing box, and the checkboxes and the
    bulk buttons stay as they were. *)
Theorem bulk_quarantine_cleans_up
    (crafted : string → string → gmap string Threats.row → outcome (gmap string Threats.row))
    (server server' : string → Threats.fetch_result)
    (meanwhile meanwhile' : Threats.page → Threats.page)
    (again : bool) (p p' : Threats.page) :
  Threats.selectedThreats p ≠ [] →
  let waiting := (Threats.bulkQuarantine_begin true p).1 in
  let resumed := meanwhile waiting in
  (∀ id, id ∈ Threats.selectedThreats resumed → Threats.plain_id id = true) →
  Threats.bulkQuarantine crafted true server meanwhile p = Some p' →
  Threats.selectedThreats p' = []
  ∧ Threats.bulkQuarantine crafted again server' meanwhile' p'
    = Some (Threats.showToast "No threats selected for quarantine." "warning" p')
  ∧ Threats.loadingOverlay p' = tail (Threats.loadingOverlay resumed)
  ∧ (Threats.loadingOverlay resumed = Threats.loadingOverlay waiting →
     length (Threats.loadingOverlay p') = length (Threats.loadingOverlay p)
     ∧ (Threats.loadingOverlay p = [] → Threats.loadingOverlay p' = []))
  ∧ match Threats.selectAllCheckbox resumed with
    | Some _ =>
        Threats.selectAllCheckbox p' = Some false
        ∧ (∀ id c, Threats.threat_checkboxes p' !! id = Some c → c = false)
        ∧ buttons_show 0 (Threats.bulk_actions p')
    | None =>
        Threats.threat_checkboxes p' = Threats.threat_checkboxes resumed
        ∧ Threats.bulk_actions p' = Threats.bulk_actions resumed
    end.
Proof.
  intros Hne waiting resumed. subst waiting resumed.
  unfold Threats.bulkQuarantine at 1. rewrite (begin_page p Hne). cbn [fst].
  set (waiting := Threats.Page _ _ _ _ _ _ _ _ _).
  intros Hplain H.
  destruct (Threats.allSettled _) as [results|] eqn:Hr; [| done]. injection H as <-.
  destruct (resume_page crafted results (meanwhile waiting) Hplain) as (R1 & R2 & R3).
  split; [done |]. split; [| split; [done | split]].
  - unfold Threats.bulkQuarantine, Threats.bulkQuarantine_begin. by rewrite R1.
  - intros Ho. rewrite R2, Ho. subst waiting. cbn [Threats.loadingOverlay].
    destruct (Threats.loadingOverlay p); simpl; [done |].
    rewrite length_app. simpl. split; [lia | done].
  - destruct (Threats.selectAllCheckbox (meanwhile waiting));
      [| by destruct R3 as (_ & ? & ?)].
    destruct R3 as (Hb & Hcs & Hba & _). split; [done |]. split.
    + intros id c Hc. rewrite Hcs, lookup_fmap in Hc.
      destruct (Threats.threat_checkboxes (meanwhile waiting) !! id); by simplify_eq/=.
    + rewrite Hba. apply Forall_fmap, Forall_forall. intros btn _. simpl. split; [done |].
      intros n Hn. destruct (Threats.selection_count btn); by simplify_eq/=.
Qed.

Lemma bulk_quarantine_cleans_up_witness :
  ∃ p', Threats.bulkQuarantine rejects_selector true refuses_12 nothing_meanwhile
          (threats_page ["11"; "12"]) = Some p'
    ∧ Threats.selectedThreats p' = []
    ∧ Threats.bulkQuarantine rejects_selector true refuses_12 nothing_meanwhile p'
      = Some (Threats.showToast "No threats selected for quarantine." "warning" p').
Proof.
  pose (p' := default (threats_page [])
                (Threats.bulkQuarantine rejects_selector true refuses_12 nothing_meanwhile
                   (threats_page ["11"; "12"]))).
  assert (Hne : Threats.selectedThreats (threats_page ["11"; "12"]) ≠ []) by discriminate.
  assert (Hplain : ∀ id,
             id ∈ Threats.selectedThreats
                    (nothing_meanwhile
                       (Threats.bulkQuarantine_begin true (threats_page ["11"; "12"])).1) →
             Threats.plain_id id = true).
  { intros id Hid. vm_compute in Hid.
    apply elem_of_cons in Hid as [->|Hid]; [reflexivity |].
    apply list_elem_of_singleton in Hid as ->. reflexivity. }
  destruct (bulk_quarantine_cleans_up rejects_selector refuses_12 refuses_12
              nothing_meanwhile nothing_meanwhile true
              (threats_page ["11"; "12"]) p' Hne Hplain) as (H1 & H2 & _);
    [vm_compute; reflexivity |].
  exists p'. split; [vm_compute; reflexivity |]. split; [exact H1 | exact H2].
Defined.

(** ** Selecting threats *)

Section Selection.
Import Threats ThreatActions.

Lemma elem_of_set_add (x y : string) (l : list string) :
  y ∈ set_add x l ↔ y = x ∨ y ∈ l.
Proof.
  unfold set_add. case_bool_decide as H.
  - split; [by right |]. by intros [-> | ?].
  - rewrite elem_of_app, list_elem_of_singleton. tauto.
Qed.

Lemma NoDup_set_add (x : string) (l : list string) : NoDup l → NoDup (set_add x l).
Proof.
  intros Hl. unfold set_add. case_bool_decide as H; [done |].
  apply NoDup_app. split; [done |]. split; [| apply NoDup_singleton].
  intros y Hy Hx. apply list_elem_of_singleton in Hx. by subst.
Qed.

Lemma elem_of_set_delete (x y : string) (l : list string) :
  y ∈ set_delete x l ↔ y ≠ x ∧ y ∈ l.
Proof.
  unfold set_delete. rewrite !list_elem_of_In, filter_In, negb_true_iff.
  rewrite String.eqb_neq. tauto.
Qed.

Lemma NoDup_set_delete (x : string) (l : list string) : NoDup l → NoDup (set_delete x l).
Proof.
  induction l as [|a l IH]; intros Hl; [done |].
  apply NoDup_cons in Hl as [Ha Hl]. unfold set_delete in *. simpl.
  destruct (negb (String.eqb a x)); [| by apply IH].
  apply NoDup_cons. split; [| by apply IH].
  intros Hin. apply (elem_of_set_delete x a l) in Hin. tauto.
Qed.

Lemma buttons_updated (p : page) :
  selectedThreats (updateBulkActionButtons p) = selectedThreats p
  ∧ buttons_show (length (selectedThreats p)) (bulk_actions (updateBulkActionButtons p)).
Proof.
  split; [done |]. unfold buttons_show, updateBulkActionButtons. simpl.
  apply Forall_fmap, Forall_forall. intros b _. simpl. split; [done |].
  intros n Hn. destruct (selection_count b); by simplify_eq/=.
Qed.

(** The selection after the loop of the select-all handler. *)
Lemma select_each (isChecked : bool) (visible : list string) (p : page) :
  let each (p : page) (threatId : string) : page :=
    let p := set_checkbox threatId isChecked p in
    if isChecked
    then set_selected (set_add threatId (selectedThreats p)) p
    else set_selected (set_delete threatId (selectedThreats p)) p in
  selectedThreats (foldl each p visible)
  = foldl (λ l x, if isChecked then set_add x l else set_delete x l) (selectedThreats p)
          visible.
Proof.
  intros each. revert p. induction visible as [|x visible IH]; intros p; [done |].
  simpl. rewrite IH. f_equal. unfold each. by destruct isChecked.
Qed.

Lemma fold_selection (isChecked : bool) (visible l : list string) :
  NoDup l →
  let l' := foldl (λ l x, if isChecked then set_add x l else set_delete x l) l visible in
  NoDup l'
  ∧ ∀ y, y ∈ l' ↔ (if isChecked then (y ∈ visible ∨ y ∈ l) else ((y ∉ visible) ∧ y ∈ l)).
Proof.
  revert l. induction visible as [|x visible IH]; intros l Hl l'.
  - subst l'. simpl. split; [done |]. intros y. destruct isChecked.
    + split; [by right |]. intros [H|H]; [by apply elem_of_nil in H | done].
    + split; [| by intros [_ ?]]. intros H. split; [apply not_elem_of_nil | done].
  - subst l'. simpl. destruct isChecked.
    + destruct (IH (set_add x l) (NoDup_set_add x l Hl)) as [Hn Hm]. split; [done |].
      intros y. rewrite Hm, elem_of_set_add, elem_of_cons. tauto.
    + destruct (IH (set_delete x l) (NoDup_set_delete x l Hl)) as [Hn Hm]. split; [done |].
      intros y. rewrite Hm, elem_of_set_delete, not_elem_of_cons. tauto.
Qed.

End Selection.

(** X12. The selection of the threats page stays a set under its two
    handlers. Checking a box adds its threat and unchecking removes it,
    the other threats staying in or out as they were. The select-all box
    adds every threat the selector matches, or removes every one of them,
    and leaves the threats it does not match alone. After either handler
    the bulk buttons show the size of the selection, disabled exactly
    when it is empty; unchecking a box on a page without a select-all box
    is the one case where they are left stale. *)
Theorem selection_stays_a_set (p : Threats.page) :
  NoDup (Threats.selectedThreats p) →
  (∀ id c,
     let p' := ThreatActions.checkbox_changed id c p in
     NoDup (Threats.selectedThreats p')
     ∧ (id ∈ Threats.selectedThreats p' ↔ c = true)
     ∧ (∀ other, other ≠ id →
          (other ∈ Threats.selectedThreats p' ↔ other ∈ Threats.selectedThreats p))
     ∧ (c = true ∨ is_Some (Threats.selectAllCheckbox p) →
        buttons_show (length (Threats.selectedThreats p')) (Threats.bulk_actions p')))
  ∧ (∀ c visible,
     is_Some (Threats.selectAllCheckbox p) →
     let p' := ThreatActions.select_all_changed c visible p in
     NoDup (Threats.selectedThreats p')
     ∧ (∀ id, id ∈ visible → (id ∈ Threats.selectedThreats p' ↔ c = true))
     ∧ (∀ id, id ∉ visible →
          (id ∈ Threats.selectedThreats p' ↔ id ∈ Threats.selectedThreats p))
     ∧ buttons_show (length (Threats.selectedThreats p')) (Threats.bulk_actions p')).
Proof.
  intros Hnd. split.
  - intros id c p'. subst p'. unfold ThreatActions.checkbox_changed. destruct c.
    + match goal with |- context [Threats.updateBulkActionButtons ?q] =>
        destruct (buttons_updated q) as [Hs Hb]
      end.
      rewrite Hs. simpl in *. split; [by apply NoDup_set_add |].
      split; [rewrite elem_of_set_add; by intuition |].
      split; [| done]. intros other Hne. rewrite elem_of_set_add. tauto.
    + simpl. destruct (Threats.selectAllCheckbox p) eqn:Hbox.
      * match goal with |- context [Threats.updateBulkActionButtons ?q] =>
          destruct (buttons_updated q) as [Hs Hb]
        end.
        rewrite Hs. simpl in *. split; [by apply NoDup_set_delete |].
        split; [rewrite elem_of_set_delete; by intuition |].
        split; [| done]. intros other Hne. rewrite elem_of_set_delete. tauto.
      * simpl. split; [by apply NoDup_set_delete |].
        split; [rewrite elem_of_set_delete; by intuition |].
        split; [intros other Hne; rewrite elem_of_set_delete; tauto |].
        intros [? | [? ?]]; done.
  - intros c visible [box Hbox] p'. subst p'. unfold ThreatActions.select_all_changed.
    rewrite Hbox.
    match goal with |- context [Threats.updateBulkActionButtons ?q] =>
      destruct (buttons_updated q) as [Hs Hb]
    end.
    rewrite Hs. rewrite select_each in *. simpl in *.
    destruct (fold_selection c visible (Threats.selectedThreats p) Hnd) as [Hn Hm].
    split; [done |]. split; [| split; [| done]].
    + intros id Hid. rewrite Hm. destruct c; [by intuition |].
      split; [by intros [? _] | done].
    + intros id Hid. rewrite Hm. destruct c; tauto.
Qed.

Lemma selection_stays_a_set_witness :
  NoDup (Threats.selectedThreats (ThreatActions.checkbox_changed "12" true (threats_page ["11"])))
  ∧ ("12" ∈ Threats.selectedThreats
              (ThreatActions.checkbox_changed "12" true (threats_page ["11"]))
     ↔ true = true).
Proof.
  assert (Hnd : NoDup (Threats.selectedThreats (threats_page ["11"]))).
  { apply (bool_decide_unpack _). vm_compute. exact I. }
  destruct (proj1 (selection_stays_a_set (threats_page ["11"]) Hnd) "12" true)
    as (H1 & H2 & _).
  split; [exact H1 | exact H2].
Defined.

(** ** One threat, or all of them *)

Section Actions.
Import Threats ThreatActions.

Lemma add_all (visible l : list string) :
  NoDup (l ++ visible) → foldl (λ l x, set_add x l) l visible = l ++ visible.
Proof.
  revert l. induction visible as [|x visible IH]; intros l Hnd; simpl.
  - by rewrite app_nil_r.
  - assert (Hx : x ∉ l).
    { apply NoDup_app in Hnd as (_ & Hd & _). intros Hin.
      apply (Hd x Hin). apply list_elem_of_here. }
    unfold set_add at 2. rewrite bool_decide_eq_false_2 by done.
    rewrite IH; rewrite <- app_assoc; done.
Qed.

Lemma select_each_frame (isChecked : bool) (visible : list string) (p : page) :
  let each (p : page) (threatId : string) : page :=
    let p := set_checkbox threatId isChecked p in
    if isChecked
    then set_selected (set_add threatId (selectedThreats p)) p
    else set_selected (set_delete threatId (selectedThreats p)) p in
  requests (foldl each p visible) = requests p ∧ rows (foldl each p visible) = rows p.
Proof.
  intros each. revert p. induction visible as [|x visible IH]; intros p; [done |].
  simpl. destruct (IH (each p x)) as [-> ->]. unfold each. by destruct isChecked.
Qed.

Lemma select_all_fields (c : bool) (visible : list string) (p : page) (box : bool) :
  selectAllCheckbox p = Some box →
  let p' := select_all_changed c visible p in
  selectedThreats p'
  = foldl (λ l x, if c then set_add x l else set_delete x l) (selectedThreats p) visible
  ∧ requests p' = requests p ∧ rows p' = rows p.
Proof.
  intros Hbox p'. subst p'. unfold select_all_changed. rewrite Hbox.
  match goal with |- context [updateBulkActionButtons ?q] =>
    destruct (buttons_updated q) as [Hs _]
  end.
  rewrite Hs, select_each. split; [done |].
  destruct (select_each_frame c visible (set_select_all c p)) as [Hr Hw].
  split; [exact Hr | exact Hw].
Qed.

(** Selecting all from an empty selection selects the threats matched,
    in document order. *)
Lemma select_all_page (visible : list string) (p : page) (box : bool) :
  selectAllCheckbox p = Some box → selectedThreats p = [] → NoDup visible →
  let p' := select_all_changed true visible p in
  selectedThreats p' = visible ∧ requests p' = requests p ∧ rows p' = rows p.
Proof.
  intros Hbox Hsel Hnd p'.
  destruct (select_all_fields true visible p box Hbox) as (H1 & H2 & H3).
  fold p' in H1, H2, H3. split; [| done].
  rewrite H1, Hsel. by rewrite add_all.
Qed.

End Actions.

(** X13. Select all, then quarantine in bulk: from an empty selection,
    the confirmed bulk quarantine sends exactly one request per threat
    the select-all box matched, in document order. When the ids matched
    can stand in a selector as they are, and the handlers that run while
    the call waits send nothing and leave the selection as it is, the
    call marks the rows of the threats whose request the server accepted,
    and no other row. *)
Theorem select_all_then_bulk
    (crafted : string → string → gmap string Threats.row → outcome (gmap string Threats.row))
    (server : string → Threats.fetch_result) (meanwhile : Threats.page → Threats.page)
    (visible : list string) (p p' : Threats.page) :
  is_Some (Threats.selectAllCheckbox p) →
  Threats.selectedThreats p = [] → NoDup visible → visible ≠ [] →
  (∀ id, id ∈ visible → Threats.plain_id id = true) →
  let selected := ThreatActions.select_all_changed true visible p in
  let waiting := (Threats.bulkQuarantine_begin true selected).1 in
  let resumed := meanwhile waiting in
  Threats.selectedThreats resumed = Threats.selectedThreats waiting →
  Threats.requests resumed = Threats.requests waiting →
  Threats.bulkQuarantine crafted true server meanwhile selected = Some p' →
  Threats.requests waiting = Threats.requests p ++ (Threats.url_of <$> visible)
  ∧ Threats.requests p' = Threats.requests p ++ (Threats.url_of <$> visible)
  ∧ ∀ id, Threats.rows p' !! id
          = if bool_decide (id ∈ visible ∧ accepted (server id) = true)
            then quarantined_row <$> Threats.rows resumed !! id
            else Threats.rows resumed !! id.
Proof.
  intros [box Hbox] Hsel Hnd Hne Hplain selected waiting resumed.
  destruct (select_all_page visible p box Hbox Hsel Hnd) as (Hs & Hq & Hw).
  fold selected in Hs, Hq, Hw.
  assert (Hqne : Threats.selectedThreats selected ≠ []) by (by rewrite Hs).
  subst resumed waiting. unfold Threats.bulkQuarantine.
  rewrite (begin_page selected Hqne). cbn [fst].
  set (waiting := Threats.Page _ _ _ _ _ _ _ _ _).
  intros Hsame Hreq H.
  destruct (Threats.allSettled _) as [results|] eqn:Hr; [| done]. injection H as <-.
  destruct (allSettled_Some server _ results Hr) as [Hlen Hwon].
  assert (Hp2 : ∀ id, id ∈ Threats.selectedThreats (meanwhile waiting) →
                      Threats.plain_id id = true).
  { intros id. rewrite Hsame. subst waiting. cbn [Threats.selectedThreats].
    rewrite Hs. apply Hplain. }
  destruct (resume_spec crafted results (meanwhile waiting) Hp2) as (R1 & R2 & _).
  rewrite R1, R2, Hreq, Hsame. subst waiting.
  cbn [Threats.selectedThreats Threats.requests].
  rewrite marked_winners by (simpl; lia). rewrite drop_0, Hwon, Hs, Hq.
  split; [done |]. split; [done |]. intros id. rewrite mark_all_lookup.
  assert (Hiff : id ∈ List.filter (λ id0, accepted (server id0)) visible
                 ↔ id ∈ visible ∧ accepted (server id) = true).
  { rewrite !list_elem_of_In, filter_In. tauto. }
  case_decide as Hd; case_bool_decide as Hb; try done; tauto.
Qed.

Lemma select_all_then_bulk_witness :
  ∃ p', Threats.bulkQuarantine rejects_selector true refuses_12 nothing_meanwhile
          (ThreatActions.select_all_changed true ["11"; "12"; "13"] (threats_page []))
        = Some p'
    ∧ Threats.requests p'
      = ["/quarantine_threat/11"; "/quarantine_threat/12"; "/quarantine_threat/13"].
Proof.
  pose (p' := default (threats_page [])
                (Threats.bulkQuarantine rejects_selector true refuses_12 nothing_meanwhile
                   (ThreatActions.select_all_changed true ["11"; "12"; "13"]
                      (threats_page [])))).
  exists p'. split; [vm_compute; reflexivity |].
  refine (proj1 (proj2 (select_all_then_bulk rejects_selector refuses_12 nothing_meanwhile
                          ["11"; "12"; "13"] (threats_page []) p' _ _ _ _ _ _ _ _))).
  - vm_compute. eexists. reflexivity.
  - reflexivity.
  - apply (bool_decide_unpack _). vm_compute. exact I.
  - discriminate.
  - intros id Hid.
    repeat (apply elem_of_cons in Hid as [->|Hid]; [reflexivity |]).
    by apply elem_of_nil in Hid.
  - reflexivity.
  - reflexivity.
  - vm_compute. reflexivity.
Defined.

Section Single.
Import Threats ThreatActions.
Variable crafted : string → string → gmap string row → outcome (gmap string row).

Lemma overlay_restored (p : page) (message : string) :
  length (tail (loadingOverlay p ++ [message])) = length (loadingOverlay p).
Proof.
  destruct (loadingOverlay p); simpl; [done |]. rewrite length_app. simpl. lia.
Qed.

End Single.

(** X14. Quarantining one threat whose id can stand in a selector as it
    is. Declined at the dialog, the call changes nothing and sends
    nothing. Confirmed, it puts up its overlay, sends one request and
    never returns exactly when the request never settles. It resumes on
    the page and the modal as the handlers that ran meanwhile left them,
    and takes one overlay down; either the request was accepted, and the
    row of the threat is marked quarantined, the modal hidden and a
    success toast shown, or it was not, and the rows and the modal are as
    they were, with one toast that says so. With nothing running
    meanwhile its rows are those a bulk quarantine of that one threat
    leaves. *)
Theorem single_quarantine
    (crafted : string → string → gmap string Threats.row → outcome (gmap string Threats.row))
    (answer : Threats.fetch_result)
    (meanwhile : Threats.page * option bool → Threats.page * option bool)
    (id : string) (p : Threats.page) (modal : option bool) :
  Threats.plain_id id = true →
  let waiting :=
    Threats.send (Threats.url_of id) (Threats.showLoadingState "Quarantining threat..." p) in
  let resumed := meanwhile (waiting, modal) in
  ThreatActions.handleQuarantineAction crafted false answer meanwhile id (p, modal)
  = Some (p, modal)
  ∧ Threats.requests waiting = Threats.requests p ++ [Threats.url_of id]
  ∧ length (tail (Threats.loadingOverlay waiting)) = length (Threats.loadingOverlay p)
  ∧ (ThreatActions.handleQuarantineAction crafted true answer meanwhile id (p, modal) = None
     ↔ answer = Threats.Unsettled)
  ∧ (∀ p' modal',
      ThreatActions.handleQuarantineAction crafted true answer meanwhile id (p, modal)
      = Some (p', modal') →
      Threats.requests p' = Threats.requests resumed.1
      ∧ Threats.loadingOverlay p' = tail (Threats.loadingOverlay resumed.1)
      ∧ (if accepted answer
         then Threats.rows p' = alter quarantined_row id (Threats.rows resumed.1)
              ∧ modal' = (λ _, false) <$> resumed.2
              ∧ Threats.toasts p'
                = Threats.toasts resumed.1
                  ++ [("Threat quarantined successfully!", "success")]
         else Threats.rows p' = Threats.rows resumed.1 ∧ modal' = resumed.2
              ∧ ∃ message,
                  Threats.toasts p'
                  = Threats.toasts resumed.1
                    ++ [(("Quarantine failed: " ++ message)%string, "danger")]))
  ∧ (∀ p' modal' pb,
      ThreatActions.handleQuarantineAction crafted true answer (λ st, st) id (p, modal)
      = Some (p', modal') →
      Threats.bulkQuarantine crafted true (λ _, answer) (λ q, q) (Threats.set_selected [id] p)
      = Some pb →
      Threats.rows pb = Threats.rows p').
Proof.
  intros Hplain waiting resumed.
  split; [done |]. split; [done |]. split; [apply overlay_restored |]. split; [| split].
  - unfold ThreatActions.handleQuarantineAction. cbn [negb]. fold waiting.
    destruct answer as [[]|reason|].
    + fold resumed. destruct resumed as [q m].
      rewrite update_row_alter by done. split; done.
    + fold resumed. destruct resumed as [q m]. split; done.
    + fold resumed. destruct resumed as [q m]. split; done.
    + split; done.
  - intros p' modal' H.
    unfold ThreatActions.handleQuarantineAction in H. cbn [negb] in H. fold waiting in H.
    destruct answer as [[]|reason|]; [| | | done]; fold resumed in H;
      destruct resumed as [q m]; cbn [fst snd accepted].
    + rewrite update_row_alter in H by done. by simplify_eq/=.
    + simplify_eq/=. split; [done |]. split; [done |]. split; [done |]. split; [done |].
      by eexists.
    + simplify_eq/=. split; [done |]. split; [done |]. split; [done |]. split; [done |].
      by eexists.
  - intros p' modal' pb H Hpb.
    assert (Hb : Threats.rows pb
                 = if accepted answer then alter quarantined_row id (Threats.rows p)
                   else Threats.rows p).
    { unfold Threats.bulkQuarantine in Hpb.
      rewrite begin_page in Hpb by done.
      destruct (Threats.allSettled _) as [results|] eqn:Hr; [| done]. injection Hpb as <-.
      destruct (allSettled_Some (λ _, answer) _ results Hr) as [Hlen Hwon].
      match goal with |- context [Threats.bulkQuarantine_resume crafted results ?q1] =>
        destruct (resume_spec crafted results q1) as (R1 & _)
      end.
      { intros x Hx. cbn in Hx. apply list_elem_of_singleton in Hx. by subst. }
      cbn [Threats.selectedThreats Threats.set_selected] in R1, Hwon, Hlen.
      rewrite marked_winners in R1 by (simpl in *; lia).
      rewrite drop_0, Hwon in R1. rewrite R1. simpl. by destruct (accepted answer). }
    rewrite Hb.
    unfold ThreatActions.handleQuarantineAction in H. cbn [negb] in H.
    destruct answer as [[]|reason|]; [| | | done].
    + rewrite update_row_alter in H by done. by simplify_eq/=.
    + by simplify_eq/=.
    + by simplify_eq/=.
Qed.

Lemma single_quarantine_witness :
  ∃ p', ThreatActions.handleQuarantineAction rejects_selector true (Threats.Fulfilled true)
          (λ st, st) "11" (threats_page [], Some true) = Some (p', Some false)
    ∧ Threats.requests p' = ["/quarantine_threat/11"].
Proof.
  pose (r := default (threats_page [], None)
               (ThreatActions.handleQuarantineAction rejects_selector true
                  (Threats.Fulfilled true) (λ st, st) "11" (threats_page [], Some true))).
  exists r.1. split; [vm_compute; reflexivity |].
  destruct (single_quarantine rejects_selector (Threats.Fulfilled true) (λ st, st) "11"
              (threats_page []) (Some true) eq_refl) as (_ & _ & _ & _ & H & _).
  destruct (H r.1 r.2) as (Hreq & _); [vm_compute; reflexivity |].
  rewrite Hreq. vm_compute. reflexivity.
Defined.

(** X21. An update of a row that throws ends the quarantine early. In a
    bulk quarantine the rows updated before stay updated, but the rows of
    the later accepted requests are not marked, no count is reported, the
    selection and the checkboxes stay as they are, and the error shows
    in one toast of type danger and in the console; the overlay is taken
    down all the same. In the quarantine of one threat the success toast
    is followed by the failure toast, and the modal stays as it is. *)
Theorem throwing_update_ends_quarantine
    (crafted : string → string → gmap string Threats.row → outcome (gmap string Threats.row))
    (before after : list Threats.settled) (ok : Threats.settled)
    (p : Threats.page) (modal : option bool) (message : string) :
  let threatId := default "undefined" (Threats.selectedThreats p !! length before) in
  let ids := marked (Threats.selectedThreats p) 0 before in
  let q := Threats.set_rows (foldl (λ m id, alter quarantined_row id m) (Threats.rows p) ids) p in
  (∀ id, id ∈ ids → Threats.plain_id id = true) →
  Threats.succeeded ok = true →
  Threats.plain_id threatId = false →
  crafted threatId "quarantined" (Threats.rows q) = Throw message →
  (let p' := Threats.bulkQuarantine_resume crafted (before ++ ok :: after) p in
   Threats.rows p' = Threats.rows q
   ∧ Threats.selectedThreats p' = Threats.selectedThreats p
   ∧ Threats.selectAllCheckbox p' = Threats.selectAllCheckbox p
   ∧ Threats.threat_checkboxes p' = Threats.threat_checkboxes p
   ∧ Threats.bulk_actions p' = Threats.bulk_actions p
   ∧ Threats.toasts p'
     = Threats.toasts p ++ [(("Bulk quarantine failed: " ++ message)%string, "danger")]
   ∧ Threats.console p' = Threats.console p ++ [("Bulk quarantine error:", message)]
   ∧ Threats.loadingOverlay p' = tail (Threats.loadingOverlay p))
  ∧ ThreatActions.handleQuarantineAction crafted true (Threats.Fulfilled true) (λ st, st)
      threatId (q, modal)
    = Some (Threats.hideLoadingState
              (ThreatActions.quarantine_failed message
                 (Threats.showToast "Threat quarantined successfully!" "success"
                    (Threats.send (Threats.url_of threatId)
                       (Threats.showLoadingState "Quarantining threat..." q)))),
            modal).
Proof.
  intros threatId ids q Hplain Hok Hid Hthrow.
  assert (Hu : ∀ q', Threats.rows q' = Threats.rows q →
             Threats.updateThreatRowStatus crafted threatId "quarantined" q' = Throw message).
  { intros q' Hq'. unfold Threats.updateThreatRowStatus. by rewrite Hid, Hq', Hthrow. }
  split.
  - unfold Threats.bulkQuarantine_resume.
    rewrite (tally_throws crafted before after ok 0 0 0 p message Hplain Hok (Hu q eq_refl)).
    fold ids. fold q. by destruct p.
  - unfold ThreatActions.handleQuarantineAction. cbn [negb]. by rewrite Hu.
Qed.

Lemma throwing_update_ends_quarantine_witness :
  Threats.selectedThreats
    (Threats.bulkQuarantine_resume rejects_selector
       [Threats.SFulfilled true; Threats.SFulfilled true]
       (threats_page ["11"; Threats.dq]))
  = ["11"; Threats.dq]
  ∧ Threats.dataset_status
      <$> Threats.rows
            (Threats.bulkQuarantine_resume rejects_selector
               [Threats.SFulfilled true; Threats.SFulfilled true]
               (threats_page ["11"; Threats.dq])) !! "11"
    = Some "quarantined".
Proof.
  destruct (throwing_update_ends_quarantine rejects_selector
              [Threats.SFulfilled true] [] (Threats.SFulfilled true)
              (threats_page ["11"; Threats.dq]) None
              "Failed to execute 'querySelector' on 'Document'")
    as [(H1 & H2 & _) _].
  - intros id Hid. apply list_elem_of_singleton in Hid as ->. reflexivity.
  - reflexivity.
  - reflexivity.
  - reflexivity.
  - split; [exact H2 |]. cbn [app] in H1. rewrite H1. vm_compute. reflexivity.
Defined.

(** ** Escaped text *)

Section Escaping.
Import Html.

Lemma escape_cons (a : Ascii.ascii) (s : string) :
  escapeHtml (String a s) = (entity a ++ escapeHtml s)%string.
Proof.
  unfold escapeHtml, entity. cbn [replace_all].
  destruct (Ascii.eqb a amp) eqn:H1; [reflexivity |]. cbn [replace_all].
  destruct (Ascii.eqb a lt) eqn:H2; [reflexivity |]. cbn [replace_all].
  destruct (Ascii.eqb a gt) eqn:H3; [reflexivity |]. cbn [replace_all].
  destruct (Ascii.eqb a quot) eqn:H4; [reflexivity |]. cbn [replace_all].
  destruct (Ascii.eqb a apos) eqn:H5; reflexivity.
Qed.

Lemma append_assoc (s t u : string) : ((s ++ t) ++ u = s ++ (t ++ u))%string.
Proof.
  induction s as [|b s IH]; [done |].
  change (String b ((s ++ t) ++ u) = String b (s ++ (t ++ u)))%string. by rewrite IH.
Qed.

Lemma occurs_app (a : Ascii.ascii) (s t : string) :
  occurs a (s ++ t)%string = occurs a s || occurs a t.
Proof. induction s as [|b s IH]; simpl; [done |]. by rewrite IH, orb_assoc. Qed.

Lemma entity_markup (a b : Ascii.ascii) : markup b = true → occurs b (entity a) = false.
Proof.
  unfold markup, entity. intros Hb.
  repeat (apply orb_true_iff in Hb as [Hb | Hb]); apply Ascii.eqb_eq in Hb; subst b;
    destruct (Ascii.eqb a amp) eqn:H1; try reflexivity;
    destruct (Ascii.eqb a lt) eqn:H2; try reflexivity;
    destruct (Ascii.eqb a gt) eqn:H3; try reflexivity;
    destruct (Ascii.eqb a quot) eqn:H4; try reflexivity;
    destruct (Ascii.eqb a apos) eqn:H5; try reflexivity;
    cbn [occurs]; rewrite orb_false_r, Ascii.eqb_sym; assumption.
Qed.

End Escaping.

(** X15. [escapeHtml] leaves none of the characters that open or close
    markup or an attribute value: its result has no less-than sign, no
    greater-than sign, no double quote and no apostrophe, whatever the
    text. Escaping goes character by character, so escaping two texts
    and joining them is escaping the joined text, and an ampersand is
    escaped once, not once more by the later passes. *)
Theorem escaped_text_is_inert (s t : string) (a : Ascii.ascii) :
  (markup a = true → occurs a (Html.escapeHtml s) = false)
  ∧ Html.escapeHtml (s ++ t) = (Html.escapeHtml s ++ Html.escapeHtml t)%string
  ∧ Html.escapeHtml (String Html.amp s) = ("&amp;" ++ Html.escapeHtml s)%string.
Proof.
  split; [| split].
  - intros Ha. induction s as [|b s IH]; [done |].
    rewrite escape_cons, occurs_app, IH. by rewrite entity_markup.
  - induction s as [|b s IH]; [done |].
    change (String b s ++ t)%string with (String b (s ++ t)%string).
    rewrite !escape_cons, IH. by rewrite append_assoc.
  - by rewrite escape_cons.
Qed.

Lemma escaped_text_is_inert_witness :
  occurs Html.lt (Html.escapeHtml "<script>alert('x')</script>") = false.
Proof.
  apply (proj1 (escaped_text_is_inert "<script>alert('x')</script>" "" Html.lt)).
  reflexivity.
Defined.

Lemma entity_first (a : Ascii.ascii) :
  ∃ c rest, entity a = String c rest
            ∧ (c = a ∨ (c = Html.amp ∧ rest ≠ EmptyString)).
Proof.
  unfold entity.
  destruct (Ascii.eqb a Html.amp) eqn:H1; [apply Ascii.eqb_eq in H1; subst; by eauto |].
  destruct (Ascii.eqb a Html.lt); [eexists _, _; split; [done |]; by right |].
  destruct (Ascii.eqb a Html.gt); [eexists _, _; split; [done |]; by right |].
  destruct (Ascii.eqb a Html.quot); [eexists _, _; split; [done |]; by right |].
  destruct (Ascii.eqb a Html.apos); [eexists _, _; split; [done |]; by right |].
  by eauto.
Qed.

(** Two characters whose escapes start two equal texts are the same
    character, and the texts go on equal. *)
Lemma entity_prefix (a b : Ascii.ascii) (x y : string) :
  (entity a ++ x = entity b ++ y)%string → a = b ∧ x = y.
Proof.
  unfold entity.
  destruct (Ascii.eqb a Html.amp) eqn:A1; [apply Ascii.eqb_eq in A1 | apply Ascii.eqb_neq in A1];
  [| destruct (Ascii.eqb a Html.lt) eqn:A2;
     [apply Ascii.eqb_eq in A2 | apply Ascii.eqb_neq in A2];
   [| destruct (Ascii.eqb a Html.gt) eqn:A3;
      [apply Ascii.eqb_eq in A3 | apply Ascii.eqb_neq in A3];
    [| destruct (Ascii.eqb a Html.quot) eqn:A4;
       [apply Ascii.eqb_eq in A4 | apply Ascii.eqb_neq in A4];
     [| destruct (Ascii.eqb a Html.apos) eqn:A5;
        [apply Ascii.eqb_eq in A5 | apply Ascii.eqb_neq in A5]]]]];
  (destruct (Ascii.eqb b Html.amp) eqn:B1; [apply Ascii.eqb_eq in B1 | apply Ascii.eqb_neq in B1];
   [| destruct (Ascii.eqb b Html.lt) eqn:B2;
      [apply Ascii.eqb_eq in B2 | apply Ascii.eqb_neq in B2];
    [| destruct (Ascii.eqb b Html.gt) eqn:B3;
       [apply Ascii.eqb_eq in B3 | apply Ascii.eqb_neq in B3];
     [| destruct (Ascii.eqb b Html.quot) eqn:B4;
        [apply Ascii.eqb_eq in B4 | apply Ascii.eqb_neq in B4];
      [| destruct (Ascii.eqb b Html.apos) eqn:B5;
         [apply Ascii.eqb_eq in B5 | apply Ascii.eqb_neq in B5]]]]]);
  subst; simpl; intros H; simplify_eq/=; try done; try (split; congruence).
Qed.

(** X16. [escapeHtml] loses nothing: two texts that escape to the same
    text are the same text. *)
Theorem escaping_is_injective (s t : string) :
  Html.escapeHtml s = Html.escapeHtml t → s = t.
Proof.
  revert t. induction s as [|a s IH]; intros [|b t] H.
  - done.
  - rewrite escape_cons in H. destruct (entity_first b) as (c & rest & Hc & _).
    by rewrite Hc in H.
  - rewrite escape_cons in H. destruct (entity_first a) as (c & rest & Hc & _).
    by rewrite Hc in H.
  - rewrite !escape_cons in H. apply entity_prefix in H as [-> H]. by rewrite (IH t H).
Qed.

Lemma escaping_is_injective_witness : "a&b" = "a&b".
Proof.
  apply (escaping_is_injective "a&b" "a&b"). reflexivity.
Defined.

(** ** The client's polling *)

Section Polling.
Variable resultsDiv : bool.

Lemma poll_keeps_going (server : nat → Client.fetched) (attempts fuel : nat) :
  keeps_polling (server attempts) = true →
  Client.poll resultsDiv server attempts (S fuel) =
    if Nat.ltb (S attempts) Client.maxAttempts
    then Client.poll resultsDiv server (S attempts) fuel
    else (Client.Notifies "Analysis timed out" "error", S attempts).
Proof.
  intros H. cbn [Client.poll]. unfold keeps_polling in H.
  destruct (server attempts) as [analysis| |]; try done.
  destruct (Index.property analysis "status") as [status|]; try done.
  apply andb_prop in H as [H1 H2].
  apply negb_true_iff in H1, H2. by rewrite H1, H2.
Qed.



Lemma poll_to_the_end (server : nat → Client.fetched) (fuel attempts : nat) :
  (attempts + fuel = Client.maxAttempts)%nat →
  (0 < fuel)%nat →
  (∀ k, (attempts ≤ k < Client.maxAttempts)%nat → keeps_polling (server k) = true) →
  Client.poll resultsDiv server attempts fuel =
    (Client.Notifies "Analysis timed out" "error", Client.maxAttempts).
Proof.
  revert attempts. induction fuel as [|fuel IH]; intros attempts Hf Hpos Hgo.
  { lia. }
  rewrite poll_keeps_going by (apply Hgo; lia).
  destruct (Nat.ltb_spec (S attempts) Client.maxAttempts) as [Hlt|Hge].
  - apply IH; [lia|lia|]. intros k Hk. apply Hgo. lia.
  - by replace (S attempts) with Client.maxAttempts by lia.
Qed.

End Polling.



(** X18. When each of the first 30 answers is a body whose status is
    neither COMPLETED nor FAILED, a body that has no status property,
    such as the body of a 404 answer, among them, [pollAnalysisResult]
    makes exactly 30 requests and then shows 'Analysis timed out'; it
    never runs on. *)
Theorem polling_gives_up_after_30 (resultsDiv : bool) (server : nat → Client.fetched) :
  (∀ k, (k < 30)%nat → keeps_polling (server k) = true) →
  Client.pollAnalysisResult resultsDiv server =
    (Client.Notifies "Analysis timed out" "error", 30%nat).
Proof.
  intros Hgo. unfold Client.pollAnalysisResult.
  apply poll_to_the_end; unfold Client.maxAttempts; [lia|lia|].
  intros k Hk. apply Hgo. lia.
Qed.

Lemma polling_gives_up_after_30_witness :
  Client.pollAnalysisResult true
    (λ _, Client.Json (VObj {[ "error" := VStr "Analysis not found" ]})) =
  (Client.Notifies "Analysis timed out" "error", 30%nat).
Proof.
  apply (polling_gives_up_after_30 true
           (λ _, Client.Json (VObj {[ "error" := VStr "Analysis not found" ]}))).
  intros k Hk. vm_compute; reflexivity.
Defined.

(** ** The client's scans *)

Lemma scan_step_one_at_most (s : Client.scans) (e : Client.scan_event) :
  one_scan_at_most s → one_scan_at_most (Client.scan_step s e).
Proof.
  intros [[Hf Ht]|[Hf Ht]]; destruct s as [f t n d]; cbn in Hf, Ht; subst.
  - destruct e as [|c|i]; cbn.
    + left. by cbn.
    + left. by cbn.
    + destruct t as [|k [|k' t]]; try done.
      unfold Client.scan_timer_fires. cbn.
      destruct i as [|i]; cbn.
      * right. by destruct k.
      * left. by cbn.
  - destruct e as [|c|i]; cbn.
    + left. by cbn.
    + destruct c; cbn; [left|right]; by cbn.
    + right. unfold Client.scan_timer_fires. by cbn.
Qed.

(** X19. Whatever the order of the clicks on the two scan buttons, the
    answers to the confirmation dialog and the timers going off, the
    flag [scanInProgress] is up exactly when one timer of a scan is
    pending, two scans are never under way together, and the timer of
    the scan under way going off takes the flag down again. *)
Theorem one_scan_at_a_time (es : list Client.scan_event) :
  one_scan_at_most (Client.scan_run es Client.no_scan)
  ∧ (Client.scanInProgress (Client.scan_run es Client.no_scan) = true →
     Client.scanInProgress
       (Client.scan_timer_fires 0 (Client.scan_run es Client.no_scan)) = false).
Proof.
  assert (H : one_scan_at_most (Client.scan_run es Client.no_scan)).
  { unfold Client.scan_run.
    assert (Hi : one_scan_at_most Client.no_scan) by (by right).
    revert Hi. generalize Client.no_scan.
    induction es as [|e es IH]; intros s Hs; first done.
    cbn [foldl]. apply IH. by apply scan_step_one_at_most. }
  split; first done.
  intros Hf. destruct H as [[_ Ht]|[Hf' _]]; last congruence.
  unfold Client.scan_timer_fires.
  destruct (Client.scan_timers (Client.scan_run es Client.no_scan)) as [|k t]; first done.
  by destruct k.
Qed.

Lemma one_scan_at_a_time_witness :
  Client.scanInProgress
    (Client.scan_timer_fires 0
       (Client.scan_run [Client.ClickQuick; Client.ClickFull true] Client.no_scan)) = false.
Proof.
  apply (one_scan_at_a_time [Client.ClickQuick; Client.ClickFull true]).
  vm_compute; reflexivity.
Defined.

(** ** The scan form *)

Lemma trimEnd_blank (s : Scanner.jsstring) :
  Scanner.trimEnd s = [] ↔ blank s = true.
Proof.
  unfold blank. induction s as [|c s IH]; cbn [Scanner.trimEnd forallb]; first done.
  destruct (Scanner.trimEnd s) as [|d kept].
  - destruct (Scanner.whitespace c); cbn.
    + split; intros _; [by apply IH|done].
    + done.
  - split; first done. intros [_ H]%andb_prop. by apply IH in H.
Qed.

Lemma trimStart_blank (s : Scanner.jsstring) :
  blank (Scanner.trimStart s) = blank s.
Proof.
  unfold blank. induction s as [|c s IH]; cbn [Scanner.trimStart]; first done.
  destruct (Scanner.whitespace c) eqn:Hc; last done.
  cbn [forallb]. by rewrite Hc.
Qed.

Lemma trim_blank (s : Scanner.jsstring) :
  bool_decide (Scanner.trim s = []) = blank s.
Proof.
  unfold Scanner.trim.
  destruct (blank s) eqn:Hb.
  - apply bool_decide_eq_true, trimEnd_blank. by rewrite trimStart_blank.
  - apply bool_decide_eq_false. intros H%trimEnd_blank.
    rewrite trimStart_blank in H. congruence.
Qed.

Lemma isValidPath_spec (path : Scanner.jsstring) :
  path ≠ [] →
  Scanner.isValidPath path = true ↔
    (length path ≤ 500)%nat
    ∧ ∀ char, char ∈ Scanner.dangerousChars → Scanner.includes path char = false.
Proof.
  intros Hne. unfold Scanner.isValidPath.
  assert (H1 : Nat.ltb (length path) 1 = false).
  { apply Nat.ltb_ge. destruct path; [done|cbn; lia]. }
  rewrite H1, orb_false_l.
  destruct (Nat.ltb_spec 500 (length path)) as [Hl|Hl].
  { split; [done|]. intros [? _]. lia. }
  destruct (existsb (Scanner.includes path) Scanner.dangerousChars) eqn:He.
  - split; first done. intros [_ H].
    apply existsb_exists in He as (char & Hin & Hc).
    rewrite H in Hc; [done|]. by apply list_elem_of_In.
  - split; last done. intros _. split; first done.
    intros char Hin. destruct (Scanner.includes path char) eqn:Hc; last done.
    assert (existsb (Scanner.includes path) Scanner.dangerousChars = true); last congruence.
    apply existsb_exists. exists char. split; [by apply list_elem_of_In|done].
Qed.

(** X20. With the strings of the form taken as their UTF-16 code units,
    [validateScanForm] accepts a form exactly when a scan type is chosen,
    the target path has a code unit that [trim] does not remove and, for
    the type custom only, the path has at most 500 code units and none
    of the characters less-than, greater-than, bar, star, question mark
    and double quote; for the other scan types the path is not checked
    further. An accepted form shows no toast, and a refused one shows
    exactly one toast, of type warning. *)
Theorem scan_form_accepted (scan_type target_path : option Scanner.jsstring) :
  (Scanner.validateScanForm scan_type target_path = (true, []) ↔
     ∃ scanType targetPath,
       scan_type = Some scanType ∧ scanType ≠ [] ∧
       target_path = Some targetPath ∧ blank targetPath = false ∧
       (scanType = Scanner.units "custom" →
        (length targetPath ≤ 500)%nat
        ∧ ∀ char, char ∈ Scanner.dangerousChars →
                  Scanner.includes targetPath char = false))
  ∧ (Scanner.validateScanForm scan_type target_path ≠ (true, []) →
     ∃ message,
       Scanner.validateScanForm scan_type target_path = (false, [(message, "warning")])).
Proof.
  unfold Scanner.validateScanForm.
  assert (Hno : ∀ (P : Prop) (x : bool * list (string * string)) m,
             x = (false, [(m, "warning")]) →
             (P → False) →
             (x = (true, []) ↔ P) ∧ (x ≠ (true, []) → ∃ message, x = (false, [(message, "warning")]))).
  { intros P x m -> HP. split; [split; [done|intros H; destruct (HP H)]|]. intros _. by eexists. }
  destruct scan_type as [[|a t]|].
  - eapply Hno; [done|]. intros (? & ? & ? & ? & _). by simplify_eq.
  - destruct target_path as [[|b p]|].
    + eapply Hno; [done|]. intros (? & ? & ? & ? & ? & ? & _). by simplify_eq.
    + rewrite trim_blank. destruct (blank (b :: p)) eqn:Hb.
      { eapply Hno; [done|]. intros (? & ? & ? & ? & ? & ? & _). simplify_eq. congruence. }
      case_bool_decide as Hc;
        [destruct (Scanner.isValidPath (b :: p)) eqn:Hv|]; cbn [andb negb].
      * split; last done. split; last done.
        intros _. exists (a :: t), (b :: p).
        split; [done|]. split; [done|]. split; [done|]. split; [done|].
        intros _. by apply isValidPath_spec.
      * eapply Hno; [done|]. intros (? & ? & ? & ? & ? & ? & H). simplify_eq.
        assert (Scanner.isValidPath (b :: p) = true); last congruence.
        apply isValidPath_spec; first done. by apply H.
      * split; last done. split; last done.
        intros _. exists (a :: t), (b :: p).
        split; [done|]. split; [done|]. split; [done|]. split; [done|].
        intros; congruence.
    + eapply Hno; [done|]. intros (? & ? & ? & ? & ? & ? & _). by simplify_eq.
  - eapply Hno; [done|]. intros (? & ? & ? & _). by simplify_eq.
Qed.

Lemma scan_form_accepted_witness :
  Scanner.validateScanForm (Some (Scanner.units "custom"))
    (Some (Scanner.units "/home/ada/invoice.pdf")) = (true, []).
Proof.
  apply (scan_form_accepted (Some (Scanner.units "custom"))
           (Some (Scanner.units "/home/ada/invoice.pdf"))).
  exists (Scanner.units "custom"), (Scanner.units "/home/ada/invoice.pdf").
  split; [reflexivity|]. split; [done|]. split; [reflexivity|]. split; [reflexivity|].
  intros _. split; [cbn; lia|].
  intros char Hin. apply list_elem_of_In in Hin. cbn in Hin.
  repeat (destruct Hin as [<-|Hin]; [reflexivity|]). destruct Hin.
Defined.
